(** * Conway's game of life over MPI (08_mpi_gol/src/main.cpp)

    A shallow embedding of the row-striped game of life: the partitioner,
    the halo-padded double buffers, the ring neighbours, the non-blocking
    halo exchange and the stencil update, followed by the properties of
    the written specification that were checked against them. *)

From Stdlib Require Import ZArith List Lia Bool.
From stdpp Require Import base list list_numbers.
From Stdlib Require String Ascii DecimalString DecimalN.
Import ListNotations.
Import String.StringSyntax Ascii.AsciiSyntax.
Local Open Scope Z_scope.

(** ** Machine integers

    [usize] is [std::size_t] (64 bits, unsigned, wraps), [int] is 32 bits
    and signed.  Values are kept in [Z]; every arithmetic step of the
    source is followed by the reduction its type performs. *)
Module Ints.

Definition usize_max : Z := 2 ^ 64 - 1.
Definition int_max : Z := 2 ^ 31 - 1.
Definition int_min : Z := - 2 ^ 31.

Definition is_usize (z : Z) : Prop := 0 <= z <= usize_max.
Definition is_int (z : Z) : Prop := int_min <= z <= int_max.

(** Conversion to [usize]: reduction modulo 2^64, as [static_cast<usize>]
    does for a negative [int]. *)
Definition to_usize (z : Z) : Z := z mod 2 ^ 64.

(** Conversion to [int]: two's complement reduction to 32 bits. *)
Definition to_int (z : Z) : Z := (z + 2 ^ 31) mod 2 ^ 32 - 2 ^ 31.

Definition usize_add (a b : Z) : Z := to_usize (a + b).
Definition usize_sub (a b : Z) : Z := to_usize (a - b).
Definition usize_mul (a b : Z) : Z := to_usize (a * b).
(** Unsigned division and remainder. *)
Definition usize_div (a b : Z) : Z := a / b.
Definition usize_rem (a b : Z) : Z := a mod b.

Definition int_add (a b : Z) : Z := to_int (a + b).
Definition int_sub (a b : Z) : Z := to_int (a - b).
(** [%] on [int] truncates toward zero. *)
Definition int_rem (a b : Z) : Z := Z.rem a b.

(** The largest worker count for which [rank - 1 + size] stays inside
    [int] for every rank. *)
Definition ring_max : Z := 2 ^ 30.

End Ints.
Import Ints.

(** ** Simulation data and partition *)

Inductive IDType : Type := glider_id | random_id.

Record SimulationData : Type := mkSimulationData {
  grid_size : Z;
  generations : Z;
  stats_every : Z;
  data_every : Z;
  random_seed : Z;
  id_type : IDType
}.

Record Partition : Type := mkPartition {
  rank : Z;
  size : Z;
  local_rows : Z;
  row_offset : Z
}.

(** [compute_partition], lines 40-53. *)
Definition compute_partition (sd : SimulationData) (rank size : Z) : Partition :=
  let base := usize_div (grid_size sd) (to_usize size) in
  let rem := usize_rem (grid_size sd) (to_usize size) in
  let local := usize_add base (if to_usize rank <? rem then 1 else 0) in
  let offset :=
    usize_add (usize_mul base (to_usize rank)) (Z.min (to_usize rank) rem) in
  mkPartition rank size local offset.

(** The sum of [local_rows] over the ranks [first, first + count). *)
Fixpoint rows_sum (sd : SimulationData) (size : Z) (first : Z) (count : nat) : Z :=
  match count with
  | O => 0
  | S k => local_rows (compute_partition sd first size)
           + rows_sum sd size (first + 1) k
  end.

(** Global row [g] belongs to the range of rank [r]. *)
Definition owns (sd : SimulationData) (size r g : Z) : Prop :=
  let p := compute_partition sd r size in
  row_offset p <= g < row_offset p + local_rows p.

(** ** Ring neighbours, lines 176-177 *)

Definition up (rank size : Z) : Z := int_rem (int_add (int_sub rank 1) size) size.
Definition down (rank size : Z) : Z := int_rem (int_add rank 1) size.

(** Following the [down] links [k] times. *)
Fixpoint follow_down (size : Z) (k : nat) (i : Z) : Z :=
  match k with
  | O => i
  | S k' => follow_down size k' (down i size)
  end.

(** ** Fallible steps

    An access outside a view or a buffer, or a receive that no send
    matches, has no result: such a step yields [None]. *)
Notation "'let?' x ':=' e 'in' k" :=
  (match e with Some x => k | None => None end)
  (at level 10, x name, e at level 100, k at level 200, only parsing).

(** [for (i = first; ...; i++)] over [count] consecutive indices,
    threading the state [s] through the body. *)
Fixpoint for_loop {St : Type} (count : nat) (first : Z)
    (body : Z -> St -> option St) (s : St) : option St :=
  match count with
  | O => Some s
  | S k => let? s' := body first s in for_loop k (first + 1) body s'
  end.

(** The indices [lo, lo+1, ..., hi-1]. *)
Definition for_range {St : Type} (lo hi : Z) (body : Z -> St -> option St) (s : St)
    : option St :=
  for_loop (Z.to_nat (hi - lo)) lo body s.

(** ** Buffers and their two-dimensional views

    A buffer is the [std::vector<u8>] as a list of cells; an [mdspan] over
    it carries the two extents and maps [(r, c)] to [r * cols + c]. *)
Definition is_u8 (z : Z) : Prop := 0 <= z <= 255.

Record mdspan : Type := mkMdspan { md_rows : Z; md_cols : Z }.

Definition in_extents (m : mdspan) (r c : Z) : bool :=
  (0 <=? r) && (r <? md_rows m) && (0 <=? c) && (c <? md_cols m).

Definition md_index (m : mdspan) (r c : Z) : Z :=
  usize_add (usize_mul r (md_cols m)) c.

Definition md_read (m : mdspan) (buf : list Z) (r c : Z) : option Z :=
  if in_extents m r c then buf !! Z.to_nat (md_index m r c) else None.

Definition md_write (m : mdspan) (buf : list Z) (r c v : Z) : option (list Z) :=
  if in_extents m r c && (md_index m r c <? Z.of_nat (length buf))
  then Some (<[Z.to_nat (md_index m r c) := v]> buf)
  else None.

(** [row_ptr], lines 62-64, as an offset from the start of the data. *)
Definition row_ptr (sd : SimulationData) (r : Z) : Z :=
  usize_mul r (grid_size sd).

(** The state of a rank that takes part in the simulation: its partition,
    the current buffer and the scratch buffer. *)
Record Worker : Type := mkWorker {
  part : Partition;
  grid_buf : list Z;
  next_buf : list Z
}.

Definition rows_with_halo (p : Partition) : Z := usize_add (local_rows p) 2.

(** The view [grid] / [next_grid] of lines 141-142. *)
Definition view (sd : SimulationData) (p : Partition) : mdspan :=
  mkMdspan (rows_with_halo p) (grid_size sd).

(** Lines 132-134: two zero-filled vectors of [rows_with_halo * grid_size]
    cells. *)
Definition allocate (sd : SimulationData) (p : Partition) : Worker :=
  let len := Z.to_nat (usize_mul (rows_with_halo p) (grid_size sd)) in
  mkWorker p (replicate len 0) (replicate len 0).

(** ** Initial data, lines 145-173 *)

(** The nine assignments of the [glider_id] case, in program order, as
    (row, column, value). *)
Definition glider_writes : list (Z * Z * Z) :=
  [ (1, 0, 0); (1, 1, 1); (1, 2, 0);
    (2, 0, 0); (2, 1, 0); (2, 2, 1);
    (3, 0, 1); (3, 1, 1); (3, 2, 1) ].

Fixpoint md_write_all (m : mdspan) (buf : list Z) (ws : list (Z * Z * Z))
    : option (list Z) :=
  match ws with
  | [] => Some buf
  | (r, c, v) :: ws' => let? buf' := md_write m buf r c v in md_write_all m buf' ws'
  end.

Definition init_glider (sd : SimulationData) (w : Worker) : option Worker :=
  let? g := md_write_all (view sd (part w)) (grid_buf w) glider_writes in
  Some (mkWorker (part w) g (next_buf w)).

(** The [random_id] case.  [bit seed k] stands for the [k]-th value drawn
    by [bit(rng)] from a [std::mt19937_64] seeded with [seed]; the draw
    counter travels with the buffer through both loops. *)
Definition init_random (bit : Z -> Z -> Z) (sd : SimulationData) (w : Worker)
    : option Worker :=
  let p := part w in
  let m := view sd p in
  let seed := usize_add (random_seed sd) (to_usize (rank p)) in
  let? gk :=
    for_range 1 (local_rows p + 1)
      (fun r =>
         for_range 0 (grid_size sd)
           (fun c (gk : list Z * Z) =>
              let? g' := md_write m (fst gk) r c (bit seed (snd gk)) in
              Some (g', snd gk + 1)))
      (grid_buf w, 0) in
  Some (mkWorker p (fst gk) (next_buf w)).

Definition initialize (bit : Z -> Z -> Z) (sd : SimulationData) (w : Worker)
    : option Worker :=
  match id_type sd with
  | random_id => init_random bit sd w
  | glider_id => init_glider sd w
  end.

(** ** MPI calls and process start *)

Inductive mpi_call : Type :=
  | MPI_Barrier
  | MPI_Finalize
  | MPI_Irecv (buf count source tag : Z)
  | MPI_Isend (buf count dest tag : Z)
  | MPI_Waitall (count : Z).

Definition EXIT_SUCCESS : Z := 0.

(** A rank has left [main] (with its exit status and the MPI calls it
    made on the way out), waits inside the [MPI_Barrier] of line 120, or
    is in the generation loop. *)
Inductive Proc : Type :=
  | Exited (status : Z) (calls : list mpi_call)
  | AtBarrier
  | Running (w : Worker).

(** Lines 110-173 for one rank: partition, the zero-row branch up to its
    call of [MPI_Barrier], allocation and initial data. *)
Definition start (bit : Z -> Z -> Z) (sd : SimulationData) (rank size : Z)
    : option Proc :=
  let p := compute_partition sd rank size in
  if local_rows p =? 0
  then Some AtBarrier
  else let? w := initialize bit sd (allocate sd p) in Some (Running w).

Definition at_barrier (pr : Proc) : bool :=
  match pr with
  | AtBarrier => true
  | _ => false
  end.

(** [MPI_Barrier] on [MPI_COMM_WORLD] returns on a rank once every rank
    of the world has called it.  The only call is the one of line 120, so
    the ranks that wait there go on to [MPI_Finalize] and
    [return EXIT_SUCCESS] (lines 121-122) when all ranks wait there, and
    keep waiting otherwise. *)
Definition barrier (world : list Proc) : list Proc :=
  if forallb at_barrier world
  then map (fun _ => Exited EXIT_SUCCESS [MPI_Barrier; MPI_Finalize]) world
  else world.

(** ** Halo exchange, lines 187-211 *)

(** The four requests a rank posts each generation, in program order. *)
Definition halo_requests (sd : SimulationData) (p : Partition) : list mpi_call :=
  let up := up (rank p) (size p) in
  let down := down (rank p) (size p) in
  let count := to_int (grid_size sd) in
  [ MPI_Irecv (row_ptr sd 0) count up 0;
    MPI_Irecv (row_ptr sd (usize_add (local_rows p) 1)) count down 1;
    MPI_Isend (row_ptr sd (local_rows p)) count down 0;
    MPI_Isend (row_ptr sd 1) count up 1 ].

(** A send addressed to rank [me] with tag [tag]. *)
Definition matching_send (me tag : Z) (c : mpi_call) : bool :=
  match c with
  | MPI_Isend _ _ dest t => (dest =? me) && (t =? tag)
  | _ => false
  end.

(** Completion of one request of rank [me] on its buffer [buf].  A
    receive takes the data of the send that its source addressed to [me]
    under the same tag; without such a send it never completes.  The rows
    sent are never rows received into, so the data are those of the
    sender's buffer before the exchange. *)
Definition complete (sd : SimulationData) (world : list Proc) (me : Z)
    (buf : list Z) (req : mpi_call) : option (list Z) :=
  match req with
  | MPI_Irecv off count source tag =>
      if source <? 0 then None else
      match world !! Z.to_nat source with
      | Some (Running ws) =>
          match find (matching_send me tag) (halo_requests sd (part ws)) with
          | Some (MPI_Isend soff scount _ _) =>
              let data := take (Z.to_nat scount) (drop (Z.to_nat soff) (grid_buf ws)) in
              if (Z.of_nat (length data) <=? count)
                 && (0 <=? off) && (off + Z.of_nat (length data) <=? Z.of_nat (length buf))
              then Some (list_inserts (Z.to_nat off) data buf)
              else None
          | _ => None
          end
      | _ => None
      end
  | _ => Some buf
  end.

Fixpoint complete_all (sd : SimulationData) (world : list Proc) (me : Z)
    (buf : list Z) (reqs : list mpi_call) : option (list Z) :=
  match reqs with
  | [] => Some buf
  | req :: reqs' =>
      let? buf' := complete sd world me buf req in
      complete_all sd world me buf' reqs'
  end.

(** [MPI_Waitall] on the four requests of one rank. *)
Definition waitall (sd : SimulationData) (world : list Proc) (w : Worker)
    : option Worker :=
  let? g := complete_all sd world (rank (part w)) (grid_buf w)
              (halo_requests sd (part w)) in
  Some (mkWorker (part w) g (next_buf w)).

Fixpoint each_proc (f : Worker -> option Worker) (world : list Proc)
    : option (list Proc) :=
  match world with
  | [] => Some []
  | Exited st calls :: rest =>
      let? rest' := each_proc f rest in Some (Exited st calls :: rest')
  | AtBarrier :: rest =>
      let? rest' := each_proc f rest in Some (AtBarrier :: rest')
  | Running w :: rest =>
      let? w' := f w in
      let? rest' := each_proc f rest in Some (Running w' :: rest')
  end.

(** The exchange of one generation over all ranks ([world] lists the
    ranks in order, rank 0 first). *)
Definition halo_exchange (sd : SimulationData) (world : list Proc)
    : option (list Proc) :=
  each_proc (waitall sd world) world.

(** ** Stencil update, lines 218-251 *)

Definition life_rule (cur nsum : Z) : Z :=
  if cur =? 1
  then (if (nsum =? 2) || (nsum =? 3) then 1 else 0)
  else (if nsum =? 3 then 1 else 0).

Definition left_of (sd : SimulationData) (c : Z) : Z :=
  if c =? 0 then to_int (usize_sub (grid_size sd) 1) else to_int (usize_sub c 1).

Definition right_of (sd : SimulationData) (c : Z) : Z :=
  if usize_add c 1 =? grid_size sd then 0 else to_int (usize_add c 1).

(** The body of the inner loop up to the value [nxt]. *)
Definition stencil_cell (sd : SimulationData) (m : mdspan) (grid : list Z)
    (r c : Z) : option Z :=
  let left := to_usize (left_of sd c) in
  let right := to_usize (right_of sd c) in
  let nsum := 0 in
  let? x := md_read m grid (usize_sub r 1) left in let nsum := int_add nsum x in
  let? x := md_read m grid (usize_sub r 1) c in let nsum := int_add nsum x in
  let? x := md_read m grid (usize_sub r 1) right in let nsum := int_add nsum x in
  let? x := md_read m grid r left in let nsum := int_add nsum x in
  let? x := md_read m grid r right in let nsum := int_add nsum x in
  let? x := md_read m grid (usize_add r 1) left in let nsum := int_add nsum x in
  let? x := md_read m grid (usize_add r 1) c in let nsum := int_add nsum x in
  let? x := md_read m grid (usize_add r 1) right in let nsum := int_add nsum x in
  let? cur := md_read m grid r c in
  Some (life_rule cur nsum).

Definition update_cell (sd : SimulationData) (m : mdspan) (grid : list Z)
    (r c : Z) (next : list Z) : option (list Z) :=
  let? nxt := stencil_cell sd m grid r c in
  md_write m next r c nxt.

(** The two nested loops over the owned rows and all columns. *)
Definition compute_next (sd : SimulationData) (w : Worker) : option Worker :=
  let p := part w in
  let m := view sd p in
  let? next' :=
    for_range 1 (local_rows p + 1)
      (fun r => for_range 0 (grid_size sd) (update_cell sd m (grid_buf w) r))
      (next_buf w) in
  Some (mkWorker p (grid_buf w) next').

(** Line 292: [std::swap(grid_buf, next_buf)]. *)
Definition swap_buffers (w : Worker) : Worker :=
  mkWorker (part w) (next_buf w) (grid_buf w).

(** ** Generation

    The part of the loop body that changes the buffers, on every rank:
    exchange, compute, swap (lines 187-251 and 292-296). *)
Definition generation (sd : SimulationData) (world : list Proc)
    : option (list Proc) :=
  let? exchanged := halo_exchange sd world in
  let? computed := each_proc (compute_next sd) exchanged in
  each_proc (fun w => Some (swap_buffers w)) computed.

Fixpoint run (sd : SimulationData) (steps : nat) (world : list Proc)
    : option (list Proc) :=
  match steps with
  | O => Some world
  | S k => let? world' := generation sd world in run sd k world'
  end.

Fixpoint start_all (bit : Z -> Z -> Z) (sd : SimulationData) (size : Z)
    (first : Z) (count : nat) : option (list Proc) :=
  match count with
  | O => Some []
  | S k =>
      let? pr := start bit sd first size in
      let? rest := start_all bit sd size (first + 1) k in
      Some (pr :: rest)
  end.

(** All [size] ranks at line 176: initialised and about to enter the
    loop, or on the zero-row branch. *)
Definition start_world (bit : Z -> Z -> Z) (sd : SimulationData) (size : Z)
    : option (list Proc) :=
  let? world := start_all bit sd size 0 (Z.to_nat size) in
  Some (barrier world).

(** ** Vocabulary of the properties *)

(** The element at offset [i] of a buffer, 0 outside of it. *)
Definition flat (buf : list Z) (i : Z) : Z := default 0 (buf !! Z.to_nat i).

(** The cell [(r, c)] of a buffer of [n] columns. *)
Definition cell (n : Z) (buf : list Z) (r c : Z) : Z := flat buf (r * n + c).

(** Sizes for which no [usize] or [int] operation of the program wraps. *)
Definition dims_ok (sd : SimulationData) (p : Partition) : Prop :=
  1 <= grid_size sd <= int_max /\ 1 <= local_rows p <= int_max.

(** A buffer of [(local_rows + 2) * grid_size] cells. *)
Definition buffer_ok (sd : SimulationData) (p : Partition) (buf : list Z) : Prop :=
  Z.of_nat (length buf) = (local_rows p + 2) * grid_size sd.

(** The periodic column neighbours in the words of the specification. *)
Definition wrap_left (n c : Z) : Z := if c =? 0 then n - 1 else c - 1.
Definition wrap_right (n c : Z) : Z := if c =? n - 1 then 0 else c + 1.

(** The sum of the eight neighbours of [(r, c)] in a halo-padded buffer. *)
Definition neighbour_sum (n : Z) (buf : list Z) (r c : Z) : Z :=
  cell n buf (r - 1) (wrap_left n c) + cell n buf (r - 1) c
  + cell n buf (r - 1) (wrap_right n c)
  + cell n buf r (wrap_left n c) + cell n buf r (wrap_right n c)
  + cell n buf (r + 1) (wrap_left n c) + cell n buf (r + 1) c
  + cell n buf (r + 1) (wrap_right n c).

(** The value the stencil update stores at offset [i] of the scratch
    buffer, read off the current buffer [grid]. *)
Definition stencil_at (sd : SimulationData) (grid : list Z) (i : Z) : Z :=
  let n := grid_size sd in
  life_rule (cell n grid (i / n) (i mod n)) (neighbour_sum n grid (i / n) (i mod n)).

(** [s] is the scratch buffer [next0] after the update has gone through
    the offsets from the start of row 1 up to [k], excluded. *)
Definition updated_upto (sd : SimulationData) (grid next0 : list Z) (k : Z)
    (s : list Z) : Prop :=
  length s = length next0
  /\ forall i, 0 <= i ->
       flat s i = if (grid_size sd <=? i) && (i <? k)
                  then stencil_at sd grid i else flat next0 i.

(** The 3x3 glider mask as a function of the buffer row and column. *)
Definition glider_mask (r c : Z) : Z :=
  if ((r =? 1) && (c =? 1)) || ((r =? 2) && (c =? 2))
     || ((r =? 3) && ((c =? 0) || (c =? 1) || (c =? 2)))
  then 1 else 0.

(** Every access of the glider initialisation lies inside the view. *)
Definition glider_in_extents (sd : SimulationData) (p : Partition) : bool :=
  forallb (fun w => in_extents (view sd p) (fst (fst w)) (snd (fst w))) glider_writes.

(** A 4x4 grid on one rank, used to instantiate the properties. *)
Definition sd4 : SimulationData := mkSimulationData 4 1 1 1 64 glider_id.
Definition worker4 : Worker :=
  mkWorker (compute_partition sd4 0 1)
    [0;0;0;0; 0;1;0;0; 0;0;1;0; 1;1;1;0; 0;0;0;0; 0;0;0;0]
    [0;0;0;0; 0;0;0;0; 0;0;0;0; 0;0;0;0; 0;0;0;0; 0;0;0;0].

(** Row [r] of a buffer of [n] columns, and a buffer with its row [r]
    overwritten by [data]. *)
Definition row_of (n : Z) (buf : list Z) (r : Z) : list Z :=
  take (Z.to_nat n) (drop (Z.to_nat (r * n)) buf).
Definition with_row (n : Z) (buf : list Z) (r : Z) (data : list Z) : list Z :=
  list_inserts (Z.to_nat (r * n)) data buf.

(** The run of the degenerate scenario: a 2x2 grid with random initial
    data, one generation. *)
Definition sd_degenerate : SimulationData := mkSimulationData 2 1 1 1 64 random_id.

(** ** The glider on a torus *)

(** The state of cell [(r, c)] when exactly the cells of [cells] live. *)
Definition alive (cells : list (Z * Z)) (r c : Z) : Z :=
  if existsb (fun rc => (fst rc =? r) && (snd rc =? c)) cells then 1 else 0.

(** One generation of the rule on an [n x n] torus whose cell states are
    given by [f]: rows and columns both wrap. *)
Definition torus_step (n : Z) (f : Z -> Z -> Z) (r c : Z) : Z :=
  life_rule (f r c)
    (f (wrap_left n r) (wrap_left n c) + f (wrap_left n r) c
     + f (wrap_left n r) (wrap_right n c)
     + f r (wrap_left n c) + f r (wrap_right n c)
     + f (wrap_right n r) (wrap_left n c) + f (wrap_right n r) c
     + f (wrap_right n r) (wrap_right n c)).

(** The live cells of the glider mask in grid coordinates (buffer row 1 is
    grid row 0) and of the three generations that follow. *)
Definition glider_cells : list (Z * Z) := [(0, 1); (1, 2); (2, 0); (2, 1); (2, 2)].
Definition glider_gen1 : list (Z * Z) := [(1, 0); (1, 2); (2, 1); (2, 2); (3, 1)].
Definition glider_gen2 : list (Z * Z) := [(1, 2); (2, 0); (2, 2); (3, 1); (3, 2)].
Definition glider_gen3 : list (Z * Z) := [(1, 1); (2, 2); (2, 3); (3, 1); (3, 2)].

(** A shape moved one row down and one column right. *)
Definition shift_diag (cells : list (Z * Z)) : list (Z * Z) :=
  map (fun rc => (fst rc + 1, snd rc + 1)) cells.

(** All cells of a shape lie in rows and columns 0..3. *)
Definition in_box (cells : list (Z * Z)) : bool :=
  forallb (fun rc => (0 <=? fst rc) && (fst rc <=? 3)
                     && (0 <=? snd rc) && (snd rc <=? 3)) cells.

(** Rows (or columns) of an [n]-torus, [n >= 6], folded onto the 7-torus:
    0..4 stay, the last one goes to 6, the ones in between to 5. *)
Definition fold7 (n r : Z) : Z :=
  if r <=? 4 then r else if r =? n - 1 then 6 else 5.

(** On the [m]-torus the shape [A] is followed by the shape [B]. *)
Definition phase_check (m : Z) (A B : list (Z * Z)) : bool :=
  forallb (fun r =>
    forallb (fun c => torus_step m (alive A) r c =? alive B r c) (seqZ 0 m))
    (seqZ 0 m).

(** Equal, or both outside the box. *)
Definition near (x y : Z) : Prop := x = y \/ (4 <= x /\ 4 <= y).

(** The owned cells of the single worker of an [n x n] grid, in grid
    coordinates. *)
Definition owned (n : Z) (w : Worker) (r c : Z) : Z := cell n (grid_buf w) (r + 1) c.

(** The single worker of a one-rank run with well-formed buffers. *)
Definition single_ok (sd : SimulationData) (w : Worker) : Prop :=
  rank (part w) = 0 /\ size (part w) = 1
  /\ local_rows (part w) = grid_size sd
  /\ 1 <= grid_size sd <= int_max
  /\ buffer_ok sd (part w) (grid_buf w) /\ Forall is_u8 (grid_buf w)
  /\ buffer_ok sd (part w) (next_buf w) /\ Forall is_u8 (next_buf w).

(** ** The whole ring in the generation loop *)

(** A world of [p] ranks, none of which left early: rank [i] holds the
    partition [compute_partition sd i p] and two well-sized buffers. *)
Definition ring_ok (sd : SimulationData) (p : Z) (world : list Proc) : Prop :=
  1 <= grid_size sd <= int_max /\ 1 <= p <= grid_size sd /\ p <= ring_max
  /\ Z.of_nat (length world) = p
  /\ forall i, 0 <= i < p ->
       exists w, world !! Z.to_nat i = Some (Running w)
                 /\ part w = compute_partition sd i p
                 /\ buffer_ok sd (part w) (grid_buf w) /\ Forall is_u8 (grid_buf w)
                 /\ buffer_ok sd (part w) (next_buf w) /\ Forall is_u8 (next_buf w).

(** The first rank of [first, first + count) whose range holds the global
    row [g]; [first + count] when there is none. *)
Fixpoint owner_from (sd : SimulationData) (size g first : Z) (count : nat) : Z :=
  match count with
  | O => first
  | S k =>
      let p := compute_partition sd first size in
      if (row_offset p <=? g) && (g <? row_offset p + local_rows p)
      then first else owner_from sd size g (first + 1) k
  end.

Definition owner (sd : SimulationData) (size g : Z) : Z :=
  owner_from sd size g 0 (Z.to_nat size).

(** The cell at global row [g] and column [c] of the distributed grid, in
    the coordinates of the data dump: buffer row [r] of a rank is global
    row [row_offset + (r - 1)]. *)
Definition global_cell (sd : SimulationData) (size : Z) (world : list Proc)
    (g c : Z) : Z :=
  match world !! Z.to_nat (owner sd size g) with
  | Some (Running w) =>
      cell (grid_size sd) (grid_buf w) (g - row_offset (part w) + 1) c
  | _ => 0
  end.

(** [k] generations of the rule on the [n x n] torus. *)
Fixpoint torus_iter (n : Z) (k : nat) (f : Z -> Z -> Z) : Z -> Z -> Z :=
  match k with
  | O => f
  | S k' => torus_iter n k' (torus_step n f)
  end.

(** The pair of buffer and draw counter after the random initialisation
    has gone through the offsets from the start of row 1 up to [q]. *)
Definition random_upto (sd : SimulationData) (draw : Z -> Z) (g0 : list Z)
    (q : Z) (gk : list Z * Z) : Prop :=
  snd gk = q - grid_size sd
  /\ length (fst gk) = length g0
  /\ forall i, 0 <= i ->
       flat (fst gk) i = if (grid_size sd <=? i) && (i <? q)
                         then draw (i - grid_size sd) else flat g0 i.

(** [w1] is the worker [w] of [world] after the halo exchange: around each
    owned row its current buffer holds the rows of the distributed grid
    that lie above and below on the torus. *)
Definition exchanged_from (sd : SimulationData) (p : Z) (world : list Proc)
    (w w1 : Worker) : Prop :=
  let n := grid_size sd in
  part w1 = part w /\ next_buf w1 = next_buf w
  /\ buffer_ok sd (part w) (grid_buf w1) /\ Forall is_u8 (grid_buf w1)
  /\ forall r x, 1 <= r <= local_rows (part w) -> 0 <= x < n ->
       let g := row_offset (part w) + r - 1 in
       cell n (grid_buf w1) (r - 1) x = global_cell sd p world (wrap_left n g) x
       /\ cell n (grid_buf w1) r x = global_cell sd p world g x
       /\ cell n (grid_buf w1) (r + 1) x = global_cell sd p world (wrap_right n g) x.

(** [w2] is the worker [w1] after the stencil update. *)
Definition computed_from (sd : SimulationData) (w1 w2 : Worker) : Prop :=
  let n := grid_size sd in
  part w2 = part w1 /\ grid_buf w2 = grid_buf w1
  /\ buffer_ok sd (part w1) (next_buf w2)
  /\ (Forall is_u8 (next_buf w1) -> Forall is_u8 (next_buf w2))
  /\ forall r c, 1 <= r <= local_rows (part w1) -> 0 <= c < n ->
       cell n (next_buf w2) r c
       = life_rule (cell n (grid_buf w1) r c) (neighbour_sum n (grid_buf w1) r c).

(** A 4x4 grid on two ranks, used to instantiate the properties: rank 0
    holds rows 0-1, rank 1 rows 2-3. *)
Definition world42 : list Proc :=
  [ Running (mkWorker (compute_partition sd4 0 2)
       [0;0;0;0; 0;1;0;0; 0;0;1;0; 0;0;0;0]
       [0;0;0;0; 0;0;0;0; 0;0;0;0; 0;0;0;0]);
    Running (mkWorker (compute_partition sd4 1 2)
       [0;0;0;0; 1;1;1;0; 0;0;0;0; 0;0;0;0]
       [0;0;0;0; 0;0;0;0; 0;0;0;0; 0;0;0;0]) ].


(** ** Diagnostics and data dump, lines 253-285 *)

Definition long_max : Z := 2 ^ 63 - 1.

(** Conversion to [long]: two's complement reduction to 64 bits. *)
Definition to_long (z : Z) : Z := (z + 2 ^ 63) mod 2 ^ 64 - 2 ^ 63.

(** [step % every == 0] on [usize]; the remainder by zero has no result. *)
Definition due (every step : Z) : option bool :=
  if every =? 0 then None else Some (usize_rem step every =? 0).

(** Lines 255-260: the sum of the owned cells of the current buffer. *)
Definition local_sum (sd : SimulationData) (w : Worker) : option Z :=
  let p := part w in
  for_range 1 (local_rows p + 1)
    (fun r =>
       for_range 0 (grid_size sd)
         (fun c (s : Z) =>
            let? x := md_read (view sd p) (grid_buf w) r c in
            Some (to_long (s + x))))
    0.

(** [MPI_Reduce] with [MPI_SUM] over [MPI_COMM_WORLD]: the sum of the
    contributions of all ranks; a rank that has left [main] or waits in
    the barrier never joins the collective, which then does not
    complete. *)
Fixpoint reduce_sum (sd : SimulationData) (world : list Proc) : option Z :=
  match world with
  | [] => Some 0
  | Exited _ _ :: _ => None
  | AtBarrier :: _ => None
  | Running w :: rest =>
      let? s := local_sum sd w in
      let? t := reduce_sum sd rest in
      Some (to_long (s + t))
  end.

(** Lines 254-266: what rank 0 prints in the pass [step] of the loop, as
    the pair of the step and the global sum; [Some None] when the pass is
    not sampled. *)
Definition stats_line (sd : SimulationData) (world : list Proc) (step : Z)
    : option (option (Z * Z)) :=
  let? sampled := due (stats_every sd) step in
  if sampled
  then let? total := reduce_sum sd world in Some (Some (step, total))
  else Some None.

(** Lines 277-282: the records (global row, column, state) a rank writes
    to its file, in the order written. *)
Definition dump_records (sd : SimulationData) (w : Worker)
    : option (list (Z * Z * Z)) :=
  let p := part w in
  for_range 1 (local_rows p + 1)
    (fun r =>
       for_range 0 (grid_size sd)
         (fun c (out : list (Z * Z * Z)) =>
            let global_r := usize_add (row_offset p) (usize_sub r 1) in
            let? x := md_read (view sd p) (grid_buf w) r c in
            Some (out ++ [(global_r, c, x)])))
    [].

(** The records of every rank, in rank order; a rank that is not in the
    loop writes none. *)
Fixpoint dump_all (sd : SimulationData) (world : list Proc)
    : option (list (list (Z * Z * Z))) :=
  match world with
  | [] => Some []
  | Exited _ _ :: rest => let? files := dump_all sd rest in Some ([] :: files)
  | AtBarrier :: rest => let? files := dump_all sd rest in Some ([] :: files)
  | Running w :: rest =>
      let? recs := dump_records sd w in
      let? files := dump_all sd rest in
      Some (recs :: files)
  end.

(** Lines 272-285 on every rank: the files written in the pass [step];
    [Some None] when the pass is not sampled.  Each file starts with the
    same header line and is named after the step and the rank. *)
Definition data_dump (sd : SimulationData) (world : list Proc) (step : Z)
    : option (option (list (list (Z * Z * Z)))) :=
  let? sampled := due (data_every sd) step in
  if sampled
  then let? files := dump_all sd world in Some (Some files)
  else Some None.

(** ** The generation loop, lines 180-297 *)

(** What one pass of the loop leaves outside the buffers: the line rank 0
    prints and the files the ranks write. *)
Record Observation : Type := mkObservation {
  at_step : Z;
  printed : option (Z * Z);
  dumped : option (list (list (Z * Z * Z)))
}.

(** One pass of the loop body on every rank, in program order: exchange,
    stencil update, diagnostics, data dump, swap.  The diagnostics and
    the dump read the current buffer after the exchange and before the
    swap. *)
Definition loop_pass (sd : SimulationData) (step : Z)
    (st : list Proc * list Observation) : option (list Proc * list Observation) :=
  let? exchanged := halo_exchange sd (fst st) in
  let? computed := each_proc (compute_next sd) exchanged in
  let? line := stats_line sd computed step in
  let? files := data_dump sd computed step in
  let? swapped := each_proc (fun w => Some (swap_buffers w)) computed in
  Some (swapped, snd st ++ [mkObservation step line files]).

(** The passes [first .. first + count - 1] of the loop. *)
Definition passes (sd : SimulationData) (first : Z) (count : nat)
    (st : list Proc * list Observation) : option (list Proc * list Observation) :=
  for_loop count first (loop_pass sd) st.

(** [main] on [size] ranks from line 110 to the end of the generation
    loop: the ranks and what they printed and wrote. *)
Definition simulate (bit : Z -> Z -> Z) (sd : SimulationData) (size : Z)
    : option (list Proc * list Observation) :=
  let? world := start_world bit sd size in
  passes sd 0 (Z.to_nat (generations sd)) (world, []).

(** The positions [(r, c)] of [count] rows of [n] columns from row
    [first] on, row by row. *)
Definition cells_of (n first count : Z) : list (Z * Z) :=
  flat_map (fun r => map (fun c => (r, c)) (seqZ 0 n)) (seqZ first count).

(** The records of the rows [first .. first + count - 1] of a grid [f]. *)
Definition grid_records (n : Z) (f : Z -> Z -> Z) (first count : Z)
    : list (Z * Z * Z) :=
  map (fun rc => (fst rc, snd rc, f (fst rc) (snd rc))) (cells_of n first count).

(** The sum of the states of a list of records. *)
Definition records_sum (l : list (Z * Z * Z)) : Z :=
  fold_right (fun rec s => snd rec + s) 0 l.

(** The files of all ranks for a grid [f]: rank [k] lists its own rows. *)
Definition rank_files (sd : SimulationData) (p : Z) (f : Z -> Z -> Z)
    : list (list (Z * Z * Z)) :=
  map (fun k : nat =>
         grid_records (grid_size sd) f
           (row_offset (compute_partition sd (Z.of_nat k) p))
           (local_rows (compute_partition sd (Z.of_nat k) p)))
      (seq 0 (Z.to_nat p)).

(** What the pass [step] shows of a grid [f]: the sum of all its cells
    when the step is a multiple of [stats_every], its cells rank by rank
    when the step is a multiple of [data_every]. *)
Definition observation_of (sd : SimulationData) (p : Z) (f : Z -> Z -> Z)
    (step : Z) : Observation :=
  let n := grid_size sd in
  mkObservation step
    (if step mod stats_every sd =? 0
     then Some (step, records_sum (grid_records n f 0 n)) else None)
    (if step mod data_every sd =? 0 then Some (rank_files sd p f) else None).

(** The observations of [count] passes from the step [first] on, the
    grid advancing by one generation of the rule per pass. *)
Definition observations (sd : SimulationData) (p : Z) (f : Z -> Z -> Z)
    (first : Z) (count : nat) : list Observation :=
  map (fun k : nat =>
         observation_of sd p (torus_iter (grid_size sd) k f) (first + Z.of_nat k))
      (seq 0 count).

(** ** File names of the data dump, line 273 *)

(** [n] leading zeros in front of a decimal number. *)
Fixpoint zeros (n : nat) (d : Decimal.uint) : Decimal.uint :=
  match n with
  | O => d
  | S k => Decimal.D0 (zeros k d)
  end.

(** The format [{:0w}] of a non-negative integer: its decimal digits,
    filled with zeros on the left up to [w] characters. *)
Definition zero_fill (w : nat) (z : Z) : String.string :=
  let d := N.to_uint (Z.to_N z) in
  DecimalString.NilEmpty.string_of_uint (zeros (w - Decimal.nb_digits d) d).

(** The format [{:08}]: for a negative integer the sign comes first and
    counts in the width. *)
Definition fmt_08 (z : Z) : String.string :=
  if z <? 0 then String.String "-" (zero_fill 7 (- z)) else zero_fill 8 z.

(** [fmt::format("gol_it_{:08}_rank_{:08}.dat", step, rank)]. *)
Definition file_name (step rank : Z) : String.string :=
  String.append "gol_it_"
    (String.append (fmt_08 step)
       (String.append "_rank_" (String.append (fmt_08 rank) ".dat"))).

Definition is_digit (a : Ascii.ascii) : bool :=
  match DecimalString.uint_of_char a (Some Decimal.Nil) with
  | Some _ => true
  | None => false
  end.

Fixpoint all_digits (s : String.string) : bool :=
  match s with
  | String.EmptyString => true
  | String.String a t => is_digit a && all_digits t
  end.

(** The longest prefix of digits of a string, and the rest. *)
Fixpoint split_digits (s : String.string) : String.string * String.string :=
  match s with
  | String.EmptyString => (String.EmptyString, String.EmptyString)
  | String.String a t =>
      if is_digit a
      then (String.String a (fst (split_digits t)), snd (split_digits t))
      else (String.EmptyString, s)
  end.

(** The number a string of digits denotes. *)
Definition digits_value (s : String.string) : option Z :=
  match DecimalString.NilEmpty.uint_of_string s with
  | Some d => Some (Z.of_N (N.of_uint d))
  | None => None
  end.

(** ** Integer lemmas *)

Lemma to_usize_id z : is_usize z -> to_usize z = z.
Proof.
  unfold is_usize, usize_max, to_usize. intros H.
  apply Z.mod_small. lia.
Qed.

Lemma to_int_id z : is_int z -> to_int z = z.
Proof.
  unfold is_int, int_min, int_max, to_int. intros H.
  rewrite Z.mod_small by lia. lia.
Qed.

Lemma div_mod_facts n p :
  0 <= n -> 0 < p ->
  n = p * (n / p) + n mod p /\ 0 <= n mod p < p /\ 0 <= n / p <= n.
Proof.
  intros Hn Hp.
  pose proof (Z.div_mod n p ltac:(lia)).
  pose proof (Z.mod_pos_bound n p Hp).
  assert (0 <= n / p) by (apply Z.div_pos; lia).
  repeat split; try lia. nia.
Qed.

(** The closed form of the partition on inputs of the source's types. *)
Lemma compute_partition_closed sd r p :
  is_usize (grid_size sd) -> 0 <= r < p -> p <= int_max ->
  local_rows (compute_partition sd r p)
    = grid_size sd / p + (if r <? grid_size sd mod p then 1 else 0)
  /\ row_offset (compute_partition sd r p)
    = r * (grid_size sd / p) + Z.min r (grid_size sd mod p).
Proof.
  intros Hn Hr Hp. unfold compute_partition. cbn [local_rows row_offset].
  set (n := grid_size sd) in *.
  assert (Hup : is_usize p) by (unfold is_usize, usize_max, int_max in *; lia).
  assert (Hur : is_usize r) by (unfold is_usize, usize_max, int_max in *; lia).
  rewrite (to_usize_id p Hup), (to_usize_id r Hur).
  unfold usize_div, usize_rem, usize_add, usize_mul.
  destruct (div_mod_facts n p) as (Hdm & Hm & Hd); [unfold is_usize in Hn; lia | lia |].
  unfold is_usize, usize_max in *.
  assert (Hbr : 0 <= n / p * r) by nia.
  assert (Hle : n / p * r + Z.min r (n mod p) <= n) by nia.
  split.
  - rewrite to_usize_id; [reflexivity|].
    unfold is_usize, usize_max. destruct (r <? n mod p) eqn:E; [|lia].
    apply Z.ltb_lt in E. nia.
  - rewrite (to_usize_id (n / p * r)) by (unfold is_usize, usize_max; nia).
    rewrite to_usize_id by (unfold is_usize, usize_max; lia). lia.
Qed.

(** ** The partitioner *)

(** C2. For a grid size [n] in [usize], a worker count [p] in [int] and a
    worker index [0 <= r < p], [compute_partition] returns
    [local_rows = n/p + (1 if r < n%p else 0)] and
    [row_offset = r*(n/p) + min(r, n%p)]; the result is a function of the
    grid size, the index and the count alone, so a second call on the same
    inputs returns the same partition. *)
Theorem compute_partition_contract (sd : SimulationData) (r p : Z) :
  is_usize (grid_size sd) -> 0 <= r < p -> p <= int_max ->
  let n := grid_size sd in
  let part := compute_partition sd r p in
  local_rows part = n / p + (if r <? n mod p then 1 else 0)
  /\ row_offset part = r * (n / p) + Z.min r (n mod p)
  /\ rank part = r /\ size part = p
  /\ compute_partition sd r p = part
  /\ (forall sd', grid_size sd' = n -> compute_partition sd' r p = part).
Proof.
  intros Hn Hr Hp n part.
  destruct (compute_partition_closed sd r p Hn Hr Hp) as [Hl Ho].
  repeat split; try assumption; try reflexivity.
  intros sd' Hsd'. subst part n. unfold compute_partition. now rewrite Hsd'.
Qed.

Lemma compute_partition_contract_witness :
  let sd := mkSimulationData 8 32 1 1 64 glider_id in
  local_rows (compute_partition sd 2 3) = 8 / 3 + (if 2 <? 8 mod 3 then 1 else 0)
  /\ row_offset (compute_partition sd 2 3) = 2 * (8 / 3) + Z.min 2 (8 mod 3).
Proof.
  intros sd.
  assert (H1 : is_usize (grid_size sd)) by (unfold is_usize, usize_max; simpl; lia).
  assert (H2 : 0 <= 2 < 3) by lia.
  assert (H3 : 3 <= int_max) by (unfold int_max; lia).
  pose proof (compute_partition_contract sd 2 3 H1 H2 H3) as H.
  cbv zeta in H. destruct H as (Ha & Hb & _). split; assumption.
Defined.

(** Where a range ends the next one starts. *)
Lemma partition_next_offset sd r p :
  is_usize (grid_size sd) -> 0 <= r -> r + 1 < p -> p <= int_max ->
  row_offset (compute_partition sd (r + 1) p)
  = row_offset (compute_partition sd r p) + local_rows (compute_partition sd r p).
Proof.
  intros Hn Hr Hrp Hp.
  destruct (compute_partition_closed sd r p) as [Hl Ho]; try lia; try assumption.
  destruct (compute_partition_closed sd (r + 1) p) as [_ Ho']; try lia; try assumption.
  rewrite Hl, Ho, Ho'.
  destruct (r <? grid_size sd mod p) eqn:E;
    [apply Z.ltb_lt in E | apply Z.ltb_ge in E]; lia.
Qed.

(** The end of the range of rank [r], in closed form. *)
Lemma partition_range_end sd r p :
  is_usize (grid_size sd) -> 0 <= r < p -> p <= int_max ->
  row_offset (compute_partition sd r p) + local_rows (compute_partition sd r p)
  = (r + 1) * (grid_size sd / p) + Z.min (r + 1) (grid_size sd mod p).
Proof.
  intros Hn Hr Hp.
  destruct (compute_partition_closed sd r p) as [Hl Ho]; try lia; try assumption.
  rewrite Hl, Ho.
  destruct (r <? grid_size sd mod p) eqn:E;
    [apply Z.ltb_lt in E | apply Z.ltb_ge in E]; lia.
Qed.

Lemma rows_sum_prefix sd p (k : nat) : forall first,
  is_usize (grid_size sd) -> 0 <= first -> first + Z.of_nat k <= p -> p <= int_max ->
  rows_sum sd p first k
  = (first + Z.of_nat k) * (grid_size sd / p)
    + Z.min (first + Z.of_nat k) (grid_size sd mod p)
    - (first * (grid_size sd / p) + Z.min first (grid_size sd mod p)).
Proof.
  induction k as [|k IH]; intros first Hn Hf Hk Hp.
  - cbn [rows_sum]. lia.
  - cbn [rows_sum]. rewrite IH by (assumption || lia).
    destruct (compute_partition_closed sd first p) as [Hl _]; try lia; try assumption.
    rewrite Hl.
    replace (first + 1 + Z.of_nat k) with (first + Z.of_nat (S k)) by lia.
    destruct (first <? grid_size sd mod p) eqn:E;
      [apply Z.ltb_lt in E | apply Z.ltb_ge in E]; lia.
Qed.

Lemma partition_ranges_ordered sd p r1 r2 :
  is_usize (grid_size sd) -> 0 <= r1 -> r1 < r2 -> r2 < p -> p <= int_max ->
  row_offset (compute_partition sd r1 p) + local_rows (compute_partition sd r1 p)
  <= row_offset (compute_partition sd r2 p).
Proof.
  intros Hn H1 H12 H2 Hp.
  rewrite partition_range_end by (assumption || lia).
  destruct (compute_partition_closed sd r2 p) as [_ Ho]; try lia; try assumption.
  rewrite Ho.
  destruct (div_mod_facts (grid_size sd) p) as (_ & Hm & Hd);
    [unfold is_usize in Hn; lia | lia |].
  assert ((r1 + 1) * (grid_size sd / p) <= r2 * (grid_size sd / p)) by nia.
  lia.
Qed.

(** C3. For a grid size [n] and [p >= 1] workers, the [local_rows] of the
    ranks [0..p-1] add up to [n]; the range of rank [r+1] starts where the
    range of rank [r] ends, the first range starts at row 0 and the last
    ends at row [n]; the ranges of two distinct ranks share no row. *)
Theorem partition_covers_grid (sd : SimulationData) (p : Z) :
  is_usize (grid_size sd) -> 1 <= p <= int_max ->
  rows_sum sd p 0 (Z.to_nat p) = grid_size sd
  /\ row_offset (compute_partition sd 0 p) = 0
  /\ (forall r, 0 <= r -> r + 1 < p ->
        row_offset (compute_partition sd (r + 1) p)
        = row_offset (compute_partition sd r p)
          + local_rows (compute_partition sd r p))
  /\ row_offset (compute_partition sd (p - 1) p)
     + local_rows (compute_partition sd (p - 1) p) = grid_size sd
  /\ (forall r1 r2 g, 0 <= r1 < p -> 0 <= r2 < p -> r1 <> r2 ->
        owns sd p r1 g -> ~ owns sd p r2 g).
Proof.
  intros Hn Hp.
  destruct (div_mod_facts (grid_size sd) p) as (Hdm & Hm & Hd);
    [unfold is_usize in Hn; lia | lia |].
  split; [|split; [|split; [|split]]].
  - rewrite rows_sum_prefix by (assumption || lia).
    rewrite Z2Nat.id by lia. lia.
  - destruct (compute_partition_closed sd 0 p Hn) as [_ Ho]; lia.
  - intros r Hr Hrp. apply partition_next_offset; assumption || lia.
  - rewrite partition_range_end by (assumption || lia).
    replace (p - 1 + 1) with p by lia. lia.
  - intros r1 r2 g H1 H2 Hne [Ha Hb] [Hc He].
    destruct (Z.lt_total r1 r2) as [Hlt | [Heq | Hgt]]; [ | lia | ].
    + pose proof (partition_ranges_ordered sd p r1 r2 Hn). lia.
    + pose proof (partition_ranges_ordered sd p r2 r1 Hn). lia.
Qed.

Lemma partition_covers_grid_witness :
  rows_sum (mkSimulationData 8 32 1 1 64 glider_id) 3 0 (Z.to_nat 3) = 8.
Proof.
  refine (proj1 (partition_covers_grid (mkSimulationData 8 32 1 1 64 glider_id) 3 _ _)).
  - unfold is_usize, usize_max; simpl; lia.
  - unfold int_max; lia.
Defined.

(** ** The ring of workers *)

Lemma down_closed i p : 0 <= i < p -> p <= int_max -> down i p = (i + 1) mod p.
Proof.
  intros Hi Hp. unfold down, int_add, int_rem.
  rewrite to_int_id by (unfold is_int, int_min, int_max in *; lia).
  apply Z.rem_mod_nonneg; lia.
Qed.

Lemma up_closed i p : 0 <= i < p -> p <= ring_max -> up i p = (i - 1 + p) mod p.
Proof.
  intros Hi Hp. unfold up, int_add, int_sub, int_rem, ring_max in *.
  rewrite (to_int_id (i - 1)) by (unfold is_int, int_min, int_max in *; lia).
  rewrite to_int_id by (unfold is_int, int_min, int_max in *; lia).
  apply Z.rem_mod_nonneg; lia.
Qed.

Lemma ring_max_int p : p <= ring_max -> p <= int_max.
Proof. unfold ring_max, int_max. lia. Qed.

Lemma succ_mod_cases i p :
  0 <= i < p ->
  (i + 1 < p /\ (i + 1) mod p = i + 1) \/ (i + 1 = p /\ (i + 1) mod p = 0).
Proof.
  intros Hi. destruct (Z.eq_dec (i + 1) p) as [E|E].
  - right. split; [assumption|]. rewrite E. apply Z_mod_same_full.
  - left. split; [lia|]. apply Z.mod_small. lia.
Qed.

Lemma pred_mod_cases i p :
  0 <= i < p ->
  (0 < i /\ (i - 1 + p) mod p = i - 1) \/ (i = 0 /\ (i - 1 + p) mod p = p - 1).
Proof.
  intros Hi. destruct (Z.eq_dec i 0) as [E|E].
  - right. split; [assumption|]. subst i.
    replace (0 - 1 + p) with (p - 1) by lia. apply Z.mod_small. lia.
  - left. split; [lia|].
    replace (i - 1 + p) with (i - 1 + 1 * p) by lia.
    rewrite Z_mod_plus_full. apply Z.mod_small. lia.
Qed.

Lemma down_range i p : 0 <= i < p -> p <= int_max -> 0 <= down i p < p.
Proof.
  intros Hi Hp. rewrite down_closed by assumption.
  apply Z.mod_pos_bound. lia.
Qed.

Lemma up_range i p : 0 <= i < p -> p <= ring_max -> 0 <= up i p < p.
Proof.
  intros Hi Hp. rewrite up_closed by assumption.
  apply Z.mod_pos_bound. lia.
Qed.

Lemma up_down i p : 0 <= i < p -> p <= ring_max -> up (down i p) p = i.
Proof.
  intros Hi Hp. pose proof (ring_max_int p Hp) as Hp'.
  pose proof (down_range i p Hi Hp') as Hd.
  rewrite up_closed by assumption.
  rewrite down_closed in * by assumption.
  destruct (succ_mod_cases i p Hi) as [[H1 H2]|[H1 H2]]; rewrite H2 in *.
  - destruct (pred_mod_cases (i + 1) p) as [[H3 H4]|[H3 H4]]; lia.
  - destruct (pred_mod_cases 0 p) as [[H3 H4]|[H3 H4]]; lia.
Qed.

Lemma down_up i p : 0 <= i < p -> p <= ring_max -> down (up i p) p = i.
Proof.
  intros Hi Hp. pose proof (ring_max_int p Hp) as Hp'.
  pose proof (up_range i p Hi Hp) as Hu.
  rewrite down_closed by assumption.
  rewrite up_closed in * by assumption.
  destruct (pred_mod_cases i p Hi) as [[H1 H2]|[H1 H2]]; rewrite H2 in *.
  - destruct (succ_mod_cases (i - 1) p) as [[H3 H4]|[H3 H4]]; lia.
  - destruct (succ_mod_cases (p - 1) p) as [[H3 H4]|[H3 H4]]; lia.
Qed.

Lemma follow_down_closed p (k : nat) : forall i,
  0 <= i < p -> p <= int_max ->
  follow_down p k i = (i + Z.of_nat k) mod p.
Proof.
  induction k as [|k IH]; intros i Hi Hp.
  - cbn [follow_down]. rewrite Z.mod_small; lia.
  - cbn [follow_down]. rewrite IH by (auto using down_range).
    rewrite down_closed by assumption.
    rewrite Zplus_mod_idemp_l. f_equal. lia.
Qed.

(** C6. For [p >= 1] workers and a worker index [0 <= i < p],
    [up = (i-1+p) mod p] and [down = (i+1) mod p]; [down] maps the ranks
    onto a permutation of [0..p-1] with inverse [up]; following [down]
    [p] times from [i] comes back to [i] and no shorter walk does (a
    single cycle); with [p = 1] the worker is its own neighbour on both
    sides.  [p] ranges over the counts for which the [int] expression
    [rank - 1 + size] is representable. *)
Theorem ring_neighbours (p i : Z) :
  1 <= p <= ring_max -> 0 <= i < p ->
  up i p = (i - 1 + p) mod p
  /\ down i p = (i + 1) mod p
  /\ Permutation (map (fun j => down j p) (seqZ 0 p)) (seqZ 0 p)
  /\ up (down i p) p = i /\ down (up i p) p = i
  /\ follow_down p (Z.to_nat p) i = i
  /\ (forall k : nat, 0 < Z.of_nat k < p -> follow_down p k i <> i)
  /\ (p = 1 -> up i p = i /\ down i p = i).
Proof.
  intros Hp Hi. pose proof (ring_max_int p (proj2 Hp)) as Hp'.
  split; [apply up_closed; lia|].
  split; [apply down_closed; lia|].
  split.
  { apply NoDup_Permutation.
    - apply NoDup_fmap_2_strong; [|apply NoDup_seqZ].
      intros x y Hx Hy Hxy.
      apply elem_of_seqZ in Hx, Hy.
      rewrite <- (up_down x p), <- (up_down y p) by lia. now rewrite Hxy.
    - apply NoDup_seqZ.
    - intros x. rewrite list_elem_of_fmap. split.
      + intros (y & -> & Hy). apply elem_of_seqZ in Hy. apply elem_of_seqZ.
        pose proof (down_range y p). lia.
      + intros Hx. apply elem_of_seqZ in Hx. exists (up x p). split.
        * symmetry. apply down_up; lia.
        * apply elem_of_seqZ. pose proof (up_range x p). lia. }
  split; [apply up_down; lia|].
  split; [apply down_up; lia|].
  split.
  { rewrite follow_down_closed by lia. rewrite Z2Nat.id by lia.
    replace (i + p) with (i + 1 * p) by lia.
    rewrite Z_mod_plus_full. apply Z.mod_small. lia. }
  split.
  { intros k Hk. rewrite follow_down_closed by lia.
    destruct (Z_lt_dec (i + Z.of_nat k) p) as [Hlt|Hge].
    - rewrite Z.mod_small; lia.
    - replace (i + Z.of_nat k) with (i + Z.of_nat k - p + 1 * p) by lia.
      rewrite Z_mod_plus_full. rewrite Z.mod_small; lia. }
  intros ->. assert (i = 0) by lia. subst i. split; reflexivity.
Qed.

Lemma ring_neighbours_witness : up 0 4 = 3 /\ down 0 4 = 1.
Proof.
  assert (H1 : 1 <= 4 <= ring_max) by (unfold ring_max; lia).
  assert (H2 : 0 <= 0 < 4) by lia.
  destruct (ring_neighbours 4 0 H1 H2) as (Hu & Hd & _).
  split; [exact Hu | exact Hd].
Defined.

(** ** Views over well-sized buffers *)

Lemma flat_insert (buf : list Z) (a i v : Z) :
  0 <= a < Z.of_nat (length buf) -> 0 <= i ->
  flat (<[Z.to_nat a := v]> buf) i = if i =? a then v else flat buf i.
Proof.
  intros Ha Hi. unfold flat.
  destruct (Z.eqb_spec i a) as [->|Hne].
  - rewrite list_lookup_insert_eq by lia. reflexivity.
  - rewrite list_lookup_insert_ne by lia. reflexivity.
Qed.

Lemma flat_lookup (buf : list Z) (i : Z) :
  0 <= i < Z.of_nat (length buf) -> buf !! Z.to_nat i = Some (flat buf i).
Proof.
  intros Hi. unfold flat.
  destruct (lookup_lt_is_Some_2 buf (Z.to_nat i) ltac:(lia)) as [x ->].
  reflexivity.
Qed.

Lemma flat_u8 (buf : list Z) (i : Z) : Forall is_u8 buf -> is_u8 (flat buf i).
Proof.
  intros Hall. unfold flat.
  destruct (buf !! Z.to_nat i) as [x|] eqn:E; simpl.
  - rewrite Forall_lookup in Hall. eauto.
  - unfold is_u8. lia.
Qed.

Lemma int_add_small a b : is_int (a + b) -> int_add a b = a + b.
Proof. apply to_int_id. Qed.

Section View.
Variable sd : SimulationData.
Variable p : Partition.
Hypothesis Hdims : dims_ok sd p.

Let n := grid_size sd.
Let L := local_rows p.

Lemma rows_with_halo_ok : rows_with_halo p = L + 2.
Proof.
  unfold rows_with_halo, usize_add. apply to_usize_id.
  unfold dims_ok, is_usize, usize_max, int_max in *. subst L. lia.
Qed.

Lemma in_extents_view r c :
  in_extents (view sd p) r c = true <-> 0 <= r < L + 2 /\ 0 <= c < n.
Proof.
  unfold in_extents, view. cbn [md_rows md_cols]. rewrite rows_with_halo_ok.
  rewrite !andb_true_iff, !Z.leb_le, !Z.ltb_lt. subst n. lia.
Qed.

Lemma md_index_view r c :
  0 <= r < L + 2 -> 0 <= c < n ->
  md_index (view sd p) r c = r * n + c /\ 0 <= r * n + c < (L + 2) * n.
Proof.
  intros Hr Hc. unfold md_index, view, usize_add, usize_mul. cbn [md_cols].
  fold n. unfold dims_ok, int_max in Hdims. fold n L in Hdims.
  assert (0 <= r * n) by nia.
  assert (r * n + c < (L + 2) * n) by nia.
  assert ((L + 2) * n <= (2 ^ 31 + 1) * 2 ^ 31) by nia.
  rewrite (to_usize_id (r * n)) by (unfold is_usize, usize_max; lia).
  rewrite to_usize_id by (unfold is_usize, usize_max; lia). lia.
Qed.

Lemma md_read_view buf r c :
  buffer_ok sd p buf -> 0 <= r < L + 2 -> 0 <= c < n ->
  md_read (view sd p) buf r c = Some (cell n buf r c).
Proof.
  intros Hb Hr Hc. unfold md_read.
  rewrite (proj2 (in_extents_view r c)) by lia.
  destruct (md_index_view r c Hr Hc) as [-> Hlt].
  unfold cell. apply flat_lookup.
  unfold buffer_ok in Hb. fold n L in Hb. lia.
Qed.

Lemma md_write_view buf r c v :
  buffer_ok sd p buf -> 0 <= r < L + 2 -> 0 <= c < n ->
  md_write (view sd p) buf r c v = Some (<[Z.to_nat (r * n + c) := v]> buf).
Proof.
  intros Hb Hr Hc. unfold md_write.
  rewrite (proj2 (in_extents_view r c)) by lia.
  destruct (md_index_view r c Hr Hc) as [-> Hlt].
  unfold buffer_ok in Hb. fold n L in Hb.
  rewrite (proj2 (Z.ltb_lt _ _)) by lia. reflexivity.
Qed.

Lemma left_of_wrap c :
  0 <= c < n ->
  to_usize (left_of sd c) = wrap_left n c /\ 0 <= wrap_left n c < n.
Proof.
  intros Hc. unfold left_of, wrap_left, usize_sub. fold n.
  unfold dims_ok, int_max in Hdims. fold n in Hdims.
  destruct (c =? 0) eqn:E.
  - rewrite (to_usize_id (n - 1)) by (unfold is_usize, usize_max; lia).
    rewrite to_int_id by (unfold is_int, int_min, int_max; lia).
    rewrite to_usize_id by (unfold is_usize, usize_max; lia). lia.
  - apply Z.eqb_neq in E.
    rewrite (to_usize_id (c - 1)) by (unfold is_usize, usize_max; lia).
    rewrite to_int_id by (unfold is_int, int_min, int_max; lia).
    rewrite to_usize_id by (unfold is_usize, usize_max; lia). lia.
Qed.

Lemma right_of_wrap c :
  0 <= c < n ->
  to_usize (right_of sd c) = wrap_right n c /\ 0 <= wrap_right n c < n.
Proof.
  intros Hc. unfold right_of, wrap_right, usize_add. fold n.
  unfold dims_ok, int_max in Hdims. fold n in Hdims.
  rewrite (to_usize_id (c + 1)) by (unfold is_usize, usize_max; lia).
  destruct (Z.eqb_spec (c + 1) n) as [E|E].
  - rewrite (proj2 (Z.eqb_eq c (n - 1))) by lia.
    split; [reflexivity | lia].
  - rewrite (proj2 (Z.eqb_neq c (n - 1))) by lia.
    rewrite to_int_id by (unfold is_int, int_min, int_max; lia).
    rewrite to_usize_id by (unfold is_usize, usize_max; lia). lia.
Qed.

(** The value the loop body computes for an owned cell. *)
Lemma stencil_cell_ok grid r c :
  buffer_ok sd p grid -> Forall is_u8 grid ->
  1 <= r <= L -> 0 <= c < n ->
  stencil_cell sd (view sd p) grid r c
  = Some (life_rule (cell n grid r c) (neighbour_sum n grid r c)).
Proof.
  intros Hb Hu8 Hr Hc. unfold stencil_cell.
  destruct (left_of_wrap c Hc) as [-> Hl].
  destruct (right_of_wrap c Hc) as [-> Hrt].
  unfold dims_ok, int_max in Hdims. fold n L in Hdims.
  unfold usize_sub, usize_add.
  rewrite (to_usize_id (r - 1)) by (unfold is_usize, usize_max; lia).
  rewrite (to_usize_id (r + 1)) by (unfold is_usize, usize_max; lia).
  rewrite !md_read_view by (assumption || lia).
  unfold neighbour_sum. f_equal. f_equal.
  pose proof (flat_u8 grid) as Hcell. unfold is_u8 in Hcell.
  unfold cell.
  repeat match goal with
  | |- context [flat grid ?i] =>
      let x := fresh "x" in
      let Hx := fresh "Hx" in
      pose proof (Hcell i Hu8) as Hx;
      set (x := flat grid i) in *
  end.
  repeat match goal with
  | |- context [int_add ?a ?b] =>
      rewrite (int_add_small a b) by (unfold is_int, int_min, int_max; lia)
  end.
  lia.
Qed.

End View.

(** ** Loops *)

Lemma for_loop_inv {St : Type} (I : Z -> St -> Prop) (body : Z -> St -> option St)
    (count : nat) : forall first s,
  I first s ->
  (forall i t, first <= i < first + Z.of_nat count -> I i t ->
     exists t', body i t = Some t' /\ I (i + 1) t') ->
  exists s', for_loop count first body s = Some s'
             /\ I (first + Z.of_nat count) s'.
Proof.
  induction count as [|k IH]; intros first s Hs Hstep.
  - exists s. split; [reflexivity|]. now replace (first + Z.of_nat 0) with first by lia.
  - cbn [for_loop].
    destruct (Hstep first s ltac:(lia) Hs) as (s1 & -> & Hs1).
    destruct (IH (first + 1) s1 Hs1) as (s2 & Hrun & Hs2).
    + intros i t Hi Ht. apply Hstep; [lia | assumption].
    + exists s2. split; [assumption|].
      now replace (first + Z.of_nat (S k)) with (first + 1 + Z.of_nat k) by lia.
Qed.

Lemma for_range_inv {St : Type} (I : Z -> St -> Prop) (body : Z -> St -> option St)
    (lo hi : Z) (s : St) :
  lo <= hi -> I lo s ->
  (forall i t, lo <= i < hi -> I i t ->
     exists t', body i t = Some t' /\ I (i + 1) t') ->
  exists s', for_range lo hi body s = Some s' /\ I hi s'.
Proof.
  intros Hle Hs Hstep. unfold for_range.
  destruct (for_loop_inv I body (Z.to_nat (hi - lo)) lo s Hs) as (s' & Hrun & Hs').
  - intros i t Hi. apply Hstep. lia.
  - exists s'. split; [assumption|].
    assert (E : lo + Z.of_nat (Z.to_nat (hi - lo)) = hi) by lia.
    now rewrite E in Hs'.
Qed.

Ltac bool_cases :=
  repeat match goal with
  | |- context [?a =? ?b] => destruct (Z.eqb_spec a b)
  | |- context [?a <=? ?b] => destruct (Z.leb_spec a b)
  | |- context [?a <? ?b] => destruct (Z.ltb_spec a b)
  end; cbn [andb orb negb]; try reflexivity; try lia.

Lemma stencil_at_cell sd grid r c :
  0 <= c < grid_size sd ->
  stencil_at sd grid (r * grid_size sd + c)
  = life_rule (cell (grid_size sd) grid r c)
      (neighbour_sum (grid_size sd) grid r c).
Proof.
  intros Hc. unfold stencil_at. set (n := grid_size sd) in *.
  replace ((r * n + c) / n) with r.
  - replace ((r * n + c) mod n) with c; [reflexivity|].
    rewrite Z.add_comm, Z_mod_plus_full. symmetry. apply Z.mod_small. lia.
  - rewrite Z.add_comm, Z_div_plus_full by lia.
    rewrite Z.div_small by lia. lia.
Qed.

(** Settle the integer tests of the goal by linear arithmetic. *)
Ltac settle_tests :=
  repeat match goal with
  | |- context [?a =? ?b] =>
      first [ rewrite (proj2 (Z.eqb_eq a b)) by lia
            | rewrite (proj2 (Z.eqb_neq a b)) by lia ]
  | |- context [?a <=? ?b] =>
      first [ rewrite (proj2 (Z.leb_le a b)) by lia
            | rewrite (proj2 (Z.leb_gt a b)) by lia ]
  | |- context [?a <? ?b] =>
      first [ rewrite (proj2 (Z.ltb_lt a b)) by lia
            | rewrite (proj2 (Z.ltb_ge a b)) by lia ]
  end.

Section Update.
Variable sd : SimulationData.
Variable p : Partition.
Hypothesis Hdims : dims_ok sd p.
Variables grid next0 : list Z.
Hypothesis Hgrid : buffer_ok sd p grid.
Hypothesis Hu8 : Forall is_u8 grid.
Hypothesis Hnext : buffer_ok sd p next0.

Let n := grid_size sd.
Let L := local_rows p.

(** One pass of the inner loop body. *)
Lemma update_cell_step r c s :
  1 <= r <= L -> 0 <= c < n ->
  updated_upto sd grid next0 (r * n + c) s ->
  exists s', update_cell sd (view sd p) grid r c s = Some s'
             /\ updated_upto sd grid next0 (r * n + (c + 1)) s'.
Proof.
  intros Hr Hc [Hlen Hs]. unfold update_cell.
  rewrite (stencil_cell_ok sd p Hdims grid r c Hgrid Hu8 Hr Hc).
  assert (Hsb : buffer_ok sd p s) by (unfold buffer_ok in *; now rewrite Hlen).
  rewrite (md_write_view sd p Hdims s r c _ Hsb) by (fold L n; lia).
  fold n. eexists. split; [reflexivity|].
  split; [now rewrite length_insert|].
  intros i Hi.
  destruct (md_index_view sd p Hdims r c) as [_ Hrc]; [fold L; lia | fold n; lia |].
  fold n L in Hrc.
  rewrite flat_insert by (unfold buffer_ok in Hsb; fold n L in Hsb; lia).
  rewrite Hs by assumption. fold n.
  pose proof (stencil_at_cell sd grid r c Hc) as Hst. fold n in Hst.
  rewrite <- Hst.
  assert (n <= r * n + c) by nia.
  destruct (Z.eqb_spec i (r * n + c)) as [->|Hne]; bool_cases.
Qed.

Lemma compute_row_step r s :
  1 <= r <= L ->
  updated_upto sd grid next0 (r * n) s ->
  exists s', for_range 0 n (update_cell sd (view sd p) grid r) s = Some s'
             /\ updated_upto sd grid next0 ((r + 1) * n) s'.
Proof.
  intros Hr Hs.
  destruct (for_range_inv
              (fun c t => updated_upto sd grid next0 (r * n + c) t)
              (update_cell sd (view sd p) grid r) 0 n s) as (s' & Hrun & Hs').
  - unfold dims_ok in Hdims. fold n in Hdims. lia.
  - now replace (r * n + 0) with (r * n) by lia.
  - intros c t Hc Ht. apply update_cell_step; assumption.
  - exists s'. split; [assumption|].
    now replace ((r + 1) * n) with (r * n + n) by lia.
Qed.

Lemma compute_rows :
  exists next',
    for_range 1 (L + 1)
      (fun r => for_range 0 n (update_cell sd (view sd p) grid r)) next0
    = Some next'
    /\ updated_upto sd grid next0 ((L + 1) * n) next'.
Proof.
  apply (for_range_inv (fun r t => updated_upto sd grid next0 (r * n) t)).
  - unfold dims_ok in Hdims. fold L in Hdims. lia.
  - split; [reflexivity|]. intros i Hi. bool_cases.
  - intros r t Hr Ht. apply compute_row_step; [lia | assumption].
Qed.

End Update.

(** The stencil update of a worker with well-sized buffers. *)
Lemma compute_next_spec sd w :
  dims_ok sd (part w) ->
  buffer_ok sd (part w) (grid_buf w) -> Forall is_u8 (grid_buf w) ->
  buffer_ok sd (part w) (next_buf w) ->
  exists next',
    compute_next sd w = Some (mkWorker (part w) (grid_buf w) next')
    /\ updated_upto sd (grid_buf w) (next_buf w)
         ((local_rows (part w) + 1) * grid_size sd) next'.
Proof.
  intros Hd Hg Hu Hn. unfold compute_next.
  destruct (compute_rows sd (part w) Hd (grid_buf w) (next_buf w) Hg Hu Hn)
    as (next' & -> & Hup).
  exists next'. split; [reflexivity | assumption].
Qed.

(** ** The stencil update *)

Lemma life_rule_cases cur nsum :
  (cur = 1 -> (life_rule cur nsum = 1 <-> nsum = 2 \/ nsum = 3))
  /\ (cur = 0 -> (life_rule cur nsum = 1 <-> nsum = 3))
  /\ (life_rule cur nsum = 1 <->
        (cur = 1 /\ (nsum = 2 \/ nsum = 3)) \/ (cur <> 1 /\ nsum = 3))
  /\ (life_rule cur nsum = 0 \/ life_rule cur nsum = 1).
Proof.
  unfold life_rule.
  destruct (Z.eqb_spec cur 1), (Z.eqb_spec nsum 2), (Z.eqb_spec nsum 3);
    cbn [orb]; repeat split; intros; lia.
Qed.

Lemma worker4_ok :
  dims_ok sd4 (part worker4)
  /\ buffer_ok sd4 (part worker4) (grid_buf worker4)
  /\ Forall is_u8 (grid_buf worker4)
  /\ buffer_ok sd4 (part worker4) (next_buf worker4).
Proof.
  split; [|split; [|split]].
  - unfold dims_ok, int_max. vm_compute. repeat split; discriminate.
  - reflexivity.
  - unfold worker4, grid_buf.
    repeat (apply Forall_cons; split; [unfold is_u8; lia|]). apply Forall_nil_2.
  - reflexivity.
Qed.

(** C1. On a worker with well-sized buffers the stencil update runs to the
    end and, for every owned cell (row [r] in [1..local_rows], column [c]
    in [0..n-1]), leaves in the next buffer the value that the rule gives
    for the cell's state and the sum of its eight neighbours in the
    current halo-padded buffer, the columns wrapping around ([n-1] left of
    column 0, column 0 right of [n-1]): a cell in state 1 stays 1 iff the
    sum is 2 or 3, a cell in state 0 becomes 1 iff the sum is 3, and the
    value is 0 in every other case (a state other than 1 counts as dead). *)
Theorem stencil_update_rule (sd : SimulationData) (w : Worker) :
  dims_ok sd (part w) ->
  buffer_ok sd (part w) (grid_buf w) -> Forall is_u8 (grid_buf w) ->
  buffer_ok sd (part w) (next_buf w) ->
  exists w',
    compute_next sd w = Some w'
    /\ forall r c,
         1 <= r <= local_rows (part w) -> 0 <= c < grid_size sd ->
         let n := grid_size sd in
         let left := if c =? 0 then n - 1 else c - 1 in
         let right := if c =? n - 1 then 0 else c + 1 in
         let cur := cell n (grid_buf w) r c in
         let nsum :=
           cell n (grid_buf w) (r - 1) left + cell n (grid_buf w) (r - 1) c
           + cell n (grid_buf w) (r - 1) right
           + cell n (grid_buf w) r left + cell n (grid_buf w) r right
           + cell n (grid_buf w) (r + 1) left + cell n (grid_buf w) (r + 1) c
           + cell n (grid_buf w) (r + 1) right in
         let nxt := cell n (next_buf w') r c in
         (cur = 1 -> (nxt = 1 <-> nsum = 2 \/ nsum = 3))
         /\ (cur = 0 -> (nxt = 1 <-> nsum = 3))
         /\ (nxt = 1 <->
               (cur = 1 /\ (nsum = 2 \/ nsum = 3)) \/ (cur <> 1 /\ nsum = 3))
         /\ (nxt = 0 \/ nxt = 1).
Proof.
  intros Hd Hg Hu Hn.
  destruct (compute_next_spec sd w Hd Hg Hu Hn) as (next' & Hrun & Hlen & Hup).
  eexists. split; [exact Hrun|].
  intros r c Hr Hc n left right cur nsum nxt.
  assert (Hnxt : nxt = life_rule cur nsum).
  { subst nxt. cbn [next_buf]. unfold cell at 1.
    destruct (md_index_view sd (part w) Hd r c) as [_ Hrc]; [lia | lia |].
    rewrite Hup by lia. fold n in Hrc |- *.
    assert (n <= r * n + c) by nia.
    assert (r * n + c < (local_rows (part w) + 1) * n) by nia.
    rewrite (proj2 (Z.leb_le _ _)), (proj2 (Z.ltb_lt _ _)) by lia.
    cbn [andb]. apply stencil_at_cell. exact Hc. }
  rewrite Hnxt. apply life_rule_cases.
Qed.

Lemma stencil_update_rule_witness :
  exists w', compute_next sd4 worker4 = Some w'
             /\ (cell 4 (next_buf w') 2 0 = 1 <->
                   (cell 4 (grid_buf worker4) 2 0 = 1 /\ (3 = 2 \/ 3 = 3))
                   \/ (cell 4 (grid_buf worker4) 2 0 <> 1 /\ 3 = 3)).
Proof.
  destruct worker4_ok as (H1 & H2 & H3 & H4).
  destruct (stencil_update_rule sd4 worker4 H1 H2 H3 H4) as (w' & Hrun & Hcells).
  exists w'. split; [exact Hrun|].
  exact (proj1 (proj2 (proj2 (Hcells 2 0 ltac:(vm_compute; split; discriminate)
                                         ltac:(vm_compute; split; [discriminate|reflexivity]))))).
Defined.

(** C9. The stencil update of one generation leaves the current buffer as
    it was and changes the next buffer only inside the owned region: its
    length, its two halo rows (row 0 and row [local_rows+1]) and every
    offset outside rows [1..local_rows] keep their content. *)
Theorem stencil_update_frame (sd : SimulationData) (w : Worker) :
  dims_ok sd (part w) ->
  buffer_ok sd (part w) (grid_buf w) -> Forall is_u8 (grid_buf w) ->
  buffer_ok sd (part w) (next_buf w) ->
  exists w',
    compute_next sd w = Some w'
    /\ grid_buf w' = grid_buf w
    /\ part w' = part w
    /\ length (next_buf w') = length (next_buf w)
    /\ (forall c, 0 <= c < grid_size sd ->
          cell (grid_size sd) (next_buf w') 0 c
          = cell (grid_size sd) (next_buf w) 0 c
          /\ cell (grid_size sd) (next_buf w') (local_rows (part w) + 1) c
             = cell (grid_size sd) (next_buf w) (local_rows (part w) + 1) c)
    /\ (forall i, 0 <= i ->
          ~ (grid_size sd <= i < (local_rows (part w) + 1) * grid_size sd) ->
          flat (next_buf w') i = flat (next_buf w) i).
Proof.
  intros Hd Hg Hu Hn.
  destruct (compute_next_spec sd w Hd Hg Hu Hn) as (next' & Hrun & Hlen & Hup).
  eexists. split; [exact Hrun|]. cbn [grid_buf part next_buf].
  assert (Hout : forall i, 0 <= i ->
            ~ (grid_size sd <= i < (local_rows (part w) + 1) * grid_size sd) ->
            flat next' i = flat (next_buf w) i).
  { intros i Hi Hno. rewrite Hup by assumption. bool_cases. }
  repeat split; try assumption; try reflexivity.
  - unfold cell. apply Hout; lia.
  - unfold cell. unfold dims_ok in Hd. apply Hout; nia.
Qed.

Lemma stencil_update_frame_witness :
  exists w', compute_next sd4 worker4 = Some w'
             /\ grid_buf w' = grid_buf worker4.
Proof.
  destruct worker4_ok as (H1 & H2 & H3 & H4).
  destruct (stencil_update_frame sd4 worker4 H1 H2 H3 H4) as (w' & Hrun & Hg & _).
  exists w'. split; [exact Hrun | exact Hg].
Defined.

(** ** Initial data *)

Lemma cell_insert n buf r c r' c' v :
  0 <= c < n -> 0 <= c' < n -> 0 <= r -> 0 <= r' ->
  r' * n + c' < Z.of_nat (length buf) ->
  cell n (<[Z.to_nat (r' * n + c') := v]> buf) r c
  = if (r =? r') && (c =? c') then v else cell n buf r c.
Proof.
  intros Hc Hc' Hr Hr' Hlen. unfold cell.
  rewrite flat_insert by nia.
  destruct (Z.eqb_spec (r * n + c) (r' * n + c')) as [E|E].
  - assert (r = r') by nia. subst r'. assert (c = c') by lia. subst c'.
    now rewrite !Z.eqb_refl.
  - destruct (Z.eqb_spec r r') as [->|Hr1]; [|reflexivity].
    destruct (Z.eqb_spec c c') as [->|Hc1]; [lia|reflexivity].
Qed.

Lemma flat_replicate k i : flat (replicate k 0) i = 0.
Proof.
  unfold flat.
  destruct (replicate k 0 !! Z.to_nat i) as [x|] eqn:E; [|reflexivity].
  apply lookup_replicate in E. simpl. tauto.
Qed.

Lemma allocate_ok sd p :
  dims_ok sd p ->
  buffer_ok sd p (grid_buf (allocate sd p))
  /\ buffer_ok sd p (next_buf (allocate sd p)).
Proof.
  intros Hd. unfold buffer_ok, allocate. cbn [grid_buf next_buf].
  rewrite length_replicate, (rows_with_halo_ok sd p Hd).
  unfold usize_mul. unfold dims_ok, int_max in Hd.
  rewrite to_usize_id by (unfold is_usize, usize_max; nia).
  split; nia.
Qed.

Lemma md_write_all_extents m ws : forall buf buf',
  md_write_all m buf ws = Some buf' ->
  forallb (fun w => in_extents m (fst (fst w)) (snd (fst w))) ws = true.
Proof.
  induction ws as [|[[r c] v] ws IH]; intros buf buf' H; [reflexivity|].
  cbn [md_write_all] in H. cbn [forallb fst snd].
  destruct (md_write m buf r c v) as [b1|] eqn:E; [|discriminate].
  unfold md_write in E.
  destruct (in_extents m r c); [|discriminate].
  cbn [andb]. eapply IH. exact H.
Qed.

Lemma glider_in_extents_iff sd p :
  dims_ok sd p ->
  glider_in_extents sd p = true <-> 2 <= local_rows p /\ 3 <= grid_size sd.
Proof.
  intros Hd. unfold glider_in_extents, glider_writes. cbn [forallb fst snd].
  rewrite !andb_true_iff, !(in_extents_view sd p Hd).
  unfold dims_ok in Hd. lia.
Qed.

Ltac glider_write_step Hd :=
  match goal with
  | |- context [md_write (view ?sd ?p) ?buf ?r ?c ?v] =>
      rewrite (md_write_view sd p Hd buf r c v);
      [ | unfold buffer_ok; rewrite ?length_insert;
          apply (proj1 (allocate_ok sd p Hd)) | lia | lia ]
  end.

(** The glider initialisation of a freshly allocated worker whose view
    holds rows 1..3 and columns 0..2. *)
Lemma init_glider_ok sd p :
  dims_ok sd p -> 2 <= local_rows p -> 3 <= grid_size sd ->
  exists g,
    init_glider sd (allocate sd p)
    = Some (mkWorker p g (next_buf (allocate sd p)))
    /\ buffer_ok sd p g /\ Forall is_u8 g
    /\ forall r c, 0 <= r < local_rows p + 2 -> 0 <= c < grid_size sd ->
         cell (grid_size sd) g r c = glider_mask r c.
Proof.
  intros Hd HL Hn. unfold init_glider.
  change (part (allocate sd p)) with p.
  unfold glider_writes. cbn [md_write_all].
  do 9 glider_write_step Hd.
  eexists. split; [reflexivity|]. split; [|split].
  - unfold buffer_ok. rewrite !length_insert. apply (proj1 (allocate_ok sd p Hd)).
  - repeat (apply Forall_insert; [|unfold is_u8; lia]).
    apply Forall_replicate. unfold is_u8. lia.
  - intros r c Hr Hc.
    pose proof (proj1 (allocate_ok sd p Hd)) as Hlen. unfold buffer_ok in Hlen.
    assert (H3n : 3 * grid_size sd + grid_size sd <= (local_rows p + 2) * grid_size sd)
      by nia.
    repeat (rewrite cell_insert;
            [ | lia | lia | lia | lia | rewrite ?length_insert; lia ]).
    unfold cell, allocate. cbn [grid_buf]. rewrite flat_replicate.
    unfold glider_mask. bool_cases.
Qed.

(** Every owned row count is at most the grid size. *)
Lemma local_rows_bounds sd r p :
  is_usize (grid_size sd) -> 0 <= r < p -> p <= int_max ->
  0 <= local_rows (compute_partition sd r p) <= grid_size sd.
Proof.
  intros Hn Hr Hp.
  destruct (compute_partition_closed sd r p Hn Hr Hp) as [-> _].
  destruct (div_mod_facts (grid_size sd) p) as (Hdm & Hm & Hd);
    [unfold is_usize in Hn; lia | lia |].
  destruct (Z.ltb_spec r (grid_size sd mod p)); nia.
Qed.

(** Without two owned rows and three columns the glider initialisation
    leaves the view and has no result. *)
Lemma init_glider_none sd p :
  dims_ok sd p -> local_rows p < 2 \/ grid_size sd < 3 ->
  init_glider sd (allocate sd p) = None.
Proof.
  intros Hd Hsmall. unfold init_glider.
  destruct (md_write_all _ _ _) as [g|] eqn:E; [|reflexivity].
  apply md_write_all_extents in E.
  change (glider_in_extents sd (part (allocate sd p)) = true) in E.
  apply (glider_in_extents_iff sd p Hd) in E. lia.
Qed.

(** C10 (amended). The glider initialisation accesses exactly rows 1..3
    and columns 0..2 of the [(local_rows+2) x grid_size] view; all of
    these accesses are inside the view, and the initialisation of the
    allocated buffer goes through, iff [local_rows >= 2] and
    [grid_size >= 3]; with [local_rows = 1] every access to row 3 is
    outside the view and its offset is past the end of the buffer. *)
Theorem glider_init_bounds (sd : SimulationData) (p : Partition) :
  dims_ok sd p ->
  map fst glider_writes
  = [(1, 0); (1, 1); (1, 2); (2, 0); (2, 1); (2, 2); (3, 0); (3, 1); (3, 2)]
  /\ (glider_in_extents sd p = true <-> 2 <= local_rows p /\ 3 <= grid_size sd)
  /\ (is_Some (init_glider sd (allocate sd p))
      <-> 2 <= local_rows p /\ 3 <= grid_size sd)
  /\ (local_rows p = 1 ->
      forall c, 0 <= c < grid_size sd ->
        in_extents (view sd p) 3 c = false
        /\ Z.of_nat (length (grid_buf (allocate sd p))) <= md_index (view sd p) 3 c).
Proof.
  intros Hd. split; [reflexivity|].
  split; [apply glider_in_extents_iff; assumption|].
  split.
  - split.
    + intros [w Hw]. apply (glider_in_extents_iff sd p Hd).
      unfold init_glider in Hw.
      destruct (md_write_all _ _ _) as [g|] eqn:E; [|discriminate].
      exact (md_write_all_extents _ _ _ _ E).
    + intros [HL Hn].
      destruct (init_glider_ok sd p Hd HL Hn) as (g & -> & _). eexists; reflexivity.
  - intros HL c Hc.
    pose proof (proj1 (allocate_ok sd p Hd)) as Hlen. unfold buffer_ok in Hlen.
    split.
    + destruct (in_extents (view sd p) 3 c) eqn:E; [|reflexivity].
      apply (in_extents_view sd p Hd) in E. lia.
    + rewrite Hlen, HL. unfold md_index, view, usize_add, usize_mul. cbn [md_cols].
      unfold dims_ok, int_max in Hd.
      rewrite (to_usize_id (3 * grid_size sd)) by (unfold is_usize, usize_max; lia).
      rewrite to_usize_id by (unfold is_usize, usize_max; lia). lia.
Qed.

Lemma glider_init_bounds_witness :
  glider_in_extents sd4 (part worker4) = true
  <-> 2 <= local_rows (part worker4) /\ 3 <= grid_size sd4.
Proof.
  exact (proj1 (proj2 (glider_init_bounds sd4 (part worker4) (proj1 worker4_ok)))).
Defined.

(** C10 as stated fails on a 2x2 grid held by one rank: the worker owns
    two rows, yet column 2 is outside the view, the offset of (3, 2) is
    past the end of the buffer and the initialisation has no result. *)
Lemma glider_init_bounds_counterexample :
  let sd := mkSimulationData 2 1 1 1 64 glider_id in
  let p := compute_partition sd 0 1 in
  ~ (glider_in_extents sd p = true <-> 2 <= local_rows p)
  /\ in_extents (view sd p) 1 2 = false
  /\ md_index (view sd p) 3 2 = Z.of_nat (length (grid_buf (allocate sd p)))
  /\ init_glider sd (allocate sd p) = None.
Proof.
  intros sd p. split; [|split; [|split]]; try reflexivity.
  intros [_ H]. assert (Hf : glider_in_extents sd p = false) by reflexivity.
  rewrite Hf in H. assert (Hl : 2 <= local_rows p) by (vm_compute; discriminate).
  specialize (H Hl). discriminate.
Qed.

(** C5 (amended). The glider pattern is written by every rank, not only
    by the one whose [row_offset] is 0.  A rank that owns at least two
    rows of a grid of at least three columns starts with the 3x3 mask at
    rows 1..3, columns 0..2 of its own buffer, whatever its rank and
    [row_offset] (with two owned rows, row 3 is its bottom halo row), and
    with all other cells of its two buffers zero.  A rank that owns a
    single row, or any rank that owns rows of a grid of fewer than three
    columns, writes outside its buffer and its initialisation has no
    result. *)
Theorem glider_on_every_worker (bit : Z -> Z -> Z) (sd : SimulationData) (r p : Z) :
  id_type sd = glider_id ->
  1 <= grid_size sd <= int_max -> 0 <= r < p -> p <= int_max ->
  1 <= local_rows (compute_partition sd r p) ->
  (2 <= local_rows (compute_partition sd r p) /\ 3 <= grid_size sd ->
   exists w,
     start bit sd r p = Some (Running w)
     /\ part w = compute_partition sd r p
     /\ (forall i c,
           0 <= i < local_rows (part w) + 2 -> 0 <= c < grid_size sd ->
           cell (grid_size sd) (grid_buf w) i c = glider_mask i c)
     /\ (forall i, flat (next_buf w) i = 0))
  /\ (local_rows (compute_partition sd r p) < 2 \/ grid_size sd < 3 ->
      start bit sd r p = None).
Proof.
  intros Hid Hn Hr Hp HL1.
  assert (Hus : is_usize (grid_size sd))
    by (unfold is_usize, usize_max, int_max in *; lia).
  pose proof (local_rows_bounds sd r p Hus Hr Hp) as HLb.
  assert (Hd : dims_ok sd (compute_partition sd r p)) by (unfold dims_ok; lia).
  split.
  - intros [HL Hn3].
    destruct (init_glider_ok sd _ Hd HL Hn3) as (g & Hinit & Hg & _ & Hcells).
    unfold start, initialize. rewrite Hid.
    rewrite (proj2 (Z.eqb_neq _ 0)) by lia.
    rewrite Hinit. eexists. split; [reflexivity|]. cbn [part grid_buf next_buf].
    split; [reflexivity|]. split; [exact Hcells|].
    intros i. unfold allocate. cbn [next_buf]. apply flat_replicate.
  - intros Hsmall. unfold start, initialize. rewrite Hid.
    rewrite (proj2 (Z.eqb_neq _ 0)) by lia.
    now rewrite (init_glider_none sd _ Hd Hsmall).
Qed.

Lemma glider_on_every_worker_witness :
  exists w,
    start (fun _ _ => 0) (mkSimulationData 8 4 1 1 64 glider_id) 1 2 = Some (Running w)
    /\ part w = compute_partition (mkSimulationData 8 4 1 1 64 glider_id) 1 2.
Proof.
  destruct (glider_on_every_worker (fun _ _ => 0)
              (mkSimulationData 8 4 1 1 64 glider_id) 1 2 eq_refl)
    as [Hfit _].
  - unfold int_max. simpl. lia.
  - lia.
  - unfold int_max. lia.
  - vm_compute. discriminate.
  - destruct Hfit as (w & Hs & Hp & _).
    + split; [vm_compute; discriminate | simpl; lia].
    + exists w. split; [exact Hs | exact Hp].
Defined.

(** C5 as stated fails with two ranks on an 8x8 grid: rank 1 starts at
    global row 4, and its first owned row holds a live cell of the mask. *)
Lemma glider_on_every_worker_counterexample :
  exists w,
    start (fun _ _ => 0) (mkSimulationData 8 4 1 1 64 glider_id) 1 2 = Some (Running w)
    /\ row_offset (part w) = 4
    /\ cell 8 (grid_buf w) 1 1 = 1.
Proof.
  eexists. split; [vm_compute; reflexivity|]. split; reflexivity.
Qed.

(** ** The halo exchange *)

Lemma flat_take_drop (l : list Z) (o k j : Z) :
  0 <= o -> 0 <= j < k ->
  flat (take (Z.to_nat k) (drop (Z.to_nat o) l)) j = flat l (o + j).
Proof.
  intros Ho Hj. unfold flat.
  rewrite lookup_take_lt by lia. rewrite lookup_drop.
  now replace (Z.to_nat o + Z.to_nat j)%nat with (Z.to_nat (o + j)) by lia.
Qed.

Lemma length_take_drop (l : list Z) (o k : Z) :
  0 <= o -> 0 <= k -> o + k <= Z.of_nat (length l) ->
  Z.of_nat (length (take (Z.to_nat k) (drop (Z.to_nat o) l))) = k.
Proof.
  intros Ho Hk Hlen. rewrite length_take, length_drop. lia.
Qed.

Lemma flat_inserts (buf data : list Z) (off i : Z) :
  0 <= off -> off + Z.of_nat (length data) <= Z.of_nat (length buf) -> 0 <= i ->
  flat (list_inserts (Z.to_nat off) data buf) i
  = if (off <=? i) && (i <? off + Z.of_nat (length data))
    then flat data (i - off) else flat buf i.
Proof.
  intros Hoff Hlen Hi. unfold flat.
  destruct (Z.leb_spec off i) as [H1|H1]; cbn [andb].
  - destruct (Z.ltb_spec i (off + Z.of_nat (length data))) as [H2|H2].
    + rewrite list_lookup_inserts by lia.
      now replace (Z.to_nat i - Z.to_nat off)%nat with (Z.to_nat (i - off)) by lia.
    + rewrite list_lookup_inserts_ge by lia. reflexivity.
  - rewrite list_lookup_inserts_lt by lia. reflexivity.
Qed.

Lemma Forall_u8_flat (l : list Z) :
  (forall i, 0 <= i < Z.of_nat (length l) -> is_u8 (flat l i)) -> Forall is_u8 l.
Proof.
  intros H. apply Forall_lookup. intros k x Hk.
  assert (Hlt : (k < length l)%nat) by (eapply lookup_lt_Some; eassumption).
  specialize (H (Z.of_nat k) ltac:(lia)).
  unfold flat in H. rewrite Nat2Z.id, Hk in H. exact H.
Qed.

(** Completion of a receive whose source is running and has posted the
    matching send. *)
Lemma complete_recv sd world me buf off count source tag ws soff scount d t :
  0 <= source -> world !! Z.to_nat source = Some (Running ws) ->
  find (matching_send me tag) (halo_requests sd (part ws))
  = Some (MPI_Isend soff scount d t) ->
  0 <= soff -> 0 <= scount -> soff + scount <= Z.of_nat (length (grid_buf ws)) ->
  scount <= count -> 0 <= off -> off + scount <= Z.of_nat (length buf) ->
  complete sd world me buf (MPI_Irecv off count source tag)
  = Some (list_inserts (Z.to_nat off)
            (take (Z.to_nat scount) (drop (Z.to_nat soff) (grid_buf ws))) buf).
Proof.
  intros Hs Hw Hf H1 H2 H3 H4 H5 H6. unfold complete.
  rewrite (proj2 (Z.ltb_ge source 0)) by lia. rewrite Hw, Hf.
  rewrite (length_take_drop _ _ _ H1 H2 H3).
  rewrite (proj2 (Z.leb_le scount count)), (proj2 (Z.leb_le 0 off)),
    (proj2 (Z.leb_le (off + scount) _)) by lia.
  reflexivity.
Qed.

Section Single.
Variable sd : SimulationData.
Variable w : Worker.
Hypothesis Hok : single_ok sd w.

Let n := grid_size sd.

Lemma single_dims : dims_ok sd (part w).
Proof. unfold single_ok, dims_ok in *. lia. Qed.

Lemma single_requests :
  halo_requests sd (part w)
  = [ MPI_Irecv 0 n 0 0; MPI_Irecv ((n + 1) * n) n 0 1;
      MPI_Isend (n * n) n 0 0; MPI_Isend n n 0 1 ].
Proof.
  destruct Hok as (Hr & Hs & HL & Hn & _). unfold halo_requests.
  rewrite Hr, Hs, HL. fold n in Hn |- *. unfold int_max in Hn.
  change (up 0 1) with 0. change (down 0 1) with 0.
  unfold row_ptr, usize_add, usize_mul. fold n.
  rewrite (to_int_id n) by (unfold is_int, int_min, int_max; lia).
  rewrite (to_usize_id (n + 1)) by (unfold is_usize, usize_max; lia).
  rewrite (to_usize_id ((n + 1) * n)) by (unfold is_usize, usize_max; nia).
  rewrite (to_usize_id (n * n)) by (unfold is_usize, usize_max; nia).
  rewrite (to_usize_id (1 * n)) by (unfold is_usize, usize_max; lia).
  replace (1 * n) with n by lia. reflexivity.
Qed.

(** The buffer of the single worker after the exchange with itself. *)
Lemma waitall_single :
  exists g,
    waitall sd [Running w] w = Some (mkWorker (part w) g (next_buf w))
    /\ length g = length (grid_buf w)
    /\ forall i, 0 <= i ->
         flat g i =
           if i <? n then flat (grid_buf w) (n * n + i)
           else if ((n + 1) * n <=? i) && (i <? (n + 2) * n)
                then flat (grid_buf w) (i - n * n)
                else flat (grid_buf w) i.
Proof.
  pose proof single_requests as Hreq.
  destruct Hok as (Hr & Hs & HL & Hn & Hg & Hu & _).
  unfold buffer_ok in Hg. rewrite HL in Hg. fold n in Hn, Hg.
  unfold waitall. rewrite Hr, Hreq. cbn [complete_all].
  assert (Hnn : 0 <= n * n) by nia.
  rewrite (complete_recv sd [Running w] 0 (grid_buf w) 0 n 0 0 w (n * n) n 0 0);
    [ | lia | reflexivity | rewrite Hreq; reflexivity | lia | lia | nia | lia
      | lia | nia ].
  set (g1 := list_inserts (Z.to_nat 0) _ (grid_buf w)).
  assert (Hlen1 : length g1 = length (grid_buf w)) by apply length_inserts.
  rewrite (complete_recv sd [Running w] 0 g1 ((n + 1) * n) n 0 1 w n n 0 1);
    [ | lia | reflexivity | rewrite Hreq; reflexivity | lia | lia | nia | lia
      | nia | rewrite Hlen1; nia ].
  cbn [complete].
  eexists. split; [reflexivity|]. split.
  - rewrite length_inserts. exact Hlen1.
  - intros i Hi.
    rewrite flat_inserts;
      [ | nia | rewrite Hlen1, length_take_drop; nia | exact Hi ].
    rewrite length_take_drop by nia.
    replace ((n + 1) * n + n) with ((n + 2) * n) by lia.
    subst g1. rewrite flat_inserts; [ | lia | rewrite length_take_drop; nia | exact Hi ].
    rewrite length_take_drop by nia.
    assert (n < (n + 1) * n) by nia.
    destruct (Z.ltb_spec i n) as [H1|H1].
    + rewrite (proj2 (Z.leb_gt ((n + 1) * n) i)) by lia. cbn [andb].
      rewrite (proj2 (Z.leb_le 0 i)), (proj2 (Z.ltb_lt i (0 + n))) by lia.
      cbn [andb]. rewrite flat_take_drop by lia. f_equal; lia.
    + destruct (Z.leb_spec ((n + 1) * n) i) as [H2|H2];
        destruct (Z.ltb_spec i ((n + 2) * n)) as [H3|H3]; cbn [andb].
      * rewrite flat_take_drop by lia. f_equal; lia.
      * rewrite (proj2 (Z.ltb_ge i (0 + n))) by lia.
        now rewrite andb_false_r.
      * rewrite (proj2 (Z.ltb_ge i (0 + n))) by lia.
        now rewrite andb_false_r.
      * rewrite (proj2 (Z.ltb_ge i (0 + n))) by lia.
        now rewrite andb_false_r.
Qed.

End Single.

(** ** One generation on a single rank *)

Lemma life_rule_bit cur nsum : life_rule cur nsum = 0 \/ life_rule cur nsum = 1.
Proof.
  unfold life_rule.
  destruct (cur =? 1), ((nsum =? 2) || (nsum =? 3)), (nsum =? 3); auto.
Qed.

Section SingleGeneration.
Variable sd : SimulationData.
Variable w : Worker.
Hypothesis Hok : single_ok sd w.

Let n := grid_size sd.

(** Rows of the exchanged buffer around an owned row, read in the
    buffer before the exchange: the halo rows hold the opposite owned
    rows. *)
Lemma exchanged_rows g r x :
  (forall i, 0 <= i ->
     flat g i =
       if i <? n then flat (grid_buf w) (n * n + i)
       else if ((n + 1) * n <=? i) && (i <? (n + 2) * n)
            then flat (grid_buf w) (i - n * n)
            else flat (grid_buf w) i) ->
  0 <= r < n -> 0 <= x < n ->
  cell n g (r + 1 - 1) x = owned n w (wrap_left n r) x
  /\ cell n g (r + 1) x = owned n w r x
  /\ cell n g (r + 1 + 1) x = owned n w (wrap_right n r) x.
Proof.
  intros Hg Hr Hx. unfold owned, cell, wrap_left, wrap_right.
  assert (H0 : 0 <= r * n) by nia.
  assert (H1 : (r + 1) * n <= n * n) by nia.
  split; [|split].
  - rewrite Hg by nia.
    destruct (Z.eqb_spec r 0) as [->|Hne].
    + rewrite (proj2 (Z.ltb_lt _ _)) by lia. f_equal; lia.
    + assert (n <= r * n) by nia.
      rewrite (proj2 (Z.ltb_ge _ _)) by lia.
      rewrite (proj2 (Z.leb_gt ((n + 1) * n) _)) by lia. cbn [andb].
      f_equal; lia.
  - rewrite Hg by nia.
    rewrite (proj2 (Z.ltb_ge _ _)) by lia.
    rewrite (proj2 (Z.leb_gt ((n + 1) * n) _)) by lia. reflexivity.
  - rewrite Hg by nia.
    rewrite (proj2 (Z.ltb_ge _ _)) by lia.
    destruct (Z.eqb_spec r (n - 1)) as [->|Hne].
    + rewrite (proj2 (Z.leb_le ((n + 1) * n) _)) by lia.
      rewrite (proj2 (Z.ltb_lt _ ((n + 2) * n))) by lia. cbn [andb].
      f_equal; lia.
    + assert ((r + 2) * n <= n * n) by nia.
      rewrite (proj2 (Z.leb_gt ((n + 1) * n) _)) by lia. cbn [andb].
      f_equal; lia.
Qed.

Lemma generation_single :
  exists w',
    generation sd [Running w] = Some [Running w']
    /\ single_ok sd w'
    /\ forall r c, 0 <= r < n -> 0 <= c < n ->
         owned n w' r c = torus_step n (owned n w) r c.
Proof.
  destruct (waitall_single sd w Hok) as (g & Hwait & Hglen & Hg). fold n in Hg.
  pose proof (single_dims sd w Hok) as Hd.
  destruct Hok as (Hr & Hs & HL & Hn & Hgb & Hgu & Hnb & Hnu). fold n in Hn, HL.
  assert (Hgb' : buffer_ok sd (part w) g)
    by (unfold buffer_ok in *; now rewrite Hglen).
  assert (Hgu' : Forall is_u8 g).
  { apply Forall_u8_flat. intros i Hi. rewrite Hg by lia.
    destruct (i <? n); [apply flat_u8; assumption|].
    destruct (_ && _); apply flat_u8; assumption. }
  destruct (compute_next_spec sd (mkWorker (part w) g (next_buf w)))
    as (next' & Hcomp & Hnlen & Hup); try assumption.
  cbn [part grid_buf next_buf] in Hcomp, Hnlen, Hup. rewrite HL in Hup.
  fold n in Hup.
  exists (mkWorker (part w) next' g). split; [|split].
  - unfold generation, halo_exchange. cbn [each_proc].
    rewrite Hwait. cbn [each_proc]. rewrite Hcomp. reflexivity.
  - unfold single_ok. cbn [part grid_buf next_buf]. fold n.
    repeat split; try assumption; try lia.
    + unfold buffer_ok in *. now rewrite Hnlen.
    + apply Forall_u8_flat. intros i Hi. rewrite Hup by lia.
      destruct (_ && _); [|apply flat_u8; assumption].
      unfold stencil_at, is_u8.
      match goal with |- context [life_rule ?a ?b] =>
        destruct (life_rule_bit a b) as [E|E]; rewrite E; lia end.
  - intros r c Hr' Hc. unfold owned at 1. cbn [grid_buf]. unfold cell.
    assert (Hlo : n <= (r + 1) * n + c) by nia.
    assert (Hhi : (r + 1) * n + c < (n + 1) * n) by nia.
    rewrite Hup by lia.
    rewrite (proj2 (Z.leb_le _ _)) by lia.
    rewrite (proj2 (Z.ltb_lt _ _)) by lia. cbn [andb].
    rewrite stencil_at_cell by (fold n; lia). fold n.
    unfold torus_step, neighbour_sum.
    assert (Hwl : 0 <= wrap_left n c < n) by (unfold wrap_left; bool_cases).
    assert (Hwr : 0 <= wrap_right n c < n) by (unfold wrap_right; bool_cases).
    destruct (exchanged_rows g r c Hg Hr' Hc) as (_ & E2 & _).
    destruct (exchanged_rows g r (wrap_left n c) Hg Hr' Hwl) as (E3 & E4 & E5).
    destruct (exchanged_rows g r (wrap_right n c) Hg Hr' Hwr) as (E6 & E7 & E8).
    destruct (exchanged_rows g r c Hg Hr' Hc) as (E9 & _ & E10).
    rewrite E2, E3, E4, E5, E6, E7, E8, E9, E10. reflexivity.
Qed.

End SingleGeneration.

(** ** Shapes on a torus *)

Lemma torus_step_ext n f g r c :
  1 <= n ->
  (forall x y, 0 <= x < n -> 0 <= y < n -> f x y = g x y) ->
  0 <= r < n -> 0 <= c < n ->
  torus_step n f r c = torus_step n g r c.
Proof.
  intros Hn Hfg Hr Hc. unfold torus_step.
  assert (Hl : forall x, 0 <= x < n -> 0 <= wrap_left n x < n)
    by (intros x Hx; unfold wrap_left; bool_cases).
  assert (Hrt : forall x, 0 <= x < n -> 0 <= wrap_right n x < n)
    by (intros x Hx; unfold wrap_right; bool_cases).
  rewrite !Hfg by auto. reflexivity.
Qed.

Lemma alive_outside cells x y :
  in_box cells = true -> 4 <= x \/ 4 <= y -> alive cells x y = 0.
Proof.
  intros Hbox Hout. unfold alive.
  assert (E : existsb (fun rc => (fst rc =? x) && (snd rc =? y)) cells = false).
  { unfold in_box in Hbox. induction cells as [|[a b] cells IH]; [reflexivity|].
    cbn [forallb existsb fst snd] in *.
    apply andb_true_iff in Hbox as [Hab Hrest].
    rewrite IH by assumption.
    rewrite !andb_true_iff, !Z.leb_le in Hab.
    destruct (Z.eqb_spec a x), (Z.eqb_spec b y); cbn [andb orb]; try reflexivity.
    lia. }
  now rewrite E.
Qed.

Lemma alive_near cells x x' y y' :
  in_box cells = true -> near x x' -> near y y' ->
  alive cells x y = alive cells x' y'.
Proof.
  intros Hbox [->|[Hx Hx']] [->|[Hy Hy']]; [reflexivity | | | ];
    rewrite !(alive_outside cells) by (assumption || lia); reflexivity.
Qed.

Lemma fold7_near n r :
  6 <= n -> 0 <= r < n ->
  near r (fold7 n r)
  /\ near (wrap_left n r) (wrap_left 7 (fold7 n r))
  /\ near (wrap_right n r) (wrap_right 7 (fold7 n r))
  /\ 0 <= fold7 n r < 7.
Proof.
  intros Hn Hr. unfold near, fold7, wrap_left, wrap_right.
  destruct (Z.leb_spec r 4) as [H4|H4].
  - assert (r = 0 \/ r = 1 \/ r = 2 \/ r = 3 \/ r = 4) as [->|[->|[->|[->| ->]]]] by lia;
      settle_tests; lia.
  - destruct (Z.eqb_spec r (n - 1)) as [E|E]; settle_tests; lia.
Qed.

Lemma torus_step_fold7 A n r c :
  in_box A = true -> 6 <= n -> 0 <= r < n -> 0 <= c < n ->
  torus_step n (alive A) r c = torus_step 7 (alive A) (fold7 n r) (fold7 n c).
Proof.
  intros HA Hn Hr Hc.
  destruct (fold7_near n r Hn Hr) as (R0 & R1 & R2 & _).
  destruct (fold7_near n c Hn Hc) as (C0 & C1 & C2 & _).
  unfold torus_step.
  rewrite (alive_near A r (fold7 n r) c (fold7 n c)) by assumption.
  rewrite (alive_near A _ _ _ _ HA R1 C1), (alive_near A _ _ _ _ HA R1 C0),
    (alive_near A _ _ _ _ HA R1 C2), (alive_near A _ _ _ _ HA R0 C1),
    (alive_near A _ _ _ _ HA R0 C2), (alive_near A _ _ _ _ HA R2 C1),
    (alive_near A _ _ _ _ HA R2 C0), (alive_near A _ _ _ _ HA R2 C2).
  reflexivity.
Qed.

Lemma phase_check_cell m A B r c :
  phase_check m A B = true -> 0 <= r < m -> 0 <= c < m ->
  torus_step m (alive A) r c = alive B r c.
Proof.
  intros Hchk Hr Hc. unfold phase_check in Hchk.
  rewrite forallb_forall in Hchk.
  assert (Hin : forall x, 0 <= x < m -> In x (seqZ 0 m)).
  { intros x Hx. apply list_elem_of_In, elem_of_seqZ. lia. }
  specialize (Hchk r (Hin r Hr)). rewrite forallb_forall in Hchk.
  specialize (Hchk c (Hin c Hc)). now apply Z.eqb_eq in Hchk.
Qed.

(** A shape that is followed by another on the 5-torus and on the 7-torus
    is followed by it on every torus of side at least 5. *)
Lemma phase_step A B n r c :
  in_box A = true -> in_box B = true ->
  phase_check 5 A B = true -> phase_check 7 A B = true ->
  5 <= n -> 0 <= r < n -> 0 <= c < n ->
  torus_step n (alive A) r c = alive B r c.
Proof.
  intros HA HB H5 H7 Hn Hr Hc.
  destruct (Z.eq_dec n 5) as [->|Hne].
  - apply phase_check_cell; assumption.
  - assert (H6 : 6 <= n) by lia.
    rewrite torus_step_fold7 by assumption.
    destruct (fold7_near n r H6 Hr) as (R0 & _ & _ & Rr).
    destruct (fold7_near n c H6 Hc) as (C0 & _ & _ & Cr).
    rewrite (phase_check_cell 7 A B) by assumption.
    symmetry. apply alive_near; assumption.
Qed.

(** ** The glider *)

Lemma glider_phases :
  in_box glider_cells = true /\ in_box glider_gen1 = true
  /\ in_box glider_gen2 = true /\ in_box glider_gen3 = true
  /\ in_box (shift_diag glider_cells) = true
  /\ (phase_check 5 glider_cells glider_gen1 = true
      /\ phase_check 7 glider_cells glider_gen1 = true)
  /\ (phase_check 5 glider_gen1 glider_gen2 = true
      /\ phase_check 7 glider_gen1 glider_gen2 = true)
  /\ (phase_check 5 glider_gen2 glider_gen3 = true
      /\ phase_check 7 glider_gen2 glider_gen3 = true)
  /\ (phase_check 5 glider_gen3 (shift_diag glider_cells) = true
      /\ phase_check 7 glider_gen3 (shift_diag glider_cells) = true).
Proof. vm_compute. repeat split. Qed.

(** One generation takes a single worker holding the shape [A] to one
    holding the shape [B] that follows [A]. *)
Lemma generation_phase sd w A B :
  single_ok sd w -> 5 <= grid_size sd ->
  in_box A = true -> in_box B = true ->
  phase_check 5 A B = true /\ phase_check 7 A B = true ->
  (forall r c, 0 <= r < grid_size sd -> 0 <= c < grid_size sd ->
     owned (grid_size sd) w r c = alive A r c) ->
  exists w',
    generation sd [Running w] = Some [Running w']
    /\ single_ok sd w'
    /\ forall r c, 0 <= r < grid_size sd -> 0 <= c < grid_size sd ->
         owned (grid_size sd) w' r c = alive B r c.
Proof.
  intros Hok Hn HA HB [H5 H7] Hw.
  destruct (generation_single sd w Hok) as (w' & Hgen & Hok' & Hstep).
  exists w'. split; [assumption|]. split; [assumption|].
  intros r c Hr Hc. rewrite Hstep by assumption.
  rewrite (torus_step_ext _ _ (alive A)) by (assumption || lia).
  apply phase_step; assumption.
Qed.

(** The single rank of a glider run after initialisation. *)
Lemma start_single_glider bit sd :
  id_type sd = glider_id -> 3 <= grid_size sd <= int_max ->
  exists w0,
    start_world bit sd 1 = Some [Running w0]
    /\ single_ok sd w0
    /\ forall r c, 0 <= r < grid_size sd -> 0 <= c < grid_size sd ->
         owned (grid_size sd) w0 r c = alive glider_cells r c.
Proof.
  intros Hid Hn.
  assert (Hus : is_usize (grid_size sd))
    by (unfold is_usize, usize_max, int_max in *; lia).
  destruct (compute_partition_closed sd 0 1 Hus) as [HL _];
    [lia | unfold int_max; lia |].
  rewrite Z.div_1_r, Z.mod_1_r in HL. cbn [Z.ltb Z.compare] in HL.
  rewrite Z.add_0_r in HL.
  assert (Hd : dims_ok sd (compute_partition sd 0 1)) by (unfold dims_ok; lia).
  destruct (init_glider_ok sd _ Hd) as (g & Hinit & Hg & Hu & Hcells); [lia | lia |].
  unfold start_world. change (Z.to_nat 1) with 1%nat. cbn [start_all].
  unfold start, initialize. rewrite Hid.
  rewrite (proj2 (Z.eqb_neq _ 0)) by lia. rewrite Hinit.
  eexists. split; [reflexivity|]. split.
  - unfold single_ok. cbn [part grid_buf next_buf].
    repeat split; try assumption; try lia.
    + apply (proj2 (allocate_ok sd _ Hd)).
    + unfold allocate. cbn [next_buf]. apply Forall_replicate. unfold is_u8. lia.
  - intros r c Hr Hc. unfold owned. cbn [grid_buf].
    rewrite Hcells by lia. unfold glider_mask, alive, glider_cells.
    cbn [existsb fst snd]. bool_cases.
Qed.

(** C8. On one rank and a grid of side at least 5 the glider pattern
    starts as the five live cells of the mask, all other owned cells
    dead; four generations later the owned cells hold the same five-cell
    shape moved by one row and one column, and nothing else. *)
Theorem glider_translates (bit : Z -> Z -> Z) (sd : SimulationData) :
  id_type sd = glider_id -> 5 <= grid_size sd <= int_max ->
  let n := grid_size sd in
  exists w0 w4,
    start_world bit sd 1 = Some [Running w0]
    /\ run sd 4 [Running w0] = Some [Running w4]
    /\ (forall r c, 0 <= r < n -> 0 <= c < n ->
          owned n w0 r c = alive glider_cells r c)
    /\ (forall r c, 0 <= r < n -> 0 <= c < n ->
          owned n w4 r c = alive (shift_diag glider_cells) r c).
Proof.
  intros Hid Hn n.
  destruct glider_phases as (B0 & B1 & B2 & B3 & B4 & P01 & P12 & P23 & P34).
  destruct (start_single_glider bit sd Hid) as (w0 & Hstart & Hok0 & Hw0); [lia|].
  destruct (generation_phase sd w0 _ _ Hok0 (proj1 Hn) B0 B1 P01 Hw0)
    as (w1 & G1 & Hok1 & Hw1).
  destruct (generation_phase sd w1 _ _ Hok1 (proj1 Hn) B1 B2 P12 Hw1)
    as (w2 & G2 & Hok2 & Hw2).
  destruct (generation_phase sd w2 _ _ Hok2 (proj1 Hn) B2 B3 P23 Hw2)
    as (w3 & G3 & Hok3 & Hw3).
  destruct (generation_phase sd w3 _ _ Hok3 (proj1 Hn) B3 B4 P34 Hw3)
    as (w4 & G4 & Hok4 & Hw4).
  exists w0, w4. split; [assumption|]. split.
  - cbn [run]. rewrite G1, G2, G3, G4. reflexivity.
  - split; assumption.
Qed.

Lemma glider_translates_witness :
  exists w0 w4,
    start_world (fun _ _ => 0) (mkSimulationData 6 4 1 1 64 glider_id) 1
    = Some [Running w0]
    /\ run (mkSimulationData 6 4 1 1 64 glider_id) 4 [Running w0] = Some [Running w4]
    /\ owned 6 w4 3 3 = alive (shift_diag glider_cells) 3 3.
Proof.
  destruct (glider_translates (fun _ _ => 0)
              (mkSimulationData 6 4 1 1 64 glider_id) eq_refl)
    as (w0 & w4 & Hs & Hr & _ & H4).
  - unfold int_max. simpl. lia.
  - exists w0, w4. split; [exact Hs|]. split; [exact Hr|].
    apply H4; simpl; lia.
Defined.

(** ** Tags and directions of the exchange *)

Lemma halo_requests_partition sd r p :
  halo_requests sd (compute_partition sd r p)
  = [ MPI_Irecv (row_ptr sd 0) (to_int (grid_size sd)) (up r p) 0;
      MPI_Irecv (row_ptr sd (usize_add (local_rows (compute_partition sd r p)) 1))
        (to_int (grid_size sd)) (down r p) 1;
      MPI_Isend (row_ptr sd (local_rows (compute_partition sd r p)))
        (to_int (grid_size sd)) (down r p) 0;
      MPI_Isend (row_ptr sd 1) (to_int (grid_size sd)) (up r p) 1 ].
Proof. reflexivity. Qed.

Lemma row_ptr_ok sd p r :
  dims_ok sd p -> 0 <= r < local_rows p + 2 ->
  row_ptr sd r = r * grid_size sd
  /\ 0 <= r * grid_size sd
  /\ r * grid_size sd + grid_size sd <= (local_rows p + 2) * grid_size sd.
Proof.
  intros Hd Hr. unfold row_ptr, usize_mul. unfold dims_ok, int_max in Hd.
  rewrite to_usize_id by (unfold is_usize, usize_max; nia). nia.
Qed.

(** C7. For [p] workers and a worker [i]: the send of [i]'s bottom owned
    row goes to [down i] with tag 0, and the receive that [down i] posts
    for its top halo (row 0) names source [i] and tag 0; the send of
    [i]'s top owned row (row 1) goes to [up i] with tag 1, and the
    receive that [up i] posts for its bottom halo (row [local_rows+1])
    names source [i] and tag 1.  Destination and tag alone single out
    the send on each edge, also when [up i = down i], and on well-sized
    buffers each receive completes with exactly that row. *)
Theorem halo_tags_symmetric (sd : SimulationData) (p i : Z) :
  1 <= p <= ring_max -> 0 <= i < p ->
  let n := grid_size sd in
  let me := compute_partition sd i p in
  let below := compute_partition sd (down i p) p in
  let above := compute_partition sd (up i p) p in
  let count := to_int n in
  let send_down := MPI_Isend (row_ptr sd (local_rows me)) count (down i p) 0 in
  let send_up := MPI_Isend (row_ptr sd 1) count (up i p) 1 in
  let recv_top := MPI_Irecv (row_ptr sd 0) count i 0 in
  let recv_bottom :=
    MPI_Irecv (row_ptr sd (usize_add (local_rows above) 1)) count i 1 in
  up (down i p) p = i /\ down (up i p) p = i
  /\ halo_requests sd me !! 2%nat = Some send_down
  /\ halo_requests sd below !! 0%nat = Some recv_top
  /\ find (matching_send (down i p) 0) (halo_requests sd me) = Some send_down
  /\ halo_requests sd me !! 3%nat = Some send_up
  /\ halo_requests sd above !! 1%nat = Some recv_bottom
  /\ find (matching_send (up i p) 1) (halo_requests sd me) = Some send_up
  /\ (forall world wi buf,
        world !! Z.to_nat i = Some (Running wi) -> part wi = me ->
        dims_ok sd me -> buffer_ok sd me (grid_buf wi) ->
        (dims_ok sd below -> buffer_ok sd below buf ->
         complete sd world (down i p) buf recv_top
         = Some (with_row n buf 0 (row_of n (grid_buf wi) (local_rows me))))
        /\ (dims_ok sd above -> buffer_ok sd above buf ->
            complete sd world (up i p) buf recv_bottom
            = Some (with_row n buf (local_rows above + 1)
                      (row_of n (grid_buf wi) 1)))).
Proof.
  intros Hp Hi n me below above count send_down send_up recv_top recv_bottom.
  assert (Hud : up (down i p) p = i) by (apply up_down; lia).
  assert (Hdu : down (up i p) p = i) by (apply down_up; lia).
  assert (Fdown : find (matching_send (down i p) 0) (halo_requests sd me)
                  = Some send_down).
  { subst me. rewrite halo_requests_partition. cbn [find matching_send].
    now rewrite Z.eqb_refl. }
  assert (Fup : find (matching_send (up i p) 1) (halo_requests sd me)
                = Some send_up).
  { subst me. rewrite halo_requests_partition. cbn [find matching_send].
    rewrite Z.eqb_refl.
    replace ((down i p =? up i p) && (0 =? 1)) with false
      by (now rewrite andb_false_r).
    reflexivity. }
  split; [exact Hud|]. split; [exact Hdu|].
  split; [reflexivity|].
  split; [subst below recv_top; rewrite halo_requests_partition, Hud; reflexivity|].
  split; [exact Fdown|].
  split; [reflexivity|].
  split; [subst above recv_bottom; rewrite halo_requests_partition, Hdu; reflexivity|].
  split; [exact Fup|].
  intros world wi buf Hw Hpart Hme Hgrid.
  assert (Hcount : count = n).
  { subst count. apply to_int_id. unfold dims_ok in Hme. fold n in Hme.
    unfold is_int, int_min, int_max in *. lia. }
  unfold buffer_ok in Hgrid. fold n in Hgrid.
  pose proof Hme as Hme'. unfold dims_ok in Hme'. fold n in Hme'.
  split.
  - intros Hbelow Hbuf. unfold buffer_ok in Hbuf. fold n in Hbuf.
    pose proof Hbelow as Hbelow'. unfold dims_ok in Hbelow'.
    destruct (row_ptr_ok sd me (local_rows me) Hme) as (Es & Hs0 & Hs1); [lia|].
    destruct (row_ptr_ok sd below 0 Hbelow) as (Er & Hr0 & Hr1); [lia|].
    fold n in Es, Hs0, Hs1, Er, Hr0, Hr1.
    subst recv_top. unfold with_row, row_of.
    rewrite (complete_recv sd world (down i p) buf (row_ptr sd 0) count i 0 wi
               (row_ptr sd (local_rows me)) count (down i p) 0);
      try lia.
    + rewrite Hcount, Es, Er. reflexivity.
    + exact Hw.
    + rewrite Hpart. exact Fdown.
  - intros Habove Hbuf. unfold buffer_ok in Hbuf. fold n in Hbuf.
    pose proof Habove as Habove'. unfold dims_ok in Habove'.
    destruct (row_ptr_ok sd me 1 Hme) as (Es & Hs0 & Hs1); [lia|].
    destruct (row_ptr_ok sd above (local_rows above + 1) Habove) as (Er & Hr0 & Hr1);
      [lia|].
    fold n in Es, Hs0, Hs1, Er, Hr0, Hr1.
    assert (Eadd : usize_add (local_rows above) 1 = local_rows above + 1).
    { unfold usize_add. apply to_usize_id.
      unfold dims_ok, int_max in Habove. unfold is_usize, usize_max. lia. }
    subst recv_bottom. unfold with_row, row_of. rewrite Eadd.
    rewrite (complete_recv sd world (up i p) buf
               (row_ptr sd (local_rows above + 1)) count i 1 wi
               (row_ptr sd 1) count (up i p) 1);
      try lia.
    + rewrite Hcount, Es, Er. reflexivity.
    + exact Hw.
    + rewrite Hpart. exact Fup.
Qed.

Lemma halo_tags_symmetric_witness :
  up (down 0 2) 2 = 0
  /\ find (matching_send (up 0 2) 1) (halo_requests sd4 (compute_partition sd4 0 2))
     = Some (MPI_Isend (row_ptr sd4 1) (to_int (grid_size sd4)) (up 0 2) 1).
Proof.
  assert (H1 : 1 <= 2 <= ring_max) by (unfold ring_max; lia).
  assert (H2 : 0 <= 0 < 2) by lia.
  pose proof (halo_tags_symmetric sd4 2 0 H1 H2) as H. cbv zeta in H.
  destruct H as (Ha & _ & _ & _ & _ & _ & _ & Hb & _).
  split; [exact Ha | exact Hb].
Defined.

(** ** More ranks than rows *)

(** C4 (the code departs from it). With [grid_size = 2] on four ranks,
    ranks 2 and 3 own no row and take the zero-row branch, posting
    nothing; ranks 0 and 1 own one row each and enter the generation
    loop, where rank 0 names rank 3 as its [up] neighbour and rank 1
    names rank 2 as its [down] neighbour: the first receive of rank 0 has
    no matching send and neither the exchange nor the run completes.
    Ranks 0 and 1 never call [MPI_Barrier], so ranks 2 and 3 are still
    inside theirs. *)
Theorem degenerate_ring_broken (bit : Z -> Z -> Z) :
  local_rows (compute_partition sd_degenerate 2 4) = 0
  /\ local_rows (compute_partition sd_degenerate 3 4) = 0
  /\ start bit sd_degenerate 2 4 = Some AtBarrier
  /\ start bit sd_degenerate 3 4 = Some AtBarrier
  /\ up 0 4 = 3 /\ down 1 4 = 2
  /\ exists w0 w1,
       start_world bit sd_degenerate 4
       = Some [Running w0; Running w1; AtBarrier; AtBarrier]
       /\ halo_requests sd_degenerate (part w0) !! 0%nat = Some (MPI_Irecv 0 2 3 0)
       /\ halo_requests sd_degenerate (part w1) !! 1%nat = Some (MPI_Irecv 4 2 2 1)
       /\ waitall sd_degenerate
            [Running w0; Running w1; AtBarrier; AtBarrier] w0 = None
       /\ waitall sd_degenerate
            [Running w0; Running w1; AtBarrier; AtBarrier] w1 = None
       /\ generation sd_degenerate
            [Running w0; Running w1; AtBarrier; AtBarrier] = None
       /\ simulate bit sd_degenerate 4 = None.
Proof.
  repeat (split; [reflexivity|]).
  eexists. eexists. split; [vm_compute; reflexivity|].
  repeat split.
Qed.

(** ** Balance of the partition and ranks without rows *)

(** X1. The partition is balanced: a rank never owns fewer rows than a
    rank after it, and never more than one row more. *)
Theorem partition_balanced (sd : SimulationData) (p r1 r2 : Z) :
  is_usize (grid_size sd) -> 0 <= r1 <= r2 -> r2 < p -> p <= int_max ->
  local_rows (compute_partition sd r2 p) <= local_rows (compute_partition sd r1 p)
  /\ local_rows (compute_partition sd r1 p)
     <= local_rows (compute_partition sd r2 p) + 1.
Proof.
  intros Hn H12 H2 Hp.
  destruct (compute_partition_closed sd r1 p Hn) as [-> _]; [lia | lia |].
  destruct (compute_partition_closed sd r2 p Hn) as [-> _]; [lia | lia |].
  destruct (Z.ltb_spec r1 (grid_size sd mod p)),
           (Z.ltb_spec r2 (grid_size sd mod p)); lia.
Qed.

Lemma partition_balanced_witness :
  local_rows (compute_partition sd4 2 3) <= local_rows (compute_partition sd4 0 3)
  /\ local_rows (compute_partition sd4 0 3)
     <= local_rows (compute_partition sd4 2 3) + 1.
Proof.
  apply (partition_balanced sd4 3 0 2).
  - unfold is_usize, usize_max. simpl. lia.
  - lia.
  - lia.
  - unfold int_max. lia.
Defined.

Lemma local_rows_zero_iff sd r p :
  is_usize (grid_size sd) -> 0 <= r < p -> p <= int_max ->
  local_rows (compute_partition sd r p) = 0 <-> grid_size sd <= r.
Proof.
  intros Hn Hr Hp.
  destruct (compute_partition_closed sd r p Hn Hr Hp) as [-> _].
  destruct (div_mod_facts (grid_size sd) p) as (Hdm & Hm & Hd);
    [unfold is_usize in Hn; lia | lia |].
  destruct (Z.ltb_spec r (grid_size sd mod p)) as [Hlt|Hge]; split; intros H.
  - lia.
  - nia.
  - assert (grid_size sd / p = 0) by lia. nia.
  - assert (grid_size sd / p = 0) by (apply Z.div_small; unfold is_usize in Hn; lia).
    lia.
Qed.

(** ** Random initial data *)

Section Random.
Variable bit : Z -> Z -> Z.
Variable sd : SimulationData.
Variable p : Partition.
Hypothesis Hdims : dims_ok sd p.
Variable g0 : list Z.
Hypothesis Hg0 : buffer_ok sd p g0.

Let n := grid_size sd.
Let L := local_rows p.
Let seed := usize_add (random_seed sd) (to_usize (rank p)).

Lemma random_cell_step r c gk :
  1 <= r <= L -> 0 <= c < n ->
  random_upto sd (bit seed) g0 (r * n + c) gk ->
  exists gk',
    (let? g' := md_write (view sd p) (fst gk) r c (bit seed (snd gk)) in
     Some (g', snd gk + 1)) = Some gk'
    /\ random_upto sd (bit seed) g0 (r * n + (c + 1)) gk'.
Proof.
  intros Hr Hc (Hk & Hlen & Hs).
  assert (Hsb : buffer_ok sd p (fst gk)) by (unfold buffer_ok in *; now rewrite Hlen).
  rewrite (md_write_view sd p Hdims (fst gk) r c _ Hsb) by (fold L n; lia).
  eexists. split; [reflexivity|].
  destruct (md_index_view sd p Hdims r c) as [_ Hrc]; [fold L; lia | fold n; lia |].
  fold n L in Hrc.
  unfold random_upto. cbn [fst snd]. fold n.
  split; [lia|]. split; [now rewrite length_insert|].
  intros i Hi.
  rewrite flat_insert by (unfold buffer_ok in Hsb; fold n L in Hsb; lia).
  rewrite Hs by assumption. fold n. rewrite Hk.
  assert (n <= r * n + c) by nia.
  destruct (Z.eqb_spec i (r * n + c)) as [->|Hne]; bool_cases.
Qed.

Lemma random_rows :
  exists gk,
    for_range 1 (L + 1)
      (fun r =>
         for_range 0 n
           (fun c (gk : list Z * Z) =>
              let? g' := md_write (view sd p) (fst gk) r c (bit seed (snd gk)) in
              Some (g', snd gk + 1)))
      (g0, 0) = Some gk
    /\ random_upto sd (bit seed) g0 ((L + 1) * n) gk.
Proof.
  apply (for_range_inv (fun r t => random_upto sd (bit seed) g0 (r * n) t)).
  - unfold dims_ok in Hdims. fold L in Hdims. lia.
  - unfold random_upto. cbn [fst snd]. fold n.
    split; [lia|]. split; [reflexivity|]. intros i Hi. bool_cases.
  - intros r t Hr Ht.
    destruct (for_range_inv
                (fun c t => random_upto sd (bit seed) g0 (r * n + c) t)
                (fun c (gk : list Z * Z) =>
                   let? g' := md_write (view sd p) (fst gk) r c (bit seed (snd gk)) in
                   Some (g', snd gk + 1)) 0 n t) as (t' & Hrun & Ht').
    + unfold dims_ok in Hdims. fold n in Hdims. lia.
    + now replace (r * n + 0) with (r * n) by lia.
    + intros c u Hc Hu. apply random_cell_step; [lia | lia | assumption].
    + exists t'. split; [assumption|].
      now replace ((r + 1) * n) with (r * n + n) by lia.
Qed.

End Random.

Lemma init_random_spec bit sd w :
  dims_ok sd (part w) -> buffer_ok sd (part w) (grid_buf w) ->
  exists g,
    init_random bit sd w = Some (mkWorker (part w) g (next_buf w))
    /\ length g = length (grid_buf w)
    /\ forall i, 0 <= i ->
         flat g i =
           if (grid_size sd <=? i) && (i <? (local_rows (part w) + 1) * grid_size sd)
           then bit (usize_add (random_seed sd) (to_usize (rank (part w))))
                    (i - grid_size sd)
           else flat (grid_buf w) i.
Proof.
  intros Hd Hg. unfold init_random.
  destruct (random_rows bit sd (part w) Hd (grid_buf w) Hg) as ([g k] & -> & Hk & Hlen & Hs).
  exists g. split; [reflexivity|]. split; [exact Hlen | exact Hs].
Qed.

(** X3. Under the random pattern a rank that owns rows starts with its
    owned cell [(r, c)] holding draw number [(r-1)*grid_size + c] of the
    generator seeded with [random_seed + rank] (in [usize]); both halo
    rows and the whole second buffer are zero. *)
Theorem random_start (bit : Z -> Z -> Z) (sd : SimulationData) (r p : Z) :
  id_type sd = random_id ->
  1 <= grid_size sd <= int_max -> 0 <= r < p -> p <= int_max ->
  1 <= local_rows (compute_partition sd r p) ->
  let n := grid_size sd in
  let seed := usize_add (random_seed sd) (to_usize r) in
  exists w,
    start bit sd r p = Some (Running w)
    /\ part w = compute_partition sd r p
    /\ buffer_ok sd (part w) (grid_buf w)
    /\ (forall i c, 1 <= i <= local_rows (part w) -> 0 <= c < n ->
          cell n (grid_buf w) i c = bit seed ((i - 1) * n + c))
    /\ (forall c, 0 <= c < n ->
          cell n (grid_buf w) 0 c = 0
          /\ cell n (grid_buf w) (local_rows (part w) + 1) c = 0)
    /\ (forall i, flat (next_buf w) i = 0).
Proof.
  intros Hid Hn Hr Hp HL n seed.
  assert (Hus : is_usize (grid_size sd))
    by (unfold is_usize, usize_max, int_max in *; lia).
  pose proof (local_rows_bounds sd r p Hus Hr Hp) as HLb.
  assert (Hd : dims_ok sd (compute_partition sd r p)) by (unfold dims_ok; lia).
  destruct (allocate_ok sd _ Hd) as [Hg Hnx].
  destruct (init_random_spec bit sd (allocate sd (compute_partition sd r p)) Hd Hg)
    as (g & Hinit & Hlen & Hs).
  unfold start, initialize. rewrite Hid.
  rewrite (proj2 (Z.eqb_neq _ 0)) by lia. rewrite Hinit.
  eexists. split; [reflexivity|]. cbn [part grid_buf next_buf].
  change (part (allocate sd (compute_partition sd r p)))
    with (compute_partition sd r p) in *.
  change (rank (compute_partition sd r p)) with r in Hs.
  set (L := local_rows (compute_partition sd r p)) in *. fold n in Hs, Hn.
  split; [reflexivity|].
  split; [unfold buffer_ok in *; now rewrite Hlen|].
  split; [|split].
  - intros i c Hi Hc. unfold cell.
    assert (n <= i * n + c) by nia.
    assert (i * n + c < (L + 1) * n) by nia.
    rewrite Hs by lia.
    rewrite (proj2 (Z.leb_le _ _)), (proj2 (Z.ltb_lt _ _)) by lia.
    cbn [andb]. f_equal; lia.
  - intros c Hc. unfold cell. split.
    + rewrite Hs by lia. rewrite (proj2 (Z.leb_gt n _)) by lia.
      cbn [andb]. unfold allocate. cbn [grid_buf]. apply flat_replicate.
    + assert ((L + 1) * n <= (L + 1) * n + c) by lia.
      rewrite Hs by nia. rewrite (proj2 (Z.ltb_ge _ ((L + 1) * n))) by lia.
      rewrite andb_false_r. unfold allocate. cbn [grid_buf]. apply flat_replicate.
  - intros i. unfold allocate. cbn [next_buf]. apply flat_replicate.
Qed.

Lemma random_start_witness :
  exists w,
    start (fun s k => (s + k) mod 2) sd_degenerate 1 4 = Some (Running w)
    /\ part w = compute_partition sd_degenerate 1 4.
Proof.
  destruct (random_start (fun s k => (s + k) mod 2) sd_degenerate 1 4 eq_refl)
    as (w & Hs & Hp & _).
  - unfold int_max. simpl. lia.
  - lia.
  - unfold int_max. lia.
  - vm_compute. discriminate.
  - exists w. split; [exact Hs | exact Hp].
Defined.

(** ** The exchange on any ring *)

Lemma each_proc_spec (f : Worker -> option Worker) (R : Worker -> Worker -> Prop)
    (world : list Proc) :
  (forall k w, world !! k = Some (Running w) -> exists w', f w = Some w' /\ R w w') ->
  exists world',
    each_proc f world = Some world'
    /\ length world' = length world
    /\ (forall k w, world !! k = Some (Running w) ->
          exists w', world' !! k = Some (Running w') /\ f w = Some w' /\ R w w')
    /\ (forall k pr, world !! k = Some pr -> (forall w, pr <> Running w) ->
          world' !! k = Some pr)
    /\ (forall k w', world' !! k = Some (Running w') ->
          exists w, world !! k = Some (Running w) /\ f w = Some w' /\ R w w').
Proof.
  induction world as [|pr rest IH]; intros Hf.
  - exists []. repeat split; intros; discriminate.
  - destruct IH as (rest' & Hrest & Hlen & Hrun & Hex & Hback).
    { intros k w Hk. apply (Hf (S k)). exact Hk. }
    destruct pr as [st calls| |w].
    + cbn [each_proc]. rewrite Hrest. eexists. split; [reflexivity|].
      split; [cbn; now rewrite Hlen|]. split; [|split].
      * intros [|k] w' Hk; [discriminate|]. apply Hrun. exact Hk.
      * intros [|k] pr' Hk Hne; [exact Hk|]. apply Hex; assumption.
      * intros [|k] w' Hk; [discriminate|]. apply Hback. exact Hk.
    + cbn [each_proc]. rewrite Hrest. eexists. split; [reflexivity|].
      split; [cbn; now rewrite Hlen|]. split; [|split].
      * intros [|k] w' Hk; [discriminate|]. apply Hrun. exact Hk.
      * intros [|k] pr' Hk Hne; [exact Hk|]. apply Hex; assumption.
      * intros [|k] w' Hk; [discriminate|]. apply Hback. exact Hk.
    + destruct (Hf O w eq_refl) as (w1 & Hw1 & HR).
      cbn [each_proc]. rewrite Hw1, Hrest. eexists. split; [reflexivity|].
      split; [cbn; now rewrite Hlen|]. split; [|split].
      * intros [|k] w' Hk.
        -- injection Hk as <-. exists w1. repeat split; assumption.
        -- apply Hrun. exact Hk.
      * intros [|k] pr' Hk Hne.
        -- injection Hk as <-. now elim (Hne w).
        -- apply Hex; assumption.
      * intros [|k] w' Hk.
        -- injection Hk as <-. exists w. repeat split; assumption.
        -- apply Hback. exact Hk.
Qed.

Lemma each_proc_none (f : Worker -> option Worker) (world : list Proc) k w :
  world !! k = Some (Running w) -> f w = None -> each_proc f world = None.
Proof.
  revert k. induction world as [|pr rest IH]; intros k Hk Hf; [discriminate|].
  destruct k as [|k].
  - injection Hk as ->. cbn [each_proc]. now rewrite Hf.
  - cbn [each_proc]. rewrite (IH k Hk Hf).
    destruct pr as [st calls| |w0]; [reflexivity | reflexivity |]. now destruct (f w0).
Qed.

(** What a completed receive leaves in the buffer. *)
Lemma complete_recv_inv sd world me buf off count source tag buf' :
  complete sd world me buf (MPI_Irecv off count source tag) = Some buf' ->
  exists data,
    buf' = list_inserts (Z.to_nat off) data buf
    /\ Z.of_nat (length data) <= count /\ 0 <= off
    /\ off + Z.of_nat (length data) <= Z.of_nat (length buf).
Proof.
  unfold complete. intros H.
  destruct (source <? 0); [discriminate|].
  destruct (world !! Z.to_nat source) as [[st calls| |ws]|]; try discriminate.
  destruct (find _ _) as [[| |b c s t|soff scount d t|k]|]; try discriminate.
  set (data := take (Z.to_nat scount) (drop (Z.to_nat soff) (grid_buf ws))) in *.
  destruct (Z.leb_spec (Z.of_nat (length data)) count); [|discriminate].
  destruct (Z.leb_spec 0 off); [|discriminate].
  destruct (Z.leb_spec (off + Z.of_nat (length data)) (Z.of_nat (length buf)));
    [|discriminate].
  cbn [andb] in H. injection H as <-. exists data. repeat split; assumption.
Qed.

Lemma find_send_down sd r p :
  find (matching_send (down r p) 0) (halo_requests sd (compute_partition sd r p))
  = Some (MPI_Isend (row_ptr sd (local_rows (compute_partition sd r p)))
            (to_int (grid_size sd)) (down r p) 0).
Proof.
  rewrite halo_requests_partition. cbn [find matching_send].
  now rewrite Z.eqb_refl.
Qed.

Lemma find_send_up sd r p :
  find (matching_send (up r p) 1) (halo_requests sd (compute_partition sd r p))
  = Some (MPI_Isend (row_ptr sd 1) (to_int (grid_size sd)) (up r p) 1).
Proof.
  rewrite halo_requests_partition. cbn [find matching_send].
  rewrite Z.eqb_refl.
  replace ((down r p =? up r p) && (0 =? 1)) with false by (now rewrite andb_false_r).
  reflexivity.
Qed.

Lemma count_ok sd p : dims_ok sd p -> to_int (grid_size sd) = grid_size sd.
Proof.
  intros Hd. apply to_int_id. unfold dims_ok in Hd.
  unfold is_int, int_min, int_max in *. lia.
Qed.

(** X4. Whatever the other ranks send, a completed exchange changes only
    the two halo rows of the current buffer: the partition, the second
    buffer, the length of the current buffer and every owned cell are as
    before. *)
Theorem halo_exchange_frame (sd : SimulationData) (world : list Proc)
    (w w' : Worker) :
  dims_ok sd (part w) -> buffer_ok sd (part w) (grid_buf w) ->
  waitall sd world w = Some w' ->
  part w' = part w /\ next_buf w' = next_buf w
  /\ length (grid_buf w') = length (grid_buf w)
  /\ forall r c, 1 <= r <= local_rows (part w) -> 0 <= c < grid_size sd ->
       cell (grid_size sd) (grid_buf w') r c = cell (grid_size sd) (grid_buf w) r c.
Proof.
  intros Hd Hg Hwait. unfold waitall in Hwait.
  destruct (complete_all _ _ _ _ _) as [g|] eqn:E; [|discriminate].
  injection Hwait as <-. cbn [part next_buf grid_buf].
  unfold halo_requests in E. cbn [complete_all] in E.
  destruct (complete _ _ _ _ (MPI_Irecv _ _ _ 0)) as [g1|] eqn:E1; [|discriminate].
  destruct (complete _ _ _ _ (MPI_Irecv _ _ _ 1)) as [g2|] eqn:E2; [|discriminate].
  cbn [complete] in E. injection E as <-.
  apply complete_recv_inv in E1 as (d1 & -> & Hc1 & Ho1 & Hl1).
  apply complete_recv_inv in E2 as (d2 & -> & Hc2 & Ho2 & Hl2).
  rewrite length_inserts in Hl2.
  rewrite (count_ok sd _ Hd) in Hc1, Hc2.
  pose proof Hd as Hd'. unfold dims_ok, int_max in Hd'.
  assert (Eadd : usize_add (local_rows (part w)) 1 = local_rows (part w) + 1).
  { unfold usize_add. apply to_usize_id. unfold is_usize, usize_max. lia. }
  rewrite Eadd in *.
  destruct (row_ptr_ok sd (part w) 0 Hd) as (Er0 & _); [lia|].
  destruct (row_ptr_ok sd (part w) (local_rows (part w) + 1) Hd) as (Er1 & _); [lia|].
  rewrite Er0 in *. rewrite Er1 in *.
  repeat split; [now rewrite !length_inserts|].
  intros r c Hr Hc. unfold cell.
  set (n := grid_size sd) in *. set (L := local_rows (part w)) in *.
  assert (n <= r * n + c) by nia.
  assert (r * n + c < (L + 1) * n) by nia.
  rewrite flat_inserts by (rewrite ?length_inserts; lia).
  rewrite (proj2 (Z.leb_gt ((L + 1) * n) _)) by lia. cbn [andb].
  rewrite flat_inserts by lia.
  rewrite (proj2 (Z.ltb_ge _ (0 * n + Z.of_nat (length d1)))) by lia.
  now rewrite andb_false_r.
Qed.

Lemma halo_exchange_frame_witness :
  exists w',
    waitall sd4 [Running worker4] worker4 = Some w'
    /\ cell 4 (grid_buf w') 2 2 = cell 4 (grid_buf worker4) 2 2.
Proof.
  eexists. split; [vm_compute; reflexivity|].
  destruct worker4_ok as (H1 & H2 & _).
  refine (proj2 (proj2 (proj2
            (halo_exchange_frame sd4 [Running worker4] worker4 _ H1 H2 eq_refl)))
            2 2 _ _).
  - vm_compute. split; discriminate.
  - vm_compute. split; [discriminate | reflexivity].
Defined.

(** ** Owners of global rows *)

Section Owner.
Variable sd : SimulationData.
Variable p : Z.
Hypothesis Hn : is_usize (grid_size sd).
Hypothesis Hp : 1 <= p <= int_max.

Let n := grid_size sd.
Let part_of (r : Z) : Partition := compute_partition sd r p.

Lemma offset_nonneg r : 0 <= r < p -> 0 <= row_offset (part_of r).
Proof.
  intros Hr. unfold part_of.
  destruct (compute_partition_closed sd r p Hn Hr) as [_ ->]; [lia|].
  destruct (div_mod_facts (grid_size sd) p) as (_ & Hm & Hd);
    [unfold is_usize in Hn; lia | lia |].
  nia.
Qed.

Lemma last_range_end :
  row_offset (part_of (p - 1)) + local_rows (part_of (p - 1)) = n.
Proof.
  unfold part_of. rewrite partition_range_end by (assumption || lia).
  destruct (div_mod_facts (grid_size sd) p) as (Hdm & Hm & Hd);
    [unfold is_usize in Hn; lia | lia |].
  replace (p - 1 + 1) with p by lia. unfold n. lia.
Qed.

Lemma first_offset : row_offset (part_of 0) = 0.
Proof.
  unfold part_of.
  destruct (div_mod_facts (grid_size sd) p) as (_ & Hm & _);
    [unfold is_usize in Hn; lia | lia |].
  destruct (compute_partition_closed sd 0 p Hn) as [_ ->]; lia.
Qed.

Lemma range_end_le r : 0 <= r < p ->
  row_offset (part_of r) + local_rows (part_of r) <= n.
Proof.
  intros Hr. destruct (Z.eq_dec r (p - 1)) as [->|Hne].
  - rewrite last_range_end. lia.
  - pose proof (partition_ranges_ordered sd p r (p - 1) Hn) as H.
    pose proof last_range_end as He.
    pose proof (local_rows_bounds sd (p - 1) p Hn) as Hb.
    unfold part_of in *. lia.
Qed.

Lemma owner_from_spec g (count : nat) : forall first,
  0 <= first -> first + Z.of_nat count <= p ->
  first * (n / p) + Z.min first (n mod p) <= g ->
  g < (first + Z.of_nat count) * (n / p) + Z.min (first + Z.of_nat count) (n mod p) ->
  first <= owner_from sd p g first count < first + Z.of_nat count
  /\ owns sd p (owner_from sd p g first count) g.
Proof.
  induction count as [|k IH]; intros first Hf Hc Hlo Hhi.
  - exfalso. replace (first + Z.of_nat 0) with first in Hhi by lia. lia.
  - cbn [owner_from].
    destruct (compute_partition_closed sd first p Hn) as [_ Hoff]; [lia | lia |].
    pose proof (partition_range_end sd first p Hn ltac:(lia) ltac:(lia)) as Hend.
    unfold n in *.
    destruct (Z.leb_spec (row_offset (compute_partition sd first p)) g) as [H1|H1];
      [|lia].
    destruct (Z.ltb_spec g (row_offset (compute_partition sd first p)
                            + local_rows (compute_partition sd first p)))
      as [H2|H2]; cbn [andb].
    + split; [lia|]. unfold owns. lia.
    + assert (Hlo' : (first + 1) * (grid_size sd / p)
                     + Z.min (first + 1) (grid_size sd mod p) <= g) by lia.
      assert (Hhi' : g < (first + 1 + Z.of_nat k) * (grid_size sd / p)
                         + Z.min (first + 1 + Z.of_nat k) (grid_size sd mod p)).
      { replace (first + 1 + Z.of_nat k) with (first + Z.of_nat (S k)) by lia.
        exact Hhi. }
      destruct (IH (first + 1) ltac:(lia) ltac:(lia) Hlo' Hhi') as [Hr Ho].
      split; [lia | exact Ho].
Qed.

Lemma owner_owns g :
  0 <= g < n -> 0 <= owner sd p g < p /\ owns sd p (owner sd p g) g.
Proof.
  intros Hg. unfold owner.
  destruct (div_mod_facts (grid_size sd) p) as (Hdm & Hm & Hd);
    [unfold is_usize in Hn; lia | lia |].
  unfold n in *.
  destruct (owner_from_spec g (Z.to_nat p) 0) as [Hr Ho]; try lia.
  - rewrite Z2Nat.id by lia. replace (0 + p) with p by lia.
    unfold n. rewrite Z.min_r by lia. lia.
  - split; [lia | exact Ho].
Qed.

Lemma owns_unique i j g :
  0 <= i < p -> 0 <= j < p -> owns sd p i g -> owns sd p j g -> i = j.
Proof.
  intros Hi Hj [Ha Hb] [Hc Hd].
  destruct (Z.lt_total i j) as [Hlt|[Heq|Hgt]]; [|assumption|].
  - pose proof (partition_ranges_ordered sd p i j Hn). lia.
  - pose proof (partition_ranges_ordered sd p j i Hn). lia.
Qed.

Lemma owner_unique i g :
  0 <= i < p -> owns sd p i g -> owner sd p g = i.
Proof.
  intros Hi Ho.
  assert (Hg : 0 <= g < n).
  { destruct Ho as [Ha Hb]. pose proof (offset_nonneg i Hi).
    pose proof (range_end_le i Hi). unfold part_of in *. lia. }
  destruct (owner_owns g Hg) as [Hr Ho'].
  apply (owns_unique _ _ g); assumption.
Qed.

End Owner.

(** ** The exchange on a ring without early leavers *)

Section Ring.
Variable sd : SimulationData.
Variable p : Z.
Variable world : list Proc.
Hypothesis Hring : ring_ok sd p world.

Let n := grid_size sd.

Lemma ring_usize : is_usize (grid_size sd).
Proof.
  destruct Hring as (Hn & _). unfold is_usize, usize_max, int_max in *. lia.
Qed.

Lemma ring_count : 1 <= p <= int_max.
Proof.
  destruct Hring as (Hn & Hp & _). unfold int_max in *. lia.
Qed.

Lemma ring_dims i : 0 <= i < p -> dims_ok sd (compute_partition sd i p).
Proof.
  intros Hi. pose proof ring_usize as Hus. pose proof ring_count as Hp.
  destruct Hring as (Hn & Hpn & _).
  pose proof (local_rows_bounds sd i p Hus Hi ltac:(lia)) as Hb.
  pose proof (local_rows_zero_iff sd i p Hus Hi ltac:(lia)) as Hz.
  assert (local_rows (compute_partition sd i p) <> 0) by (intros E; apply Hz in E; lia).
  unfold dims_ok. lia.
Qed.

Lemma ring_worker i :
  0 <= i < p ->
  exists w, world !! Z.to_nat i = Some (Running w)
            /\ part w = compute_partition sd i p
            /\ buffer_ok sd (compute_partition sd i p) (grid_buf w)
            /\ Forall is_u8 (grid_buf w)
            /\ buffer_ok sd (compute_partition sd i p) (next_buf w)
            /\ Forall is_u8 (next_buf w).
Proof.
  intros Hi. destruct Hring as (_ & _ & _ & _ & Hw).
  destruct (Hw i Hi) as (w & H1 & H2 & H3 & H4 & H5 & H6).
  exists w. rewrite H2 in H3, H5. repeat split; assumption.
Qed.

(** Every running entry of the world is the worker of its index. *)
Lemma ring_entry k w :
  world !! k = Some (Running w) ->
  0 <= Z.of_nat k < p
  /\ part w = compute_partition sd (Z.of_nat k) p
  /\ buffer_ok sd (compute_partition sd (Z.of_nat k) p) (grid_buf w)
  /\ Forall is_u8 (grid_buf w)
  /\ buffer_ok sd (compute_partition sd (Z.of_nat k) p) (next_buf w)
  /\ Forall is_u8 (next_buf w).
Proof.
  intros Hk.
  assert (Hlt : (k < length world)%nat) by (eapply lookup_lt_Some; eassumption).
  assert (Hi : 0 <= Z.of_nat k < p)
    by (destruct Hring as (_ & _ & _ & Hlen & _); lia).
  destruct (ring_worker (Z.of_nat k) Hi) as (w' & Hw' & Hrest).
  rewrite Nat2Z.id, Hk in Hw'. injection Hw' as <-.
  split; [exact Hi | exact Hrest].
Qed.

(** The current buffer of rank [i] after the exchange, offset by offset:
    the top halo is the bottom owned row of [up i], the bottom halo the
    top owned row of [down i]. *)
Lemma ring_waitall i w wu wd :
  0 <= i < p ->
  world !! Z.to_nat i = Some (Running w) ->
  world !! Z.to_nat (up i p) = Some (Running wu) ->
  world !! Z.to_nat (down i p) = Some (Running wd) ->
  let L := local_rows (compute_partition sd i p) in
  let Lu := local_rows (compute_partition sd (up i p) p) in
  exists g,
    waitall sd world w = Some (mkWorker (part w) g (next_buf w))
    /\ length g = length (grid_buf w)
    /\ forall j, 0 <= j ->
         flat g j =
           if j <? n then flat (grid_buf wu) (Lu * n + j)
           else if ((L + 1) * n <=? j) && (j <? (L + 2) * n)
                then flat (grid_buf wd) (n + (j - (L + 1) * n))
                else flat (grid_buf w) j.
Proof.
  intros Hi Hw Hwu Hwd L Lu.
  pose proof ring_count as Hp.
  assert (Hpr : p <= ring_max) by (destruct Hring as (_ & _ & H & _); exact H).
  pose proof (up_range i p Hi Hpr) as Hu.
  pose proof (down_range i p Hi ltac:(lia)) as Hdn.
  destruct (ring_entry _ _ Hw) as (_ & Hpart & Hg & _).
  destruct (ring_entry _ _ Hwu) as (_ & Hpartu & Hgu & _).
  destruct (ring_entry _ _ Hwd) as (_ & Hpartd & Hgd & _).
  rewrite Z2Nat.id in Hpart, Hg, Hpartu, Hgu, Hpartd, Hgd by lia.
  pose proof (ring_dims i Hi) as Hd.
  pose proof (ring_dims _ Hu) as Hdu.
  pose proof (ring_dims _ Hdn) as Hdd.
  pose proof Hd as Hd'. pose proof Hdu as Hdu'. pose proof Hdd as Hdd'.
  unfold dims_ok, int_max in Hd', Hdu', Hdd'. fold n L in Hd'. fold n Lu in Hdu'.
  fold n in Hdd'.
  unfold buffer_ok in Hg, Hgu, Hgd. fold n L in Hg. fold n Lu in Hgu. fold n in Hgd.
  assert (Ecount : to_int (grid_size sd) = n) by (apply (count_ok sd _ Hd)).
  assert (Er0 : row_ptr sd 0 = 0).
  { destruct (row_ptr_ok sd _ 0 Hd) as (E & _); [fold L; lia|]. rewrite E. lia. }
  assert (ErL : row_ptr sd (usize_add L 1) = (L + 1) * n).
  { replace (usize_add L 1) with (L + 1)
      by (unfold usize_add; symmetry; apply to_usize_id;
          unfold is_usize, usize_max; lia).
    destruct (row_ptr_ok sd _ (L + 1) Hd) as (E & _); [fold L; lia|]. exact E. }
  assert (ErLu : row_ptr sd Lu = Lu * n).
  { destruct (row_ptr_ok sd _ Lu Hdu) as (E & _); [fold Lu; lia|]. exact E. }
  assert (Er1 : row_ptr sd 1 = n).
  { destruct (row_ptr_ok sd _ 1 Hd) as (E & _); [fold L; lia|]. rewrite E. lia. }
  assert (Fu : find (matching_send i 0) (halo_requests sd (part wu))
               = Some (MPI_Isend (Lu * n) n i 0)).
  { rewrite Hpartu. pose proof (find_send_down sd (up i p) p) as F.
    rewrite (down_up i p Hi Hpr) in F. fold Lu in F.
    rewrite ErLu, Ecount in F. exact F. }
  assert (Fd : find (matching_send i 1) (halo_requests sd (part wd))
               = Some (MPI_Isend n n i 1)).
  { rewrite Hpartd. pose proof (find_send_up sd (down i p) p) as F.
    rewrite (up_down i p Hi Hpr) in F. rewrite Er1, Ecount in F. exact F. }
  unfold waitall. rewrite Hpart, halo_requests_partition. fold L.
  change (rank (compute_partition sd i p)) with i.
  rewrite Ecount, Er0, ErL. cbn [complete_all].
  assert (HLun : 0 <= Lu * n) by nia.
  assert (HLn : 0 <= (L + 1) * n) by nia.
  rewrite (complete_recv sd world i (grid_buf w) 0 n (up i p) 0 wu (Lu * n) n i 0);
    [ | lia | exact Hwu | exact Fu | lia | lia | nia | lia | lia | nia ].
  set (g1 := list_inserts (Z.to_nat 0) _ (grid_buf w)).
  assert (Hlen1 : length g1 = length (grid_buf w)) by apply length_inserts.
  rewrite (complete_recv sd world i g1 ((L + 1) * n) n (down i p) 1 wd n n i 1);
    [ | lia | exact Hwd | exact Fd | lia | lia | nia | lia | lia
      | rewrite Hlen1; nia ].
  cbn [complete].
  eexists. split; [reflexivity|]. split.
  - rewrite length_inserts. exact Hlen1.
  - intros j Hj.
    rewrite flat_inserts;
      [ | lia | rewrite Hlen1, length_take_drop; nia | exact Hj ].
    rewrite length_take_drop by nia.
    replace ((L + 1) * n + n) with ((L + 2) * n) by lia.
    subst g1. rewrite flat_inserts; [ | lia | rewrite length_take_drop; nia | exact Hj ].
    rewrite length_take_drop by nia.
    assert (n <= (L + 1) * n) by nia.
    destruct (Z.ltb_spec j n) as [H1|H1].
    + rewrite (proj2 (Z.leb_gt ((L + 1) * n) j)) by lia. cbn [andb].
      rewrite (proj2 (Z.leb_le 0 j)), (proj2 (Z.ltb_lt j (0 + n))) by lia.
      cbn [andb]. rewrite flat_take_drop by lia. f_equal; lia.
    + destruct (Z.leb_spec ((L + 1) * n) j) as [H2|H2];
        destruct (Z.ltb_spec j ((L + 2) * n)) as [H3|H3]; cbn [andb].
      * rewrite flat_take_drop by lia. reflexivity.
      * rewrite (proj2 (Z.ltb_ge j (0 + n))) by lia.
        now rewrite andb_false_r.
      * rewrite (proj2 (Z.ltb_ge j (0 + n))) by lia.
        now rewrite andb_false_r.
      * rewrite (proj2 (Z.ltb_ge j (0 + n))) by lia.
        now rewrite andb_false_r.
Qed.

(** The owned cells of rank [i] are the cells of its global rows. *)
Lemma ring_global_cell i w r c :
  0 <= i < p -> world !! Z.to_nat i = Some (Running w) ->
  1 <= r <= local_rows (compute_partition sd i p) ->
  global_cell sd p world (row_offset (compute_partition sd i p) + r - 1) c
  = cell n (grid_buf w) r c.
Proof.
  intros Hi Hw Hr.
  destruct (ring_entry _ _ Hw) as (_ & Hpart & _).
  rewrite Z2Nat.id in Hpart by lia.
  unfold global_cell.
  rewrite (owner_unique sd p ring_usize ring_count i) by (unfold owns; lia).
  rewrite Hw, Hpart. fold n. f_equal. lia.
Qed.

(** The global rows above and below an owned row [r] of rank [i]: inside
    the range of [i], or the last row of [up i], or the first of
    [down i]. *)
Lemma ring_neighbour_rows i r :
  0 <= i < p ->
  1 <= r <= local_rows (compute_partition sd i p) ->
  let me := compute_partition sd i p in
  let above := compute_partition sd (up i p) p in
  let below := compute_partition sd (down i p) p in
  let g := row_offset me + r - 1 in
  0 <= g < n
  /\ wrap_left n g
     = (if r =? 1 then row_offset above + local_rows above - 1 else g - 1)
  /\ wrap_right n g
     = (if r =? local_rows me then row_offset below else g + 1).
Proof.
  intros Hi Hr. cbv zeta. unfold n.
  pose proof ring_usize as Hus. pose proof ring_count as Hp.
  assert (Hpr : p <= ring_max) by (destruct Hring as (_ & _ & H & _); exact H).
  pose proof (offset_nonneg sd p Hus Hp i Hi) as Hoff. cbv beta zeta in Hoff.
  pose proof (range_end_le sd p Hus Hp i Hi) as Hend. cbv beta zeta in Hend.
  split; [lia|]. split.
  - unfold wrap_left.
    rewrite (up_closed i p Hi Hpr).
    destruct (pred_mod_cases i p Hi) as [[Hpos ->]|[-> ->]].
    + pose proof (partition_next_offset sd (i - 1) p Hus ltac:(lia) ltac:(lia) ltac:(lia))
        as Hnext.
      replace (i - 1 + 1) with i in Hnext by lia.
      pose proof (ring_dims (i - 1) ltac:(lia)) as Hdp. unfold dims_ok in Hdp.
      pose proof (offset_nonneg sd p Hus Hp (i - 1) ltac:(lia)) as Hop. cbv beta zeta in Hop.
      destruct (Z.eqb_spec r 1) as [->|Hr1].
      * rewrite (proj2 (Z.eqb_neq _ 0)) by lia. lia.
      * rewrite (proj2 (Z.eqb_neq _ 0)) by lia. reflexivity.
    + pose proof (first_offset sd p Hus Hp) as H0. cbv beta zeta in H0.
      pose proof (last_range_end sd p Hus Hp) as Hlast. cbv beta zeta in Hlast.
      destruct (Z.eqb_spec r 1) as [->|Hr1].
      * rewrite (proj2 (Z.eqb_eq _ 0)) by lia. lia.
      * rewrite (proj2 (Z.eqb_neq _ 0)) by lia. reflexivity.
  - unfold wrap_right.
    rewrite (down_closed i p Hi ltac:(lia)).
    destruct (succ_mod_cases i p Hi) as [[Hlt ->]|[Elast ->]].
    + pose proof (partition_next_offset sd i p Hus ltac:(lia) ltac:(lia) ltac:(lia))
        as Hnext.
      pose proof (ring_dims (i + 1) ltac:(lia)) as Hdn. unfold dims_ok in Hdn.
      pose proof (range_end_le sd p Hus Hp (i + 1) ltac:(lia)) as Hen. cbv beta zeta in Hen.
      destruct (Z.eqb_spec r (local_rows (compute_partition sd i p))) as [->|HrL].
      * rewrite (proj2 (Z.eqb_neq _ (grid_size sd - 1))) by lia. lia.
      * rewrite (proj2 (Z.eqb_neq _ (grid_size sd - 1))) by lia. reflexivity.
    + pose proof (first_offset sd p Hus Hp) as H0. cbv beta zeta in H0.
      pose proof (last_range_end sd p Hus Hp) as Hlast. cbv beta zeta in Hlast.
      assert (Ei : i = p - 1) by lia. rewrite Ei in *.
      destruct (Z.eqb_spec r (local_rows (compute_partition sd (p - 1) p))) as [->|HrL].
      * rewrite (proj2 (Z.eqb_eq _ (grid_size sd - 1))) by lia. lia.
      * rewrite (proj2 (Z.eqb_neq _ (grid_size sd - 1))) by lia. reflexivity.
Qed.

End Ring.

(** ** One generation of the whole ring *)

Lemma compute_next_cells sd w1 :
  dims_ok sd (part w1) ->
  buffer_ok sd (part w1) (grid_buf w1) -> Forall is_u8 (grid_buf w1) ->
  buffer_ok sd (part w1) (next_buf w1) ->
  exists w2, compute_next sd w1 = Some w2 /\ computed_from sd w1 w2.
Proof.
  intros Hd Hg Hu Hn.
  destruct (compute_next_spec sd w1 Hd Hg Hu Hn) as (next' & Hrun & Hlen & Hup).
  eexists. split; [exact Hrun|].
  unfold computed_from. cbn [part grid_buf next_buf].
  split; [reflexivity|]. split; [reflexivity|].
  split; [unfold buffer_ok in *; now rewrite Hlen|]. split.
  - intros Hnu. apply Forall_u8_flat. intros i Hi. rewrite Hup by lia.
    destruct (_ && _); [|apply flat_u8; assumption].
    unfold stencil_at, is_u8.
    match goal with |- context [life_rule ?a ?b] =>
      destruct (life_rule_bit a b) as [E|E]; rewrite E; lia end.
  - intros r c Hr Hc. unfold cell at 1.
    pose proof Hd as Hd'. unfold dims_ok in Hd'.
    set (n := grid_size sd) in *.
    assert (n <= r * n + c) by nia.
    assert (r * n + c < (local_rows (part w1) + 1) * n) by nia.
    rewrite Hup by lia.
    rewrite (proj2 (Z.leb_le _ _)), (proj2 (Z.ltb_lt _ _)) by lia.
    cbn [andb]. apply stencil_at_cell. exact Hc.
Qed.

Section RingGeneration.
Variable sd : SimulationData.
Variable p : Z.
Variable world : list Proc.
Hypothesis Hring : ring_ok sd p world.

Lemma ring_exchange_step k w :
  world !! k = Some (Running w) ->
  exists w1, waitall sd world w = Some w1 /\ exchanged_from sd p world w w1.
Proof.
  intros Hw.
  destruct (ring_entry sd p world Hring k w Hw) as (Hi & Hpart & Hg & Hu & Hnb & Hnu).
  set (i := Z.of_nat k) in *.
  assert (Hwi : world !! Z.to_nat i = Some (Running w))
    by (subst i; now rewrite Nat2Z.id).
  pose proof (ring_count sd p world Hring) as Hp.
  assert (Hpr : p <= ring_max) by (destruct Hring as (_ & _ & H & _); exact H).
  pose proof (up_range i p Hi Hpr) as Hur.
  pose proof (down_range i p Hi ltac:(lia)) as Hdr.
  destruct (ring_worker sd p world Hring _ Hur) as (wu & Hwu & Hpu & Hgu & Huu & _).
  destruct (ring_worker sd p world Hring _ Hdr) as (wd & Hwd & Hpd & Hgd & Hud & _).
  destruct (ring_waitall sd p world Hring i w wu wd Hi Hwi Hwu Hwd)
    as (g & Hwait & Hlen & Hflat).
  cbv zeta in Hflat.
  pose proof (ring_dims sd p world Hring i Hi) as Hd.
  pose proof (ring_dims sd p world Hring _ Hur) as Hdu.
  pose proof (ring_dims sd p world Hring _ Hdr) as Hdd.
  unfold dims_ok in Hd, Hdu, Hdd.
  exists (mkWorker (part w) g (next_buf w)). split; [exact Hwait|].
  unfold exchanged_from. cbn [part grid_buf next_buf]. rewrite Hpart.
  set (n := grid_size sd) in *.
  set (L := local_rows (compute_partition sd i p)) in *.
  set (Lu := local_rows (compute_partition sd (up i p) p)) in *.
  set (off := row_offset (compute_partition sd i p)) in *.
  split; [reflexivity|]. split; [reflexivity|].
  split; [unfold buffer_ok in *; now rewrite Hlen|].
  split.
  { apply Forall_u8_flat. intros j Hj. rewrite Hflat by lia.
    destruct (j <? n); [apply flat_u8; assumption|].
    destruct (_ && _); apply flat_u8; assumption. }
  intros r x Hr Hx. cbv zeta.
  destruct (ring_neighbour_rows sd p world Hring i r Hi Hr) as (Hgr & Hwl & Hwr).
  cbv zeta in Hgr, Hwl, Hwr. fold n off L Lu in Hgr, Hwl, Hwr.
  assert (Hown : forall r', 1 <= r' <= L ->
            cell n g r' x = global_cell sd p world (off + r' - 1) x).
  { intros r' Hr'.
    pose proof (ring_global_cell sd p world Hring i w r' x Hi Hwi Hr') as E.
    cbv zeta in E. fold n off in E. rewrite E. unfold cell.
    assert (n <= r' * n + x) by nia.
    assert (r' * n + x < (L + 1) * n) by nia.
    rewrite Hflat by lia.
    rewrite (proj2 (Z.ltb_ge _ n)) by lia.
    rewrite (proj2 (Z.leb_gt ((L + 1) * n) _)) by lia. reflexivity. }
  split; [|split].
  - rewrite Hwl. destruct (Z.eqb_spec r 1) as [->|Hr1].
    + pose proof (ring_global_cell sd p world Hring (up i p) wu Lu x Hur Hwu
                    ltac:(fold Lu; lia)) as E.
      cbv zeta in E. fold n Lu in E. rewrite E.
      unfold cell. rewrite Hflat by lia.
      rewrite (proj2 (Z.ltb_lt _ n)) by lia. f_equal; lia.
    + replace (off + r - 1 - 1) with (off + (r - 1) - 1) by lia.
      apply Hown. lia.
  - apply Hown. lia.
  - rewrite Hwr. destruct (Z.eqb_spec r L) as [->|HrL].
    + replace (row_offset (compute_partition sd (down i p) p))
        with (row_offset (compute_partition sd (down i p) p) + 1 - 1) by lia.
      pose proof (ring_global_cell sd p world Hring (down i p) wd 1 x Hdr Hwd
                    ltac:(lia)) as E.
      cbv zeta in E. fold n in E. rewrite E. unfold cell.
      assert ((L + 1) * n + x < (L + 2) * n) by nia.
      assert (n <= (L + 1) * n) by nia.
      rewrite Hflat by lia.
      rewrite (proj2 (Z.ltb_ge _ n)) by lia.
      rewrite (proj2 (Z.leb_le ((L + 1) * n) _)) by lia.
      rewrite (proj2 (Z.ltb_lt _ ((L + 2) * n))) by lia. cbn [andb].
      f_equal; lia.
    + replace (off + r - 1 + 1) with (off + (r + 1) - 1) by lia.
      apply Hown. lia.
Qed.

End RingGeneration.

Lemma world42_ok : ring_ok sd4 2 world42.
Proof.
  unfold ring_ok.
  split; [unfold int_max; simpl; lia|].
  split; [simpl; lia|]. split; [unfold ring_max; lia|].
  split; [reflexivity|].
  intros i Hi. assert (i = 0 \/ i = 1) as [-> | ->] by lia.
  - eexists. split; [reflexivity|]. split; [reflexivity|].
    cbn [grid_buf next_buf].
    repeat split; try reflexivity;
      repeat (apply Forall_cons; split; [unfold is_u8; lia|]); apply Forall_nil_2.
  - eexists. split; [reflexivity|]. split; [reflexivity|].
    cbn [grid_buf next_buf].
    repeat split; try reflexivity;
      repeat (apply Forall_cons; split; [unfold is_u8; lia|]); apply Forall_nil_2.
Qed.

(** X5. When every rank of the ring is in the loop ([size <= grid_size]),
    the exchange completes on all ranks; afterwards the top halo of rank
    [i] is the bottom owned row of [up i] before the exchange, its bottom
    halo is the top owned row of [down i], and its owned rows and second
    buffer are as before. *)
Theorem ring_halo_exchange (sd : SimulationData) (p : Z) (world : list Proc) :
  ring_ok sd p world ->
  exists world1,
    halo_exchange sd world = Some world1
    /\ length world1 = length world
    /\ forall i, 0 <= i < p ->
         exists w wu wd w1,
           world !! Z.to_nat i = Some (Running w)
           /\ world !! Z.to_nat (up i p) = Some (Running wu)
           /\ world !! Z.to_nat (down i p) = Some (Running wd)
           /\ world1 !! Z.to_nat i = Some (Running w1)
           /\ part w1 = part w /\ next_buf w1 = next_buf w
           /\ forall c, 0 <= c < grid_size sd ->
                cell (grid_size sd) (grid_buf w1) 0 c
                = cell (grid_size sd) (grid_buf wu) (local_rows (part wu)) c
                /\ cell (grid_size sd) (grid_buf w1) (local_rows (part w) + 1) c
                   = cell (grid_size sd) (grid_buf wd) 1 c
                /\ forall r, 1 <= r <= local_rows (part w) ->
                     cell (grid_size sd) (grid_buf w1) r c
                     = cell (grid_size sd) (grid_buf w) r c.
Proof.
  intros Hring.
  destruct (each_proc_spec (waitall sd world) (fun _ _ => True) world)
    as (world1 & Hex & Hlen & Hfwd & _ & _).
  { intros k w Hk.
    destruct (ring_exchange_step sd p world Hring k w Hk) as (w1 & Hw1 & _).
    exists w1. split; [exact Hw1 | exact I]. }
  exists world1. split; [exact Hex|]. split; [exact Hlen|].
  intros i Hi.
  pose proof (ring_count sd p world Hring) as Hp.
  assert (Hpr : p <= ring_max) by (destruct Hring as (_ & _ & H & _); exact H).
  pose proof (up_range i p Hi Hpr) as Hur.
  pose proof (down_range i p Hi ltac:(lia)) as Hdr.
  destruct (ring_worker sd p world Hring i Hi) as (w & Hw & Hpw & _).
  destruct (ring_worker sd p world Hring _ Hur) as (wu & Hwu & Hpu & _).
  destruct (ring_worker sd p world Hring _ Hdr) as (wd & Hwd & Hpd & _).
  destruct (ring_waitall sd p world Hring i w wu wd Hi Hw Hwu Hwd)
    as (g & Hwait & Hglen & Hflat).
  cbv zeta in Hflat.
  destruct (Hfwd _ _ Hw) as (w1 & Hw1 & Hwait' & _).
  rewrite Hwait in Hwait'. injection Hwait' as <-.
  exists w, wu, wd, (mkWorker (part w) g (next_buf w)).
  repeat (split; [assumption || reflexivity|]).
  cbn [grid_buf]. rewrite Hpw, Hpu.
  pose proof (ring_dims sd p world Hring i Hi) as Hd. unfold dims_ok in Hd.
  set (n := grid_size sd) in *.
  set (L := local_rows (compute_partition sd i p)) in *.
  intros c Hc. unfold cell. split; [|split].
  - rewrite Hflat by lia. rewrite (proj2 (Z.ltb_lt _ n)) by lia. f_equal; lia.
  - assert ((L + 1) * n + c < (L + 2) * n) by nia.
    assert (n <= (L + 1) * n) by nia.
    rewrite Hflat by lia.
    rewrite (proj2 (Z.ltb_ge _ n)) by lia.
    rewrite (proj2 (Z.leb_le ((L + 1) * n) _)) by lia.
    rewrite (proj2 (Z.ltb_lt _ ((L + 2) * n))) by lia. cbn [andb].
    f_equal; lia.
  - intros r Hr.
    assert (n <= r * n + c) by nia.
    assert (r * n + c < (L + 1) * n) by nia.
    rewrite Hflat by lia.
    rewrite (proj2 (Z.ltb_ge _ n)) by lia.
    rewrite (proj2 (Z.leb_gt ((L + 1) * n) _)) by lia. reflexivity.
Qed.

Lemma ring_halo_exchange_witness :
  exists world1,
    halo_exchange sd4 world42 = Some world1 /\ length world1 = length world42.
Proof.
  destruct (ring_halo_exchange sd4 2 world42 world42_ok) as (world1 & H1 & H2 & _).
  exists world1. split; [exact H1 | exact H2].
Defined.

Lemma ring_step_cells sd p world w w1 w2 :
  1 <= grid_size sd ->
  exchanged_from sd p world w w1 -> computed_from sd w1 w2 ->
  forall r c, 1 <= r <= local_rows (part w) -> 0 <= c < grid_size sd ->
    cell (grid_size sd) (next_buf w2) r c
    = torus_step (grid_size sd) (global_cell sd p world)
        (row_offset (part w) + r - 1) c.
Proof.
  intros Hn (Hp1 & _ & _ & _ & Hcells) (_ & _ & _ & _ & Hnew) r c Hr Hc.
  cbv zeta in Hcells, Hnew.
  rewrite Hnew by (rewrite ?Hp1; assumption).
  set (n := grid_size sd) in *.
  assert (Hwl : 0 <= wrap_left n c < n) by (unfold wrap_left; bool_cases).
  assert (Hwr : 0 <= wrap_right n c < n) by (unfold wrap_right; bool_cases).
  destruct (Hcells r c Hr Hc) as (A1 & A2 & A3).
  destruct (Hcells r (wrap_left n c) Hr Hwl) as (B1 & B2 & B3).
  destruct (Hcells r (wrap_right n c) Hr Hwr) as (C1 & C2 & C3).
  unfold torus_step, neighbour_sum.
  rewrite A1, A2, A3, B1, B2, B3, C1, C2, C3. reflexivity.
Qed.

(** One generation of a ring without early leavers, in global rows. *)
Lemma ring_generation (sd : SimulationData) (p : Z) (world : list Proc) :
  ring_ok sd p world ->
  exists world',
    generation sd world = Some world'
    /\ ring_ok sd p world'
    /\ forall g c, 0 <= g < grid_size sd -> 0 <= c < grid_size sd ->
         global_cell sd p world' g c
         = torus_step (grid_size sd) (global_cell sd p world) g c.
Proof.
  intros Hring.
  destruct (each_proc_spec (waitall sd world) (exchanged_from sd p world) world)
    as (world1 & Hex1 & Hlen1 & Hfwd1 & _ & Hback1).
  { apply (ring_exchange_step sd p world Hring). }
  destruct (each_proc_spec (compute_next sd) (computed_from sd) world1)
    as (world2 & Hex2 & Hlen2 & Hfwd2 & _ & _).
  { intros k w1 Hk. destruct (Hback1 k w1 Hk) as (w & Hw & _ & Hx).
    destruct (ring_entry sd p world Hring k w Hw) as (Hi & Hpart & _ & _ & Hnb & _).
    pose proof (ring_dims sd p world Hring _ Hi) as Hd.
    destruct Hx as (Hp1 & Hn1 & Hg1 & Hu1 & _).
    apply compute_next_cells; rewrite ?Hp1, ?Hn1, ?Hpart in *; assumption. }
  destruct (each_proc_spec (fun w => Some (swap_buffers w))
              (fun w2 w3 => w3 = swap_buffers w2) world2)
    as (world3 & Hex3 & Hlen3 & Hfwd3 & _ & _).
  { intros k w2 _. eexists. split; reflexivity. }
  assert (Hstep : forall i, 0 <= i < p ->
            exists w w3,
              world !! Z.to_nat i = Some (Running w)
              /\ world3 !! Z.to_nat i = Some (Running w3)
              /\ part w3 = compute_partition sd i p
              /\ buffer_ok sd (part w3) (grid_buf w3) /\ Forall is_u8 (grid_buf w3)
              /\ buffer_ok sd (part w3) (next_buf w3) /\ Forall is_u8 (next_buf w3)
              /\ forall r c, 1 <= r <= local_rows (compute_partition sd i p) ->
                   0 <= c < grid_size sd ->
                   cell (grid_size sd) (grid_buf w3) r c
                   = torus_step (grid_size sd) (global_cell sd p world)
                       (row_offset (compute_partition sd i p) + r - 1) c).
  { intros i Hi.
    destruct (ring_worker sd p world Hring i Hi) as (w & Hw & Hpart & Hg & Hu & Hnb & Hnu).
    destruct (Hfwd1 _ _ Hw) as (w1 & Hw1 & _ & Hx).
    destruct (Hfwd2 _ _ Hw1) as (w2 & Hw2 & _ & Hc).
    destruct (Hfwd3 _ _ Hw2) as (w3 & Hw3 & _ & ->).
    exists w, (swap_buffers w2). split; [exact Hw|]. split; [exact Hw3|].
    pose proof Hx as (Hp1 & Hn1 & Hg1 & Hu1 & _).
    pose proof Hc as (Hp2 & Hg2 & Hnb2 & Hnu2 & _).
    unfold swap_buffers. cbn [part grid_buf next_buf].
    rewrite Hp2, Hp1, Hpart, Hg2. rewrite Hp1, Hpart in Hnb2. rewrite Hpart in Hg1.
    split; [reflexivity|]. split; [exact Hnb2|].
    split; [apply Hnu2; rewrite Hn1; exact Hnu|].
    split; [exact Hg1|]. split; [exact Hu1|].
    intros r c Hr Hcc.
    pose proof (ring_step_cells sd p world w w1 w2) as Hs.
    rewrite Hpart in Hs. apply Hs; try assumption.
    destruct Hring as (Hn & _). lia. }
  assert (Hring' : ring_ok sd p world3).
  { destruct Hring as (Hn & Hp & Hpr & Hlen & _).
    unfold ring_ok.
    split; [exact Hn|]. split; [exact Hp|]. split; [exact Hpr|].
    split; [rewrite Hlen3, Hlen2, Hlen1; exact Hlen|].
    intros i Hi. destruct (Hstep i Hi) as (w & w3 & _ & Hw3 & Hp3 & H1 & H2 & H3 & H4 & _).
    exists w3. repeat split; assumption. }
  exists world3. split.
  { unfold generation, halo_exchange. rewrite Hex1, Hex2. exact Hex3. }
  split; [exact Hring'|].
  intros g c Hg Hc.
  destruct (owner_owns sd p (ring_usize sd p world Hring) (ring_count sd p world Hring) g Hg)
    as (Hi & Ho).
  set (i := owner sd p g) in *. unfold owns in Ho. cbv zeta in Ho.
  destruct (Hstep i Hi) as (w & w3 & _ & Hw3 & _ & _ & _ & _ & _ & Hcells).
  pose proof (ring_global_cell sd p world3 Hring' i w3
                (g - row_offset (compute_partition sd i p) + 1) c Hi Hw3 ltac:(lia)) as E.
  cbv zeta in E.
  replace (row_offset (compute_partition sd i p)
           + (g - row_offset (compute_partition sd i p) + 1) - 1) with g in E by lia.
  rewrite E, Hcells by lia. f_equal. lia.
Qed.

(** X6. One generation of the ring is one generation of the rule on the
    whole [n x n] torus: when every rank is in the loop, the generation
    (exchange, stencil update, swap) completes, the new world is again a
    well-formed ring, and its cell at every global position is the rule
    applied to the old distributed grid with both rows and columns
    wrapping; every cell of the new grid is 0 or 1. *)
Theorem distributed_generation (sd : SimulationData) (p : Z) (world : list Proc) :
  ring_ok sd p world ->
  exists world',
    generation sd world = Some world'
    /\ ring_ok sd p world'
    /\ forall g c, 0 <= g < grid_size sd -> 0 <= c < grid_size sd ->
         global_cell sd p world' g c
         = torus_step (grid_size sd) (global_cell sd p world) g c
         /\ (global_cell sd p world' g c = 0 \/ global_cell sd p world' g c = 1).
Proof.
  intros Hring.
  destruct (ring_generation sd p world Hring) as (world' & Hgen & Hring' & Hcells).
  exists world'. split; [exact Hgen|]. split; [exact Hring'|].
  intros g c Hg Hc. split; [apply Hcells; assumption|].
  rewrite Hcells by assumption. unfold torus_step. apply life_rule_bit.
Qed.

Lemma distributed_generation_witness :
  exists world',
    generation sd4 world42 = Some world'
    /\ global_cell sd4 2 world' 2 1
       = torus_step 4 (global_cell sd4 2 world42) 2 1.
Proof.
  destruct (distributed_generation sd4 2 world42 world42_ok) as (world' & Hg & _ & Hc).
  exists world'. split; [exact Hg|].
  apply (Hc 2 1); simpl; lia.
Defined.

(** ** Iterating the rule *)
(** ** Whole runs *)

Lemma torus_iter_ext n (k : nat) : forall f g,
  1 <= n ->
  (forall x y, 0 <= x < n -> 0 <= y < n -> f x y = g x y) ->
  forall r c, 0 <= r < n -> 0 <= c < n ->
    torus_iter n k f r c = torus_iter n k g r c.
Proof.
  induction k as [|k IH]; intros f g Hn Hfg r c Hr Hc; cbn [torus_iter].
  - apply Hfg; assumption.
  - apply IH; try assumption.
    intros x y Hx Hy. apply torus_step_ext; assumption.
Qed.

(** ** From start to finish *)

Lemma start_all_lookup bit sd p (count : nat) : forall first world,
  start_all bit sd p first count = Some world ->
  length world = count
  /\ forall k, (k < count)%nat ->
       exists pr, world !! k = Some pr
                  /\ start bit sd (first + Z.of_nat k) p = Some pr.
Proof.
  induction count as [|count IH]; intros first world H.
  - injection H as <-. split; [reflexivity|]. intros k Hk. lia.
  - cbn [start_all] in H.
    destruct (start bit sd first p) as [pr|] eqn:E; [|discriminate].
    destruct (start_all bit sd p (first + 1) count) as [rest|] eqn:Er; [|discriminate].
    injection H as <-. destruct (IH _ _ Er) as [Hlen Hk].
    split; [cbn; now rewrite Hlen|].
    intros [|k] Hlt.
    + exists pr. split; [reflexivity|]. now replace (first + Z.of_nat 0) with first by lia.
    + destruct (Hk k ltac:(lia)) as (pr' & H1 & H2). exists pr'.
      split; [exact H1|].
      now replace (first + Z.of_nat (S k)) with (first + 1 + Z.of_nat k) by lia.
Qed.

Lemma start_all_some bit sd p (count : nat) : forall first,
  (forall k, (k < count)%nat ->
     exists pr, start bit sd (first + Z.of_nat k) p = Some pr) ->
  exists world, start_all bit sd p first count = Some world.
Proof.
  induction count as [|count IH]; intros first H.
  - exists []. reflexivity.
  - destruct (H O ltac:(lia)) as (pr & Hpr).
    replace (first + Z.of_nat 0) with first in Hpr by lia.
    destruct (IH (first + 1)) as (rest & Hrest).
    { intros k Hk. destruct (H (S k) ltac:(lia)) as (pr' & Hpr').
      exists pr'.
      now replace (first + 1 + Z.of_nat k) with (first + Z.of_nat (S k)) by lia. }
    cbn [start_all]. rewrite Hpr, Hrest. eexists. reflexivity.
Qed.

Lemma initialize_part bit sd w w' :
  initialize bit sd w = Some w' -> part w' = part w.
Proof.
  unfold initialize, init_random, init_glider. intros H.
  destruct (id_type sd).
  - destruct (md_write_all _ _ _); [|discriminate]. now injection H as <-.
  - destruct (for_range _ _ _ _); [|discriminate]. now injection H as <-.
Qed.

Lemma start_running bit sd r p pr :
  start bit sd r p = Some pr -> local_rows (compute_partition sd r p) <> 0 ->
  exists w, pr = Running w /\ part w = compute_partition sd r p.
Proof.
  unfold start. intros H Hne.
  rewrite (proj2 (Z.eqb_neq _ 0) Hne) in H.
  destruct (initialize bit sd _) as [w|] eqn:E; [|discriminate].
  injection H as <-. exists w. split; [reflexivity|].
  apply initialize_part in E. exact E.
Qed.

Lemma up_zero p : 1 <= p <= int_max -> up 0 p = p - 1.
Proof.
  intros Hp. unfold up, int_rem, int_add, int_sub. unfold int_max in Hp.
  rewrite (to_int_id (0 - 1)) by (unfold is_int, int_min, int_max; lia).
  rewrite to_int_id by (unfold is_int, int_min, int_max; lia).
  replace (0 - 1 + p) with (p - 1) by lia. apply Z.rem_small. lia.
Qed.

(** A rank whose view holds all accesses of its pattern starts in the
    loop with well-formed buffers. *)
Lemma start_ok bit sd r p :
  (forall s k, is_u8 (bit s k)) ->
  1 <= grid_size sd <= int_max -> 0 <= r < p -> p <= int_max ->
  match id_type sd with
  | random_id => 1 <= local_rows (compute_partition sd r p)
  | glider_id => 2 <= local_rows (compute_partition sd r p) /\ 3 <= grid_size sd
  end ->
  exists w,
    start bit sd r p = Some (Running w)
    /\ part w = compute_partition sd r p
    /\ buffer_ok sd (part w) (grid_buf w) /\ Forall is_u8 (grid_buf w)
    /\ buffer_ok sd (part w) (next_buf w) /\ Forall is_u8 (next_buf w).
Proof.
  intros Hbit Hn Hr Hp Hpat.
  assert (Hus : is_usize (grid_size sd))
    by (unfold is_usize, usize_max, int_max in *; lia).
  pose proof (local_rows_bounds sd r p Hus Hr Hp) as HLb.
  assert (HL : 1 <= local_rows (compute_partition sd r p))
    by (destruct (id_type sd); lia).
  assert (Hd : dims_ok sd (compute_partition sd r p)) by (unfold dims_ok; lia).
  destruct (allocate_ok sd _ Hd) as [Hg Hnx].
  assert (Hzero : Forall is_u8 (next_buf (allocate sd (compute_partition sd r p)))).
  { unfold allocate. cbn [next_buf]. apply Forall_replicate. unfold is_u8. lia. }
  unfold start, initialize. rewrite (proj2 (Z.eqb_neq _ 0)) by lia.
  destruct (id_type sd).
  - destruct (init_glider_ok sd _ Hd) as (g & -> & Hgb & Hgu & _); [lia | lia |].
    eexists. split; [reflexivity|]. cbn [part grid_buf next_buf].
    repeat split; assumption.
  - destruct (init_random_spec bit sd (allocate sd (compute_partition sd r p)) Hd Hg)
      as (g & -> & Hlen & Hs).
    eexists. split; [reflexivity|]. cbn [part grid_buf next_buf].
    change (part (allocate sd (compute_partition sd r p)))
      with (compute_partition sd r p) in *.
    split; [reflexivity|].
    split; [unfold buffer_ok in *; now rewrite Hlen|].
    split; [|split; assumption].
    apply Forall_u8_flat. intros i Hi. rewrite Hs by lia.
    destruct (_ && _); [apply Hbit|].
    unfold allocate. cbn [grid_buf]. rewrite flat_replicate. unfold is_u8. lia.
Qed.

(** ** Loops over the owned cells *)

Lemma seqZ_one m : seqZ m 1 = [m].
Proof. rewrite seqZ_cons by lia. rewrite seqZ_nil by lia. reflexivity. Qed.

Lemma seqZ_snoc m k : 0 <= k -> seqZ m (k + 1) = seqZ m k ++ [m + k].
Proof.
  intros Hk. rewrite seqZ_app by lia. now rewrite seqZ_one.
Qed.

Lemma cells_of_snoc n first k :
  0 <= k ->
  cells_of n first (k + 1)
  = cells_of n first k ++ map (fun c => (first + k, c)) (seqZ 0 n).
Proof.
  intros Hk. unfold cells_of. rewrite seqZ_snoc by lia.
  rewrite flat_map_app. cbn [flat_map]. now rewrite app_nil_r.
Qed.

Section CellLoops.
Context {St : Type}.
Variable sd : SimulationData.
Variable p : Partition.
Hypothesis Hdims : dims_ok sd p.
Variable grid : list Z.
Hypothesis Hgrid : buffer_ok sd p grid.
Variable step : Z -> Z -> Z -> St -> St.

Let n := grid_size sd.
Let L := local_rows p.
Let visit (s : St) (rc : Z * Z) : St :=
  step (fst rc) (snd rc) (cell n grid (fst rc) (snd rc)) s.

(** Two nested loops that read every owned cell once fold their body over
    the owned positions in row-major order. *)
Lemma cell_loops (s0 : St) :
  for_range 1 (L + 1)
    (fun r =>
       for_range 0 n
         (fun c (s : St) =>
            let? x := md_read (view sd p) grid r c in Some (step r c x s)))
    s0
  = Some (fold_left visit (cells_of n 1 L) s0).
Proof.
  pose proof Hdims as Hd. unfold dims_ok in Hd. fold n L in Hd.
  destruct (for_range_inv
              (fun r s => s = fold_left visit (cells_of n 1 (r - 1)) s0)
              (fun r =>
                 for_range 0 n
                   (fun c (s : St) =>
                      let? x := md_read (view sd p) grid r c in Some (step r c x s)))
              1 (L + 1) s0) as (s' & Hrun & Hs').
  - lia.
  - reflexivity.
  - intros r s Hr ->.
    destruct (for_range_inv
                (fun c s => s = fold_left visit
                                  (cells_of n 1 (r - 1)
                                   ++ map (fun c => (r, c)) (seqZ 0 c)) s0)
                (fun c (s : St) =>
                   let? x := md_read (view sd p) grid r c in Some (step r c x s))
                0 n (fold_left visit (cells_of n 1 (r - 1)) s0)) as (t & Hrun & Ht).
    + lia.
    + now rewrite app_nil_r.
    + intros c s Hc ->.
      rewrite (md_read_view sd p Hdims grid r c Hgrid) by (fold L n; lia).
      eexists. split; [reflexivity|].
      rewrite seqZ_snoc by lia. replace (0 + c) with c by lia.
      rewrite map_app, app_assoc.
      rewrite (fold_left_app visit _ (map (fun c0 => (r, c0)) [c])).
      reflexivity.
    + exists t. split; [exact Hrun|]. rewrite Ht.
      replace (r + 1 - 1) with (r - 1 + 1) by lia.
      rewrite cells_of_snoc by lia. now replace (1 + (r - 1)) with r by lia.
  - rewrite Hrun, Hs'. now replace (L + 1 - 1) with L by lia.
Qed.

End CellLoops.

Lemma fold_left_snoc {A B : Type} (f : A -> B) (l : list A) : forall acc,
  fold_left (fun out x => out ++ [f x]) l acc = acc ++ map f l.
Proof.
  induction l as [|x l IH]; intros acc; cbn [fold_left map].
  - now rewrite app_nil_r.
  - rewrite IH, <- app_assoc. reflexivity.
Qed.

Lemma to_long_id z : - 2 ^ 63 <= z <= long_max -> to_long z = z.
Proof.
  unfold to_long, long_max. intros H. rewrite Z.mod_small by lia. lia.
Qed.

Lemma fold_left_sum {A : Type} (f : A -> Z) (l : list A) : forall s,
  (forall x, In x l -> 0 <= f x <= 255) ->
  0 <= s -> s + 255 * Z.of_nat (length l) <= long_max ->
  fold_left (fun s x => to_long (s + f x)) l s
  = s + fold_right (fun x t => f x + t) 0 l
  /\ 0 <= fold_right (fun x t => f x + t) 0 l <= 255 * Z.of_nat (length l).
Proof.
  induction l as [|x l IH]; intros s Hf Hs Hb; cbn [fold_left fold_right length].
  - lia.
  - pose proof (Hf x (or_introl eq_refl)) as Hx. cbn [length] in Hb.
    rewrite to_long_id by (unfold long_max in *; lia).
    destruct (IH (s + f x)) as [E Hr].
    + intros y Hy. apply Hf. now right.
    + lia.
    + lia.
    + rewrite E. lia.
Qed.

Lemma length_cells_of_nat n first (k : nat) :
  0 <= n ->
  Z.of_nat (length (cells_of n first (Z.of_nat k))) = Z.of_nat k * n.
Proof.
  intros Hn. induction k as [|k IH]; [reflexivity|].
  unfold cells_of in *.
  rewrite seqZ_S, flat_map_app, length_app, Nat2Z.inj_add, IH.
  cbn [flat_map]. rewrite app_nil_r, length_map, length_seqZ. lia.
Qed.

Lemma length_cells_of n first count :
  0 <= n -> 0 <= count ->
  Z.of_nat (length (cells_of n first count)) = count * n.
Proof.
  intros Hn Hc. rewrite <- (Z2Nat.id count Hc).
  apply length_cells_of_nat. exact Hn.
Qed.

(** ** Records and sums of one rank *)

Lemma in_cells_of n first count r c :
  In (r, c) (cells_of n first count)
  <-> first <= r < first + count /\ 0 <= c < n.
Proof.
  unfold cells_of. rewrite in_flat_map. split.
  - intros (r' & Hr' & Hin). apply in_map_iff in Hin as (c' & E & Hc').
    injection E as -> ->.
    apply list_elem_of_In, elem_of_seqZ in Hr'.
    apply list_elem_of_In, elem_of_seqZ in Hc'. lia.
  - intros [Hr Hc]. exists r. split.
    + apply list_elem_of_In, elem_of_seqZ. lia.
    + apply in_map_iff. exists c. split; [reflexivity|].
      apply list_elem_of_In, elem_of_seqZ. lia.
Qed.

Lemma cells_of_shift n first d (k : nat) :
  cells_of n (first + d) (Z.of_nat k)
  = map (fun rc => (fst rc + d, snd rc)) (cells_of n first (Z.of_nat k)).
Proof.
  induction k as [|k IH]; [reflexivity|].
  replace (Z.of_nat (S k)) with (Z.of_nat k + 1) by lia.
  rewrite !cells_of_snoc by lia. rewrite map_app, IH, map_map. cbn [fst snd].
  f_equal. apply map_ext. intros c. f_equal. lia.
Qed.

Lemma cells_of_rank n off L :
  0 <= L ->
  cells_of n off L = map (fun rc => (fst rc + (off - 1), snd rc)) (cells_of n 1 L).
Proof.
  intros HL. pose proof (cells_of_shift n 1 (off - 1) (Z.to_nat L)) as H.
  rewrite Z2Nat.id in H by lia.
  now replace (1 + (off - 1)) with off in H by lia.
Qed.

Lemma grid_records_app n f first a b :
  0 <= a -> 0 <= b ->
  grid_records n f first (a + b)
  = grid_records n f first a ++ grid_records n f (first + a) b.
Proof.
  intros Ha Hb. unfold grid_records, cells_of.
  rewrite seqZ_app by lia. now rewrite flat_map_app, map_app.
Qed.

Lemma length_grid_records n f first count :
  0 <= n -> 0 <= count ->
  Z.of_nat (length (grid_records n f first count)) = count * n.
Proof.
  intros Hn Hc. unfold grid_records. rewrite length_map.
  apply length_cells_of; assumption.
Qed.

Lemma records_sum_app l1 l2 :
  records_sum (l1 ++ l2) = records_sum l1 + records_sum l2.
Proof.
  unfold records_sum. induction l1 as [|x l1 IH]; cbn [app fold_right]; lia.
Qed.

Lemma fold_right_map_sum {A : Type} (F : A -> Z * Z * Z) (v : A -> Z) (l : list A) :
  (forall x, snd (F x) = v x) ->
  fold_right (fun rec s => snd rec + s) 0 (map F l)
  = fold_right (fun x t => v x + t) 0 l.
Proof.
  intros H. induction l as [|x l IH]; [reflexivity|].
  cbn [map fold_right]. now rewrite IH, H.
Qed.

Section RankOutput.
Variable sd : SimulationData.
Variable w : Worker.
Hypothesis Hdims : dims_ok sd (part w).
Hypothesis Hgrid : buffer_ok sd (part w) (grid_buf w).

(** The grid of the rows of this rank, read in its current buffer. *)
Let mine (g c : Z) : Z :=
  cell (grid_size sd) (grid_buf w) (g - row_offset (part w) + 1) c.

Lemma dump_records_spec :
  0 <= row_offset (part w) ->
  row_offset (part w) + local_rows (part w) <= usize_max ->
  dump_records sd w
  = Some (grid_records (grid_size sd) mine (row_offset (part w))
            (local_rows (part w))).
Proof.
  intros Hoff Hend. unfold dump_records.
  pose proof (cell_loops sd (part w) Hdims (grid_buf w) Hgrid
                (fun r c x (out : list (Z * Z * Z)) =>
                   out ++ [(usize_add (row_offset (part w)) (usize_sub r 1), c, x)])
                []) as E.
  cbv beta zeta in E |- *. rewrite E. f_equal.
  rewrite (fold_left_snoc
             (fun rc : Z * Z =>
                (usize_add (row_offset (part w)) (usize_sub (fst rc) 1), snd rc,
                 cell (grid_size sd) (grid_buf w) (fst rc) (snd rc)))).
  cbn [app]. unfold grid_records.
  pose proof Hdims as Hd. unfold dims_ok in Hd.
  rewrite (cells_of_rank (grid_size sd) (row_offset (part w)) (local_rows (part w)))
    by lia.
  rewrite map_map. apply map_ext_in.
  intros [r c] Hin. apply in_cells_of in Hin. cbn [fst snd]. unfold mine.
  unfold usize_add, usize_sub.
  rewrite (to_usize_id (r - 1)) by (unfold is_usize; lia).
  rewrite to_usize_id by (unfold is_usize; lia).
  f_equal; [f_equal; lia|]. f_equal. lia.
Qed.

Lemma local_sum_spec :
  Forall is_u8 (grid_buf w) ->
  255 * (local_rows (part w) * grid_size sd) <= long_max ->
  0 <= row_offset (part w) ->
  local_sum sd w
  = Some (records_sum (grid_records (grid_size sd) mine (row_offset (part w))
                         (local_rows (part w))))
  /\ 0 <= records_sum (grid_records (grid_size sd) mine (row_offset (part w))
                         (local_rows (part w)))
     <= 255 * (local_rows (part w) * grid_size sd).
Proof.
  intros Hu8 Hbound Hoff. unfold local_sum.
  pose proof (cell_loops sd (part w) Hdims (grid_buf w) Hgrid
                (fun r c x (s : Z) => to_long (s + x)) 0) as E.
  cbv beta zeta in E |- *. rewrite E. clear E.
  pose proof Hdims as Hd. unfold dims_ok in Hd.
  pose proof (length_cells_of (grid_size sd) 1 (local_rows (part w))
                ltac:(lia) ltac:(lia)) as Hlen.
  destruct (fold_left_sum
              (fun rc : Z * Z => cell (grid_size sd) (grid_buf w) (fst rc) (snd rc))
              (cells_of (grid_size sd) 1 (local_rows (part w))) 0) as [Efold Hrange].
  - intros x _. apply flat_u8. exact Hu8.
  - lia.
  - rewrite Hlen. lia.
  - rewrite Efold. rewrite Hlen in Hrange.
    assert (Esum : records_sum (grid_records (grid_size sd) mine (row_offset (part w))
                                  (local_rows (part w)))
                   = fold_right
                       (fun (x : Z * Z) t =>
                          cell (grid_size sd) (grid_buf w) (fst x) (snd x) + t) 0
                       (cells_of (grid_size sd) 1 (local_rows (part w)))).
    { unfold records_sum, grid_records.
      rewrite (cells_of_rank (grid_size sd) (row_offset (part w)) (local_rows (part w)))
        by lia.
      rewrite map_map. apply fold_right_map_sum.
      intros [r c]. cbn [fst snd]. unfold mine. f_equal. lia. }
    rewrite Esum. split; [f_equal; lia | lia].
Qed.

End RankOutput.

(** ** Records and sums of the whole ring *)

Lemma dump_all_spec sd (F : nat -> list (Z * Z * Z)) (world : list Proc) :
  forall base,
  (forall k w, world !! k = Some (Running w) ->
     dump_records sd w = Some (F (base + k)%nat)) ->
  (forall k pr, world !! k = Some pr -> (forall w, pr <> Running w) ->
     F (base + k)%nat = []) ->
  dump_all sd world = Some (map F (seq base (length world))).
Proof.
  induction world as [|pr rest IH]; intros base Hrun Hex; [reflexivity|].
  cbn [dump_all length seq map].
  rewrite (IH (S base)).
  - destruct pr as [st calls| |w].
    + pose proof (Hex O _ eq_refl ltac:(discriminate)) as E.
      rewrite Nat.add_0_r in E. now rewrite E.
    + pose proof (Hex O _ eq_refl ltac:(discriminate)) as E.
      rewrite Nat.add_0_r in E. now rewrite E.
    + pose proof (Hrun O w eq_refl) as E.
      rewrite Nat.add_0_r in E. now rewrite E.
  - intros k w Hk. replace (S base + k)%nat with (base + S k)%nat by lia.
    apply Hrun. exact Hk.
  - intros k pr' Hk Hne. replace (S base + k)%nat with (base + S k)%nat by lia.
    eapply Hex; eassumption.
Qed.

Lemma reduce_sum_spec sd (S : nat -> Z) (world : list Proc) :
  forall base,
  (forall k, (k < length world)%nat ->
     exists w, world !! k = Some (Running w)
               /\ local_sum sd w = Some (S (base + k)%nat)
               /\ 0 <= S (base + k)%nat) ->
  fold_right Z.add 0 (map S (seq base (length world))) <= long_max ->
  reduce_sum sd world
  = Some (fold_right Z.add 0 (map S (seq base (length world))))
  /\ 0 <= fold_right Z.add 0 (map S (seq base (length world))).
Proof.
  induction world as [|pr rest IH]; intros base Hrun Hb.
  - split; [reflexivity | cbn; lia].
  - cbn [length seq map fold_right] in Hb |- *.
    destruct (Hrun O ltac:(cbn; lia)) as (w & Hw & Hs & Hpos).
    rewrite Nat.add_0_r in Hs, Hpos. cbn in Hw. injection Hw as ->.
    assert (Hrest : forall k, (k < length rest)%nat ->
              exists w, rest !! k = Some (Running w)
                        /\ local_sum sd w = Some (S (Datatypes.S base + k)%nat)
                        /\ 0 <= S (Datatypes.S base + k)%nat).
    { intros k Hk. destruct (Hrun (Datatypes.S k) ltac:(cbn; lia)) as (w' & H1 & H2 & H3).
      exists w'. replace (Datatypes.S base + k)%nat with (base + Datatypes.S k)%nat by lia.
      repeat split; assumption. }
    assert (Hge : 0 <= fold_right Z.add 0 (map S (seq (Datatypes.S base) (length rest)))).
    { clear -Hrest. revert Hrest. generalize (Datatypes.S base) as b.
      induction rest as [|x rest IH]; intros b H; [cbn; lia|].
      cbn [length seq map fold_right].
      destruct (H O ltac:(cbn; lia)) as (_ & _ & _ & Hp). rewrite Nat.add_0_r in Hp.
      assert (0 <= fold_right Z.add 0 (map S (seq (Datatypes.S b) (length rest)))).
      { apply IH. intros k Hk.
        destruct (H (Datatypes.S k) ltac:(cbn; lia)) as (w' & H1 & H2 & H3).
        exists w'. replace (Datatypes.S b + k)%nat with (b + Datatypes.S k)%nat by lia.
        repeat split; assumption. }
      lia. }
    destruct (IH (Datatypes.S base) Hrest ltac:(lia)) as [E _].
    cbn [reduce_sum]. rewrite Hs, E.
    rewrite to_long_id by (unfold long_max in *; lia). split; [reflexivity | lia].
Qed.

Lemma records_sum_concat (F : nat -> list (Z * Z * Z)) (l : list nat) :
  fold_right Z.add 0 (map (fun k => records_sum (F k)) l)
  = records_sum (concat (map F l)).
Proof.
  induction l as [|k l IH]; [reflexivity|].
  cbn [map fold_right concat]. now rewrite records_sum_app, IH.
Qed.

Lemma records_sum_bound (l : list (Z * Z * Z)) :
  (forall rec, In rec l -> 0 <= snd rec <= 255) ->
  0 <= records_sum l <= 255 * Z.of_nat (length l).
Proof.
  unfold records_sum. induction l as [|x l IH]; intros H; cbn [fold_right length].
  - lia.
  - pose proof (H x (or_introl eq_refl)).
    assert (0 <= fold_right (fun rec s => snd rec + s) 0 l <= 255 * Z.of_nat (length l))
      by (apply IH; intros r Hr; apply H; now right).
    lia.
Qed.

Section RingOutput.
Variable sd : SimulationData.
Variable p : Z.
Variable world : list Proc.
Hypothesis Hring : ring_ok sd p world.

Let n := grid_size sd.
Let part_of (k : nat) : Partition := compute_partition sd (Z.of_nat k) p.
Let records_of (k : nat) : list (Z * Z * Z) :=
  grid_records n (global_cell sd p world)
    (row_offset (part_of k)) (local_rows (part_of k)).

Lemma global_cell_u8 g c : is_u8 (global_cell sd p world g c).
Proof.
  unfold global_cell.
  destruct (world !! Z.to_nat (owner sd p g)) as [[st calls| |w]|] eqn:E;
    try (unfold is_u8; lia).
  destruct (ring_entry sd p world Hring _ _ E) as (_ & _ & _ & Hu & _).
  apply flat_u8. exact Hu.
Qed.

Lemma ring_rank_records k w :
  world !! k = Some (Running w) ->
  grid_records n
    (fun g c => cell n (grid_buf w) (g - row_offset (part w) + 1) c)
    (row_offset (part w)) (local_rows (part w))
  = records_of k.
Proof.
  intros Hw.
  destruct (ring_entry sd p world Hring k w Hw) as (Hi & Hpart & _).
  unfold records_of, part_of, grid_records. rewrite Hpart.
  apply map_ext_in. intros [g c] Hin. apply in_cells_of in Hin. cbn [fst snd].
  f_equal.
  pose proof (ring_global_cell sd p world Hring (Z.of_nat k) w
                (g - row_offset (compute_partition sd (Z.of_nat k) p) + 1) c Hi) as E.
  cbv zeta in E. rewrite Nat2Z.id in E. specialize (E Hw ltac:(lia)).
  fold n in E. rewrite <- E. f_equal. lia.
Qed.

Lemma ring_records_prefix (k : nat) :
  Z.of_nat k < p ->
  concat (map records_of (seq 0 (S k)))
  = grid_records n (global_cell sd p world) 0
      (row_offset (part_of k) + local_rows (part_of k)).
Proof.
  pose proof (ring_usize sd p world Hring) as Hus.
  pose proof (ring_count sd p world Hring) as Hp.
  induction k as [|k IH]; intros Hk.
  - cbn [seq map concat]. rewrite app_nil_r. unfold records_of, part_of.
    pose proof (first_offset sd p Hus Hp) as H0. cbv beta zeta in H0.
    change (Z.of_nat 0) with 0. rewrite H0. reflexivity.
  - rewrite seq_S, map_app, concat_app, IH by lia.
    cbn [Nat.add map concat]. rewrite app_nil_r. unfold records_of at 1.
    pose proof (partition_next_offset sd (Z.of_nat k) p Hus ltac:(lia) ltac:(lia)
                  ltac:(lia)) as Hnext.
    pose proof (offset_nonneg sd p Hus Hp (Z.of_nat k) ltac:(lia)) as Hoff.
    cbv beta zeta in Hoff.
    pose proof (ring_dims sd p world Hring (Z.of_nat k) ltac:(lia)) as Hd.
    pose proof (ring_dims sd p world Hring (Z.of_nat (S k)) ltac:(lia)) as Hd'.
    unfold dims_ok in Hd, Hd'. unfold part_of.
    replace (Z.of_nat k + 1) with (Z.of_nat (S k)) in Hnext by lia.
    rewrite Hnext.
    rewrite (grid_records_app n _ 0
               (row_offset (compute_partition sd (Z.of_nat k) p)
                + local_rows (compute_partition sd (Z.of_nat k) p))
               (local_rows (compute_partition sd (Z.of_nat (S k)) p)))
      by lia.
    f_equal.
Qed.

Lemma ring_records_all :
  concat (map records_of (seq 0 (Z.to_nat p)))
  = grid_records n (global_cell sd p world) 0 n.
Proof.
  pose proof (ring_usize sd p world Hring) as Hus.
  pose proof (ring_count sd p world Hring) as Hp.
  replace (Z.to_nat p) with (S (Z.to_nat (p - 1))) by lia.
  rewrite ring_records_prefix by lia. unfold part_of.
  rewrite Z2Nat.id by lia.
  pose proof (last_range_end sd p Hus Hp) as Hlast. cbv beta zeta in Hlast.
  now rewrite Hlast.
Qed.

End RingOutput.

Lemma ring_all_running sd p world k pr :
  ring_ok sd p world -> world !! k = Some pr -> exists w, pr = Running w.
Proof.
  intros Hring Hk.
  assert (Hlt : (k < length world)%nat) by (eapply lookup_lt_Some; eassumption).
  assert (Hi : 0 <= Z.of_nat k < p)
    by (destruct Hring as (_ & _ & _ & Hlen & _); lia).
  destruct (ring_worker sd p world Hring _ Hi) as (w & Hw & _).
  rewrite Nat2Z.id, Hk in Hw. injection Hw as ->. now exists w.
Qed.

Lemma ring_rank_range sd p world k w :
  ring_ok sd p world -> world !! k = Some (Running w) ->
  dims_ok sd (part w) /\ buffer_ok sd (part w) (grid_buf w)
  /\ Forall is_u8 (grid_buf w)
  /\ 0 <= row_offset (part w)
  /\ row_offset (part w) + local_rows (part w) <= grid_size sd.
Proof.
  intros Hring Hw.
  destruct (ring_entry sd p world Hring k w Hw) as (Hi & Hpart & Hg & Hu & _).
  pose proof (ring_usize sd p world Hring) as Hus.
  pose proof (ring_count sd p world Hring) as Hp.
  pose proof (offset_nonneg sd p Hus Hp _ Hi) as Hoff. cbv beta zeta in Hoff.
  pose proof (range_end_le sd p Hus Hp _ Hi) as Hend. cbv beta zeta in Hend.
  rewrite Hpart.
  split; [apply (ring_dims sd p world Hring _ Hi)|].
  split; [exact Hg|]. split; [exact Hu|]. split; [exact Hoff | exact Hend].
Qed.

(** X10. The data dump of one generation lists the distributed grid in
    global coordinates: the records of rank [i] are its owned rows
    [row_offset .. row_offset + local_rows - 1], row by row, each record
    the global row, the column and the state; the records of all ranks,
    taken in rank order, are the cells of the whole [n x n] grid in
    row-major order, each exactly once. *)
Theorem snapshot_tiles_grid (sd : SimulationData) (p : Z) (world : list Proc) :
  ring_ok sd p world ->
  let n := grid_size sd in
  exists files,
    dump_all sd world = Some files
    /\ length files = Z.to_nat p
    /\ (forall i, 0 <= i < p ->
          files !! Z.to_nat i
          = Some (grid_records n (global_cell sd p world)
                    (row_offset (compute_partition sd i p))
                    (local_rows (compute_partition sd i p))))
    /\ concat files = grid_records n (global_cell sd p world) 0 n.
Proof.
  intros Hring n.
  set (F := fun k : nat =>
              grid_records n (global_cell sd p world)
                (row_offset (compute_partition sd (Z.of_nat k) p))
                (local_rows (compute_partition sd (Z.of_nat k) p))).
  assert (Hlen : length world = Z.to_nat p)
    by (destruct Hring as (_ & _ & _ & Hlen & _); lia).
  assert (Hdump : dump_all sd world = Some (map F (seq 0 (length world)))).
  { apply dump_all_spec.
    - intros k w Hw. cbn [Nat.add].
      destruct (ring_rank_range sd p world k w Hring Hw) as (Hd & Hg & _ & Hoff & Hend).
      rewrite (dump_records_spec sd w Hd Hg Hoff).
      + f_equal. pose proof (ring_rank_records sd p world Hring k w Hw) as E.
        cbv beta zeta in E. exact E.
      + destruct Hring as (Hn & _). unfold usize_max, int_max in *. lia.
    - intros k pr Hk Hne. exfalso.
      destruct (ring_all_running sd p world k pr Hring Hk) as (w & ->).
      now apply (Hne w). }
  exists (map F (seq 0 (length world))).
  split; [exact Hdump|]. split; [now rewrite length_map, length_seq|].
  split.
  - intros i Hi.
    rewrite list_lookup_fmap, lookup_seq_lt by lia. cbn [fmap option_fmap option_map].
    unfold F. cbn [Nat.add]. now rewrite Z2Nat.id by lia.
  - rewrite Hlen. pose proof (ring_records_all sd p world Hring) as E.
    cbv beta zeta in E. exact E.
Qed.

Lemma snapshot_tiles_grid_witness :
  exists files,
    dump_all sd4 world42 = Some files
    /\ concat files = grid_records 4 (global_cell sd4 2 world42) 0 4.
Proof.
  destruct (snapshot_tiles_grid sd4 2 world42 world42_ok) as (files & H1 & _ & _ & H2).
  exists files. split; [exact H1 | exact H2].
Defined.

(** X11. The diagnostic of a loop pass is the sum of all cells of the
    distributed grid (the number of live cells when the cells are 0 or
    1): with buffers small enough for the [long] accumulators, the
    reduction over a ring without early leavers yields the sum of the
    states of the whole [n x n] grid; rank 0 prints it, with the step, in
    the passes whose step is a multiple of [stats_every], and nothing in
    the others; with [stats_every = 0] the test of the first pass divides
    by zero and has no result. *)
Theorem diagnostic_counts_grid (sd : SimulationData) (p : Z) (world : list Proc)
    (step : Z) :
  ring_ok sd p world ->
  255 * (grid_size sd * grid_size sd) <= long_max ->
  let n := grid_size sd in
  let total := records_sum (grid_records n (global_cell sd p world) 0 n) in
  reduce_sum sd world = Some total
  /\ 0 <= total <= 255 * (n * n)
  /\ (stats_every sd = 0 -> stats_line sd world step = None)
  /\ (stats_every sd <> 0 ->
      stats_line sd world step
      = Some (if step mod stats_every sd =? 0 then Some (step, total) else None)).
Proof.
  intros Hring Hbound n total.
  set (F := fun k : nat =>
              grid_records n (global_cell sd p world)
                (row_offset (compute_partition sd (Z.of_nat k) p))
                (local_rows (compute_partition sd (Z.of_nat k) p))).
  assert (Hlen : length world = Z.to_nat p)
    by (destruct Hring as (_ & _ & _ & Hlen & _); lia).
  assert (Hn : 1 <= n <= int_max) by (destruct Hring as (Hn & _); exact Hn).
  assert (Htotal : fold_right Z.add 0
                     (map (fun k => records_sum (F k)) (seq 0 (length world)))
                   = total).
  { rewrite records_sum_concat, Hlen.
    pose proof (ring_records_all sd p world Hring) as E. cbv beta zeta in E.
    unfold F. fold n in E. now rewrite E. }
  assert (Hrange : 0 <= total <= 255 * (n * n)).
  { subst total.
    pose proof (records_sum_bound (grid_records n (global_cell sd p world) 0 n)) as Hb.
    rewrite length_grid_records in Hb by lia.
    apply Hb. intros rec Hin. unfold grid_records in Hin.
    apply in_map_iff in Hin as (rc & <- & _). cbn [snd].
    apply (global_cell_u8 sd p world Hring). }
  assert (Hred : reduce_sum sd world = Some total).
  { rewrite <- Htotal.
    apply (reduce_sum_spec sd (fun k => records_sum (F k)) world 0).
    - intros k Hk. cbn [Nat.add].
      assert (Hi : 0 <= Z.of_nat k < p) by lia.
      destruct (ring_worker sd p world Hring _ Hi) as (w & Hw & Hpart & _).
      rewrite Nat2Z.id in Hw.
      destruct (ring_rank_range sd p world k w Hring Hw) as (Hd & Hg & Hu & Hoff & Hend).
      pose proof Hd as Hd'. unfold dims_ok in Hd'.
      assert (HL : local_rows (part w) <= n) by (subst n; lia).
      destruct (local_sum_spec sd w Hd Hg Hu) as [Es Hs]; [fold n; nia | exact Hoff |].
      cbv beta zeta in Es, Hs.
      pose proof (ring_rank_records sd p world Hring k w Hw) as E.
      cbv beta zeta in E. fold n in Es, Hs, E. rewrite E in Es, Hs.
      exists w. split; [exact Hw|]. split; [exact Es | exact (proj1 Hs)].
    - rewrite Htotal. lia. }
  split; [exact Hred|]. split; [exact Hrange|]. split.
  - intros H0. unfold stats_line, due. now rewrite H0.
  - intros Hne. unfold stats_line, due, usize_rem.
    rewrite (proj2 (Z.eqb_neq _ 0) Hne).
    destruct (step mod stats_every sd =? 0); [|reflexivity]. now rewrite Hred.
Qed.

Lemma diagnostic_counts_grid_witness :
  reduce_sum sd4 world42
  = Some (records_sum (grid_records 4 (global_cell sd4 2 world42) 0 4)).
Proof.
  refine (proj1 (diagnostic_counts_grid sd4 2 world42 0 world42_ok _)).
  unfold long_max. simpl. lia.
Defined.

(** ** File names *)

Lemma string_of_uint_digits d :
  all_digits (DecimalString.NilEmpty.string_of_uint d) = true.
Proof. induction d; cbn [DecimalString.NilEmpty.string_of_uint all_digits]; auto. Qed.

Lemma of_uint_zeros k d : N.of_uint (zeros k d) = N.of_uint d.
Proof. induction k as [|k IH]; [reflexivity|]. exact IH. Qed.

Lemma zero_fill_value w z : 0 <= z -> digits_value (zero_fill w z) = Some z.
Proof.
  intros Hz. unfold digits_value, zero_fill.
  rewrite DecimalString.NilEmpty.usu, of_uint_zeros, DecimalN.Unsigned.of_to.
  now rewrite Z2N.id.
Qed.

Lemma split_digits_app d rest :
  all_digits d = true ->
  (forall a t, rest = String.String a t -> is_digit a = false) ->
  split_digits (String.append d rest) = (d, rest).
Proof.
  intros Hd Hrest. induction d as [|a d IH]; cbn [String.append].
  - destruct rest as [|a t]; [reflexivity|].
    cbn [split_digits]. now rewrite (Hrest a t eq_refl).
  - cbn [all_digits] in Hd. apply andb_true_iff in Hd as [Ha Hd].
    cbn [split_digits]. rewrite Ha, (IH Hd). reflexivity.
Qed.

Lemma append_inj_l (s t1 t2 : String.string) :
  String.append s t1 = String.append s t2 -> t1 = t2.
Proof.
  induction s as [|a s IH]; cbn [String.append]; intros H; [exact H|].
  injection H as H. exact (IH H).
Qed.

Lemma nb_digits_zeros k d :
  Decimal.nb_digits (zeros k d) = (k + Decimal.nb_digits d)%nat.
Proof. induction k as [|k IH]; [reflexivity|]. cbn. now rewrite IH. Qed.

Lemma length_string_of_uint d :
  String.length (DecimalString.NilEmpty.string_of_uint d) = Decimal.nb_digits d.
Proof. induction d; cbn; auto. Qed.

(** X12. The file name of the dump encodes the step and the rank: each
    of the two numbers is written with at least 8 characters, all of them
    digits, and two names are equal only if both the steps and the ranks
    are, so the files of different passes or ranks never collide. *)
Theorem file_name_injective (step1 rank1 step2 rank2 : Z) :
  0 <= step1 -> 0 <= rank1 -> 0 <= step2 -> 0 <= rank2 ->
  (file_name step1 rank1 = file_name step2 rank2 -> step1 = step2 /\ rank1 = rank2)
  /\ all_digits (fmt_08 step1) = true
  /\ (8 <= String.length (fmt_08 step1))%nat
  /\ digits_value (fmt_08 step1) = Some step1.
Proof.
  intros Hs1 Hr1 Hs2 Hr2.
  assert (Hfmt : forall z, 0 <= z -> fmt_08 z = zero_fill 8 z).
  { intros z Hz. unfold fmt_08. now rewrite (proj2 (Z.ltb_ge z 0)) by lia. }
  assert (Hdig : forall z, all_digits (zero_fill 8 z) = true)
    by (intros z; apply string_of_uint_digits).
  split; [|split; [|split]].
  - unfold file_name. rewrite !Hfmt by assumption. intros H.
    apply append_inj_l in H.
    assert (Hsplit : forall z rest,
              (exists a t, rest = String.String a t /\ is_digit a = false) ->
              split_digits (String.append (zero_fill 8 z) rest)
              = (zero_fill 8 z, rest)).
    { intros z rest (a & t & -> & Ha). apply split_digits_app; [apply Hdig|].
      intros a' t' E. now injection E as <- _. }
    pose proof (f_equal split_digits H) as Hsp.
    rewrite !Hsplit in Hsp by (cbn [String.append]; eexists _, _; split; reflexivity).
    injection Hsp as Hstep Hrest.
    pose proof (f_equal split_digits Hrest) as Hsp.
    rewrite !Hsplit in Hsp by (eexists _, _; split; reflexivity).
    injection Hsp as Hrank.
    pose proof (zero_fill_value 8 step1 Hs1) as V1. rewrite Hstep in V1.
    rewrite (zero_fill_value 8 step2 Hs2) in V1.
    pose proof (zero_fill_value 8 rank1 Hr1) as W1. rewrite Hrank in W1.
    rewrite (zero_fill_value 8 rank2 Hr2) in W1.
    injection V1 as V1. injection W1 as W1. split; congruence.
  - rewrite Hfmt by assumption. apply Hdig.
  - rewrite Hfmt by assumption. unfold zero_fill.
    rewrite length_string_of_uint, nb_digits_zeros. lia.
  - rewrite Hfmt by assumption. apply zero_fill_value. assumption.
Qed.

Lemma file_name_injective_witness :
  (file_name 3 1 = file_name 7 0 -> 3 = 7 /\ 1 = 0)
  /\ all_digits (fmt_08 3) = true
  /\ (8 <= String.length (fmt_08 3))%nat
  /\ digits_value (fmt_08 3) = Some 3.
Proof.
  apply (file_name_injective 3 1 7 0); lia.
Defined.

(** ** The whole loop on a ring *)

Lemma grid_records_ext n (f g : Z -> Z -> Z) first count :
  (forall r c, first <= r < first + count -> 0 <= c < n -> f r c = g r c) ->
  grid_records n f first count = grid_records n g first count.
Proof.
  intros H. unfold grid_records. apply map_ext_in.
  intros [r c] Hin. apply in_cells_of in Hin. cbn [fst snd].
  now rewrite H by lia.
Qed.

Lemma rank_files_ext sd p (f g : Z -> Z -> Z) :
  is_usize (grid_size sd) -> 1 <= p <= int_max ->
  (forall r c, 0 <= r < grid_size sd -> 0 <= c < grid_size sd -> f r c = g r c) ->
  rank_files sd p f = rank_files sd p g.
Proof.
  intros Hus Hp H. unfold rank_files. apply map_ext_in.
  intros k Hk. apply in_seq in Hk.
  assert (Hi : 0 <= Z.of_nat k < p) by lia.
  pose proof (offset_nonneg sd p Hus Hp _ Hi) as Hoff. cbv beta zeta in Hoff.
  pose proof (range_end_le sd p Hus Hp _ Hi) as Hend. cbv beta zeta in Hend.
  apply grid_records_ext. intros r c Hr Hc. apply H; lia.
Qed.

Lemma observation_of_ext sd p (f g : Z -> Z -> Z) step :
  is_usize (grid_size sd) -> 1 <= p <= int_max ->
  (forall r c, 0 <= r < grid_size sd -> 0 <= c < grid_size sd -> f r c = g r c) ->
  observation_of sd p f step = observation_of sd p g step.
Proof.
  intros Hus Hp H. unfold observation_of.
  rewrite (rank_files_ext sd p f g Hus Hp H).
  rewrite (grid_records_ext (grid_size sd) f g 0 (grid_size sd)); [reflexivity|].
  intros r c Hr Hc. apply H; lia.
Qed.

(** The files of a ring are those of its distributed grid. *)
Lemma ring_dump_all sd p world :
  ring_ok sd p world ->
  dump_all sd world = Some (rank_files sd p (global_cell sd p world)).
Proof.
  intros Hring.
  assert (Hlen : length world = Z.to_nat p)
    by (destruct Hring as (_ & _ & _ & Hlen & _); lia).
  unfold rank_files. rewrite <- Hlen.
  apply dump_all_spec.
  - intros k w Hw. cbn [Nat.add].
    destruct (ring_rank_range sd p world k w Hring Hw) as (Hd & Hg & _ & Hoff & Hend).
    rewrite (dump_records_spec sd w Hd Hg Hoff).
    + f_equal. pose proof (ring_rank_records sd p world Hring k w Hw) as E.
      cbv beta zeta in E. exact E.
    + destruct Hring as (Hn & _). unfold usize_max, int_max in *. lia.
  - intros k pr Hk Hne. exfalso.
    destruct (ring_all_running sd p world k pr Hring Hk) as (w & ->).
    now apply (Hne w).
Qed.

(** The reduced sum of a ring is the sum of its distributed grid. *)
Lemma ring_reduce_sum sd p world :
  ring_ok sd p world ->
  255 * (grid_size sd * grid_size sd) <= long_max ->
  reduce_sum sd world
  = Some (records_sum
            (grid_records (grid_size sd) (global_cell sd p world) 0 (grid_size sd))).
Proof.
  intros Hring Hbound.
  set (n := grid_size sd) in *.
  set (total := records_sum (grid_records n (global_cell sd p world) 0 n)).
  set (F := fun k : nat =>
              grid_records n (global_cell sd p world)
                (row_offset (compute_partition sd (Z.of_nat k) p))
                (local_rows (compute_partition sd (Z.of_nat k) p))).
  assert (Hlen : length world = Z.to_nat p)
    by (destruct Hring as (_ & _ & _ & Hlen & _); lia).
  assert (Hn : 1 <= n <= int_max) by (destruct Hring as (Hn & _); exact Hn).
  assert (Htotal : fold_right Z.add 0
                     (map (fun k => records_sum (F k)) (seq 0 (length world)))
                   = total).
  { rewrite records_sum_concat, Hlen.
    pose proof (ring_records_all sd p world Hring) as E. cbv beta zeta in E.
    unfold F. fold n in E. now rewrite E. }
  assert (Hrange : 0 <= total <= 255 * (n * n)).
  { subst total.
    pose proof (records_sum_bound (grid_records n (global_cell sd p world) 0 n)) as Hb.
    rewrite length_grid_records in Hb by lia.
    apply Hb. intros rec Hin. unfold grid_records in Hin.
    apply in_map_iff in Hin as (rc & <- & _). cbn [snd].
    apply (global_cell_u8 sd p world Hring). }
  rewrite <- Htotal.
  apply (reduce_sum_spec sd (fun k => records_sum (F k)) world 0).
  - intros k Hk. cbn [Nat.add].
    assert (Hi : 0 <= Z.of_nat k < p) by lia.
    destruct (ring_worker sd p world Hring _ Hi) as (w & Hw & Hpart & _).
    rewrite Nat2Z.id in Hw.
    destruct (ring_rank_range sd p world k w Hring Hw) as (Hd & Hg & Hu & Hoff & Hend).
    pose proof Hd as Hd'. unfold dims_ok in Hd'.
    assert (HL : local_rows (part w) <= n) by (subst n; lia).
    destruct (local_sum_spec sd w Hd Hg Hu) as [Es Hs]; [fold n; nia | exact Hoff |].
    cbv beta zeta in Es, Hs.
    pose proof (ring_rank_records sd p world Hring k w Hw) as E.
    cbv beta zeta in E. fold n in Es, Hs, E. rewrite E in Es, Hs.
    exists w. split; [exact Hw|]. split; [exact Es | exact (proj1 Hs)].
  - rewrite Htotal. lia.
Qed.

(** The first two stages of a pass on a ring: the exchange and the
    stencil update complete and leave the distributed grid, which the
    diagnostics and the dump then read, as it was. *)
Lemma ring_stages sd p world :
  ring_ok sd p world ->
  exists exchanged computed,
    halo_exchange sd world = Some exchanged
    /\ each_proc (compute_next sd) exchanged = Some computed
    /\ ring_ok sd p computed
    /\ forall g c, 0 <= g < grid_size sd -> 0 <= c < grid_size sd ->
         global_cell sd p computed g c = global_cell sd p world g c.
Proof.
  intros Hring.
  destruct (each_proc_spec (waitall sd world) (exchanged_from sd p world) world)
    as (world1 & Hex1 & Hlen1 & Hfwd1 & _ & Hback1).
  { apply (ring_exchange_step sd p world Hring). }
  destruct (each_proc_spec (compute_next sd) (computed_from sd) world1)
    as (world2 & Hex2 & Hlen2 & Hfwd2 & _ & _).
  { intros k w1 Hk. destruct (Hback1 k w1 Hk) as (w & Hw & _ & Hx).
    destruct (ring_entry sd p world Hring k w Hw) as (Hi & Hpart & _ & _ & Hnb & _).
    pose proof (ring_dims sd p world Hring _ Hi) as Hd.
    destruct Hx as (Hp1 & Hn1 & Hg1 & Hu1 & _).
    apply compute_next_cells; rewrite ?Hp1, ?Hn1, ?Hpart in *; assumption. }
  assert (Hstep : forall i, 0 <= i < p ->
            exists w w2,
              world !! Z.to_nat i = Some (Running w)
              /\ world2 !! Z.to_nat i = Some (Running w2)
              /\ part w2 = compute_partition sd i p
              /\ buffer_ok sd (part w2) (grid_buf w2) /\ Forall is_u8 (grid_buf w2)
              /\ buffer_ok sd (part w2) (next_buf w2) /\ Forall is_u8 (next_buf w2)
              /\ forall r c, 1 <= r <= local_rows (compute_partition sd i p) ->
                   0 <= c < grid_size sd ->
                   cell (grid_size sd) (grid_buf w2) r c
                   = cell (grid_size sd) (grid_buf w) r c).
  { intros i Hi.
    destruct (ring_worker sd p world Hring i Hi) as (w & Hw & Hpart & Hg & Hu & Hnb & Hnu).
    destruct (Hfwd1 _ _ Hw) as (w1 & Hw1 & _ & Hx).
    destruct (Hfwd2 _ _ Hw1) as (w2 & Hw2 & _ & Hc).
    exists w, w2. split; [exact Hw|]. split; [exact Hw2|].
    pose proof Hx as (Hp1 & Hn1 & Hg1 & Hu1 & Hcells).
    pose proof Hc as (Hp2 & Hg2 & Hnb2 & Hnu2 & _).
    cbv zeta in Hcells.
    rewrite Hp2, Hp1, Hpart, Hg2. rewrite Hp1, Hpart in Hnb2. rewrite Hpart in Hg1.
    split; [reflexivity|]. split; [exact Hg1|]. split; [exact Hu1|].
    split; [exact Hnb2|]. split; [apply Hnu2; rewrite Hn1; exact Hnu|].
    intros r c Hr Hcc. rewrite Hpart in Hcells.
    destruct (Hcells r c Hr Hcc) as (_ & E & _). rewrite E.
    apply (ring_global_cell sd p world Hring i w r c Hi Hw Hr). }
  assert (Hring2 : ring_ok sd p world2).
  { destruct Hring as (Hn & Hp & Hpr & Hlen & _).
    unfold ring_ok.
    split; [exact Hn|]. split; [exact Hp|]. split; [exact Hpr|].
    split; [rewrite Hlen2, Hlen1; exact Hlen|].
    intros i Hi. destruct (Hstep i Hi) as (w & w2 & _ & Hw2 & Hp2 & H1 & H2 & H3 & H4 & _).
    exists w2. repeat split; assumption. }
  exists world1, world2. split; [exact Hex1|]. split; [exact Hex2|].
  split; [exact Hring2|].
  intros g c Hg Hc.
  destruct (owner_owns sd p (ring_usize sd p world Hring) (ring_count sd p world Hring) g Hg)
    as (Hi & Ho).
  set (i := owner sd p g) in *. unfold owns in Ho. cbv zeta in Ho.
  destruct (Hstep i Hi) as (w & w2 & Hw & Hw2 & _ & _ & _ & _ & _ & Hcells).
  pose proof (ring_global_cell sd p world2 Hring2 i w2
                (g - row_offset (compute_partition sd i p) + 1) c Hi Hw2 ltac:(lia)) as E2.
  pose proof (ring_global_cell sd p world Hring i w
                (g - row_offset (compute_partition sd i p) + 1) c Hi Hw ltac:(lia)) as E1.
  cbv zeta in E1, E2.
  replace (row_offset (compute_partition sd i p)
           + (g - row_offset (compute_partition sd i p) + 1) - 1) with g in E1, E2 by lia.
  rewrite E1, E2. apply Hcells; lia.
Qed.

(** One pass of the loop on a ring. *)
Lemma ring_pass sd p world step log :
  ring_ok sd p world ->
  stats_every sd <> 0 -> data_every sd <> 0 ->
  255 * (grid_size sd * grid_size sd) <= long_max ->
  exists world',
    generation sd world = Some world'
    /\ ring_ok sd p world'
    /\ (forall g c, 0 <= g < grid_size sd -> 0 <= c < grid_size sd ->
          global_cell sd p world' g c
          = torus_step (grid_size sd) (global_cell sd p world) g c)
    /\ loop_pass sd step (world, log)
       = Some (world', log ++ [observation_of sd p (global_cell sd p world) step]).
Proof.
  intros Hring Hsv Hdv Hbound.
  destruct (ring_generation sd p world Hring) as (world' & Hgen & Hring' & Hcells).
  destruct (ring_stages sd p world Hring)
    as (exchanged & computed & Hex & Hcomp & Hring2 & Hsame).
  exists world'. split; [exact Hgen|]. split; [exact Hring'|].
  split; [exact Hcells|].
  unfold generation in Hgen. rewrite Hex, Hcomp in Hgen.
  unfold loop_pass. cbn [fst snd]. rewrite Hex, Hcomp.
  unfold stats_line, data_dump, due, usize_rem.
  rewrite (proj2 (Z.eqb_neq _ 0) Hsv), (proj2 (Z.eqb_neq _ 0) Hdv).
  rewrite (ring_reduce_sum sd p computed Hring2 Hbound).
  rewrite (ring_dump_all sd p computed Hring2).
  rewrite <- (observation_of_ext sd p (global_cell sd p computed)
                (global_cell sd p world) step
                (ring_usize sd p world Hring) (ring_count sd p world Hring) Hsame).
  unfold observation_of.
  destruct (step mod stats_every sd =? 0), (step mod data_every sd =? 0);
    rewrite Hgen; reflexivity.
Qed.

(** Any number of passes of the loop on a ring. *)
Lemma ring_passes sd p (count : nat) : forall first world log,
  ring_ok sd p world ->
  stats_every sd <> 0 -> data_every sd <> 0 ->
  255 * (grid_size sd * grid_size sd) <= long_max ->
  exists world',
    run sd count world = Some world'
    /\ ring_ok sd p world'
    /\ (forall g c, 0 <= g < grid_size sd -> 0 <= c < grid_size sd ->
          global_cell sd p world' g c
          = torus_iter (grid_size sd) count (global_cell sd p world) g c)
    /\ passes sd first count (world, log)
       = Some (world', log ++ observations sd p (global_cell sd p world) first count).
Proof.
  induction count as [|count IH]; intros first world log Hring Hsv Hdv Hbound.
  - exists world. split; [reflexivity|]. split; [assumption|].
    split; [reflexivity|].
    unfold passes, observations. cbn [for_loop seq map]. now rewrite app_nil_r.
  - destruct (ring_pass sd p world first log Hring Hsv Hdv Hbound)
      as (world1 & Hgen & Hring1 & Hcells1 & Hpass).
    destruct (IH (first + 1)
                world1 (log ++ [observation_of sd p (global_cell sd p world) first])
                Hring1 Hsv Hdv Hbound)
      as (world' & Hrun & Hring' & Hcells' & Hrest).
    assert (Hn : 1 <= grid_size sd) by (destruct Hring as (Hn & _); lia).
    assert (Hiter : forall (k : nat) g c,
              0 <= g < grid_size sd -> 0 <= c < grid_size sd ->
              torus_iter (grid_size sd) k (global_cell sd p world1) g c
              = torus_iter (grid_size sd) (S k) (global_cell sd p world) g c).
    { intros k g c Hg Hc. cbn [torus_iter].
      apply torus_iter_ext; try assumption. }
    exists world'. cbn [run]. rewrite Hgen. split; [exact Hrun|].
    split; [exact Hring'|]. split.
    { intros g c Hg Hc. rewrite Hcells' by assumption. now apply Hiter. }
    unfold passes in *. cbn [for_loop]. rewrite Hpass, Hrest. f_equal. f_equal.
    rewrite <- app_assoc. f_equal.
    unfold observations. cbn [seq map app torus_iter].
    replace (first + Z.of_nat 0) with first by lia. f_equal.
    rewrite <- seq_shift, map_map. apply map_ext. intros k.
    replace (first + 1 + Z.of_nat k) with (first + Z.of_nat (S k)) by lia.
    apply observation_of_ext.
    + exact (ring_usize sd p world Hring).
    + exact (ring_count sd p world Hring).
    + intros g c Hg Hc. now apply Hiter.
Qed.


(** ** The ranks at the entry of the loop *)

Lemma barrier_running world k w :
  world !! k = Some (Running w) -> barrier world = world.
Proof.
  intros Hk. unfold barrier.
  destruct (forallb at_barrier world) eqn:E; [|reflexivity].
  rewrite forallb_forall in E.
  assert (Hin : In (Running w) world)
    by (apply list_elem_of_In; eapply list_elem_of_lookup_2; exact Hk).
  specialize (E _ Hin). discriminate.
Qed.

Lemma barrier_replicate (count : nat) :
  barrier (replicate count AtBarrier)
  = replicate count (Exited EXIT_SUCCESS [MPI_Barrier; MPI_Finalize]).
Proof.
  unfold barrier.
  assert (E : forallb at_barrier (replicate count AtBarrier) = true)
    by (induction count as [|count IH]; [reflexivity | exact IH]).
  rewrite E. induction count as [|count IH]; [reflexivity|].
  cbn [replicate map]. now rewrite IH.
Qed.

Lemma start_zero_rows bit sd r p :
  local_rows (compute_partition sd r p) = 0 -> start bit sd r p = Some AtBarrier.
Proof. intros E. unfold start. now rewrite E. Qed.

(** A started rank waits in the barrier exactly when it owns no row; it
    never has returned from [main]. *)
Lemma start_cases bit sd r p pr :
  start bit sd r p = Some pr ->
  (pr = AtBarrier <-> local_rows (compute_partition sd r p) = 0)
  /\ forall st calls, pr <> Exited st calls.
Proof.
  unfold start. intros H.
  destruct (Z.eqb_spec (local_rows (compute_partition sd r p)) 0) as [E|E].
  - injection H as <-. split; [tauto | discriminate].
  - destruct (initialize bit sd _) as [w|]; [|discriminate]. injection H as <-.
    split; [split; [discriminate | contradiction] | discriminate].
Qed.

Lemma start_all_zero_rows bit sd p (count : nat) : forall first,
  (forall k, (k < count)%nat ->
     local_rows (compute_partition sd (first + Z.of_nat k) p) = 0) ->
  start_all bit sd p first count = Some (replicate count AtBarrier).
Proof.
  induction count as [|count IH]; intros first H; [reflexivity|].
  cbn [start_all replicate].
  rewrite start_zero_rows.
  - rewrite IH; [reflexivity|]. intros k Hk.
    replace (first + 1 + Z.of_nat k) with (first + Z.of_nat (S k)) by lia.
    apply H. lia.
  - replace first with (first + Z.of_nat 0) by lia. apply H. lia.
Qed.

(** Under the random pattern every rank that owns rows gets through its
    initialisation. *)
Lemma start_random bit sd r p :
  id_type sd = random_id ->
  1 <= grid_size sd <= int_max -> 0 <= r < p -> p <= int_max ->
  exists pr,
    start bit sd r p = Some pr
    /\ (local_rows (compute_partition sd r p) <> 0 ->
        exists w, pr = Running w /\ part w = compute_partition sd r p).
Proof.
  intros Hid Hn Hr Hp.
  assert (Hus : is_usize (grid_size sd))
    by (unfold is_usize, usize_max, int_max in *; lia).
  pose proof (local_rows_bounds sd r p Hus Hr Hp) as HLb.
  destruct (Z.eq_dec (local_rows (compute_partition sd r p)) 0) as [E|E].
  - exists AtBarrier. split; [now apply start_zero_rows | contradiction].
  - assert (Hd : dims_ok sd (compute_partition sd r p)) by (unfold dims_ok; lia).
    destruct (allocate_ok sd _ Hd) as [Hg _].
    destruct (init_random_spec bit sd (allocate sd (compute_partition sd r p)) Hd Hg)
      as (g & Hinit & _).
    unfold start, initialize. rewrite Hid, (proj2 (Z.eqb_neq _ 0) E), Hinit.
    eexists. split; [reflexivity|]. intros _. eexists. split; reflexivity.
Qed.

(** With more ranks than rows rank 0 owns exactly one row. *)
Lemma first_rank_one_row sd p :
  1 <= grid_size sd -> grid_size sd < p -> p <= int_max ->
  local_rows (compute_partition sd 0 p) = 1.
Proof.
  intros Hn Hnp Hp.
  assert (Hus : is_usize (grid_size sd))
    by (unfold is_usize, usize_max, int_max in *; lia).
  destruct (compute_partition_closed sd 0 p Hus ltac:(lia) Hp) as [-> _].
  rewrite Z.div_small, Z.mod_small by lia.
  now rewrite (proj2 (Z.ltb_lt 0 (grid_size sd))) by lia.
Qed.

(** X2. A rank owns no row exactly when its index is at least the grid
    size, and some rank owns none iff [size > grid_size], the condition
    of the warning of line 104.  Such a rank calls [MPI_Barrier] and
    nothing else; it gets past the barrier, to [MPI_Finalize] and
    [return EXIT_SUCCESS], only when [grid_size = 0], where every rank of
    the world is in the barrier.  With [grid_size >= 1] rank 0 owns rows
    and never calls the barrier: the ranks without rows stay inside it
    and no rank has returned from [main] at the entry of the loop. *)
Theorem zero_row_ranks (bit : Z -> Z -> Z) (sd : SimulationData) (p r : Z) :
  is_usize (grid_size sd) -> 0 <= r < p -> p <= int_max ->
  (local_rows (compute_partition sd r p) = 0 <-> grid_size sd <= r)
  /\ ((exists r', 0 <= r' < p /\ local_rows (compute_partition sd r' p) = 0)
      <-> grid_size sd < p)
  /\ (grid_size sd = 0 ->
      start_world bit sd p
      = Some (replicate (Z.to_nat p)
                (Exited EXIT_SUCCESS [MPI_Barrier; MPI_Finalize])))
  /\ (1 <= grid_size sd ->
      forall world, start_world bit sd p = Some world ->
        length world = Z.to_nat p
        /\ (world !! Z.to_nat r = Some AtBarrier <-> grid_size sd <= r)
        /\ (exists w0, world !! 0%nat = Some (Running w0))
        /\ forall k st calls, world !! k <> Some (Exited st calls)).
Proof.
  intros Hn Hr Hp.
  pose proof (local_rows_zero_iff sd r p Hn Hr Hp) as Hz.
  split; [exact Hz|]. split; [|split].
  - split.
    + intros (r' & Hr' & Hz'). apply local_rows_zero_iff in Hz'; try assumption. lia.
    + intros Hlt. exists (p - 1). split; [lia|].
      apply local_rows_zero_iff; try assumption; lia.
  - intros H0. unfold start_world.
    rewrite start_all_zero_rows.
    + now rewrite barrier_replicate.
    + intros k Hk. apply local_rows_zero_iff; try assumption; lia.
  - intros H1 world Hstart. unfold start_world in Hstart.
    destruct (start_all bit sd p 0 (Z.to_nat p)) as [ws|] eqn:E; [|discriminate].
    injection Hstart as <-.
    destruct (start_all_lookup bit sd p _ _ _ E) as [Hlen Hk].
    destruct (Hk O ltac:(lia)) as (pr0 & Hw0 & Hs0).
    replace (0 + Z.of_nat 0) with 0 in Hs0 by lia.
    assert (H0 : local_rows (compute_partition sd 0 p) <> 0).
    { intros E0. apply (local_rows_zero_iff sd 0 p Hn ltac:(lia) Hp) in E0. lia. }
    destruct (start_running bit sd 0 p pr0 Hs0 H0) as (w0 & -> & _).
    rewrite (barrier_running ws O w0 Hw0).
    split; [exact Hlen|]. split; [|split].
    + destruct (Hk (Z.to_nat r) ltac:(lia)) as (pr & Hw & Hs).
      replace (0 + Z.of_nat (Z.to_nat r)) with r in Hs by lia.
      destruct (start_cases bit sd r p pr Hs) as [Hb _].
      rewrite Hw, <- Hz, <- Hb. split; [now intros [= ->] | now intros ->].
    + exists w0. exact Hw0.
    + intros k st calls Hw.
      assert (Hlt : (k < Z.to_nat p)%nat)
        by (rewrite <- Hlen; eapply lookup_lt_Some; exact Hw).
      destruct (Hk k Hlt) as (pr & Hw' & Hs).
      rewrite Hw in Hw'. injection Hw' as <-.
      destruct (start_cases bit sd _ p _ Hs) as [_ Hne]. now apply (Hne st calls).
Qed.

Lemma zero_row_ranks_witness :
  exists world,
    start_world (fun _ _ => 0) sd_degenerate 4 = Some world
    /\ (world !! 3%nat = Some AtBarrier <-> grid_size sd_degenerate <= 3)
    /\ forall k st calls, world !! k <> Some (Exited st calls).
Proof.
  eexists. split; [vm_compute; reflexivity|].
  refine ((fun H => conj (proj1 (proj2 H)) (proj2 (proj2 (proj2 H))))
            (proj2 (proj2 (proj2
               (zero_row_ranks (fun _ _ => 0) sd_degenerate 4 3 _ _ _)))
               _ _ eq_refl)).
  - unfold is_usize, usize_max. simpl. lia.
  - lia.
  - unfold int_max. lia.
  - simpl. lia.
Defined.

(** X8. With [1 <= grid_size < size] and at least one generation no run
    completes.  Rank 0 owns one row and the last rank none.  Under the
    glider pattern the initialisation of rank 0 writes outside its
    three-row buffer.  Under the random pattern all ranks get to line
    176: rank 0 enters the loop, the last rank waits in [MPI_Barrier],
    and the first receive of rank 0 names that rank ([up = size - 1],
    tag 0) as its source, so that no send matches it and the
    [MPI_Waitall] of rank 0 does not return. *)
Theorem more_ranks_than_rows (bit : Z -> Z -> Z) (sd : SimulationData) (p : Z) :
  1 <= grid_size sd -> grid_size sd < p -> p <= int_max ->
  1 <= generations sd ->
  up 0 p = p - 1
  /\ local_rows (compute_partition sd 0 p) = 1
  /\ local_rows (compute_partition sd (p - 1) p) = 0
  /\ simulate bit sd p = None
  /\ match id_type sd with
     | glider_id => start bit sd 0 p = None
     | random_id =>
         exists world0 w0,
           start_world bit sd p = Some world0
           /\ world0 !! 0%nat = Some (Running w0)
           /\ world0 !! Z.to_nat (p - 1) = Some AtBarrier
           /\ halo_requests sd (part w0) !! 0%nat
              = Some (MPI_Irecv 0 (grid_size sd) (p - 1) 0)
           /\ waitall sd world0 w0 = None
           /\ halo_exchange sd world0 = None
     end.
Proof.
  intros Hn Hnp Hp Hgen.
  assert (Hus : is_usize (grid_size sd))
    by (unfold is_usize, usize_max, int_max in *; lia).
  pose proof (first_rank_one_row sd p Hn Hnp Hp) as H0.
  pose proof (local_rows_zero_iff sd (p - 1) p Hus ltac:(lia) Hp) as Hzl.
  assert (Hl : local_rows (compute_partition sd (p - 1) p) = 0) by (apply Hzl; lia).
  pose proof (up_zero p ltac:(lia)) as Hup.
  split; [exact Hup|]. split; [exact H0|]. split; [exact Hl|].
  assert (Hd : dims_ok sd (compute_partition sd 0 p))
    by (unfold dims_ok, int_max in *; lia).
  assert (Hcount : Z.to_nat p = S (Z.to_nat (p - 1))) by lia.
  destruct (id_type sd) eqn:Hid.
  - assert (Hs0 : start bit sd 0 p = None).
    { unfold start, initialize. rewrite Hid, H0. cbn [Z.eqb].
      now rewrite (init_glider_none sd _ Hd) by lia. }
    split; [|exact Hs0].
    unfold simulate, start_world. rewrite Hcount. cbn [start_all].
    now rewrite Hs0.
  - destruct (start_all_some bit sd p (Z.to_nat p) 0) as (world0 & Hw).
    { intros k Hk.
      destruct (start_random bit sd (0 + Z.of_nat k) p Hid) as (pr & Hpr & _);
        try (unfold int_max in *; lia).
      now exists pr. }
    destruct (start_all_lookup bit sd p _ _ _ Hw) as [Hlen Hk].
    destruct (Hk O ltac:(lia)) as (pr0 & Hw0 & Hs0).
    destruct (Hk (Z.to_nat (p - 1)) ltac:(lia)) as (prl & Hwl & Hsl).
    replace (0 + Z.of_nat 0) with 0 in Hs0 by lia.
    replace (0 + Z.of_nat (Z.to_nat (p - 1))) with (p - 1) in Hsl by lia.
    destruct (start_running bit sd 0 p pr0 Hs0 ltac:(lia)) as (w0 & -> & Hpart0).
    rewrite (start_zero_rows bit sd (p - 1) p Hl) in Hsl. injection Hsl as <-.
    assert (Hstart : start_world bit sd p = Some world0).
    { unfold start_world. rewrite Hw. now rewrite (barrier_running world0 O w0 Hw0). }
    assert (Hreq : halo_requests sd (part w0) !! 0%nat
                   = Some (MPI_Irecv 0 (grid_size sd) (p - 1) 0)).
    { rewrite Hpart0, halo_requests_partition, Hup. cbn [lookup list_lookup].
      rewrite to_int_id by (unfold is_int, int_min, int_max in *; lia).
      reflexivity. }
    assert (Hwait : waitall sd world0 w0 = None).
    { unfold waitall. rewrite Hpart0, halo_requests_partition.
      change (rank (compute_partition sd 0 p)) with 0.
      cbn [complete_all]. unfold complete at 1.
      rewrite Hup, (proj2 (Z.ltb_ge (p - 1) 0)) by lia. now rewrite Hwl. }
    assert (Hex : halo_exchange sd world0 = None)
      by (exact (each_proc_none (waitall sd world0) world0 O w0 Hw0 Hwait)).
    split.
    + unfold simulate. rewrite Hstart.
      destruct (Z.to_nat (generations sd)) as [|k] eqn:Ek; [lia|].
      unfold passes. cbn [for_loop]. unfold loop_pass. cbn [fst].
      now rewrite Hex.
    + exists world0, w0. repeat (split; [assumption|]). exact Hex.
Qed.

Lemma more_ranks_than_rows_witness :
  simulate (fun _ _ => 0) sd_degenerate 4 = None
  /\ exists world0 w0,
       start_world (fun _ _ => 0) sd_degenerate 4 = Some world0
       /\ world0 !! 0%nat = Some (Running w0)
       /\ world0 !! 3%nat = Some AtBarrier
       /\ waitall sd_degenerate world0 w0 = None.
Proof.
  destruct (more_ranks_than_rows (fun _ _ => 0) sd_degenerate 4)
    as (_ & _ & _ & Hsim & world0 & w0 & H1 & H2 & H3 & _ & H4 & _).
  - simpl. lia.
  - simpl. lia.
  - unfold int_max. lia.
  - simpl. lia.
  - split; [exact Hsim|]. exists world0, w0.
    split; [exact H1|]. split; [exact H2|]. split; [exact H3 | exact H4].
Defined.

(** ** Whole runs *)


(** X7. On a ring where every rank owns rows, with both sampling periods
    non-zero, any number of passes of the loop completes.  The buffers
    end as after that many generations (exchange, update, swap), which is
    that many steps of the rule on the [n x n] torus; the pass of step
    [s] prints, when [s] is a multiple of [stats_every], the sum of the
    cells of the grid as it is before the update of that pass, and
    writes, when [s] is a multiple of [data_every], that grid rank by
    rank. *)
Theorem distributed_run (sd : SimulationData) (p : Z) (first : Z) (k : nat)
    (world : list Proc) (log : list Observation) :
  ring_ok sd p world ->
  stats_every sd <> 0 -> data_every sd <> 0 ->
  255 * (grid_size sd * grid_size sd) <= long_max ->
  let n := grid_size sd in
  exists world' seen,
    passes sd first k (world, log) = Some (world', log ++ seen)
    /\ run sd k world = Some world'
    /\ ring_ok sd p world'
    /\ (forall g c, 0 <= g < n -> 0 <= c < n ->
          global_cell sd p world' g c
          = torus_iter n k (global_cell sd p world) g c)
    /\ length seen = k
    /\ forall i, (i < k)%nat ->
         let grid := torus_iter n i (global_cell sd p world) in
         let step := first + Z.of_nat i in
         exists o,
           seen !! i = Some o
           /\ at_step o = step
           /\ printed o
              = (if step mod stats_every sd =? 0
                 then Some (step, records_sum (grid_records n grid 0 n)) else None)
           /\ dumped o
              = (if step mod data_every sd =? 0
                 then Some (rank_files sd p grid) else None).
Proof.
  intros Hring Hsv Hdv Hbound n.
  destruct (ring_passes sd p k first world log Hring Hsv Hdv Hbound)
    as (world' & Hrun & Hring' & Hcells & Hpasses).
  exists world', (observations sd p (global_cell sd p world) first k).
  split; [exact Hpasses|]. split; [exact Hrun|]. split; [exact Hring'|].
  split; [exact Hcells|].
  split; [unfold observations; now rewrite length_map, length_seq|].
  intros i Hi grid step. eexists. split.
  - unfold observations. rewrite list_lookup_fmap, lookup_seq_lt by exact Hi.
    reflexivity.
  - cbn [Nat.add]. unfold observation_of. cbn [at_step printed dumped].
    split; [reflexivity|]. split; reflexivity.
Qed.

Lemma distributed_run_witness :
  exists world' seen,
    passes sd4 0 3 (world42, []) = Some (world', seen)
    /\ run sd4 3 world42 = Some world'
    /\ length seen = 3%nat.
Proof.
  destruct (distributed_run sd4 2 0 3 world42 [] world42_ok)
    as (world' & seen & H1 & H2 & _ & _ & H3 & _).
  - simpl. lia.
  - simpl. lia.
  - unfold long_max. simpl. lia.
  - exists world', seen. split; [exact H1|]. split; [exact H2 | exact H3].
Defined.

(** X9. When the pattern fits on every rank (random data: at most as many
    ranks as rows; glider: at least two rows per rank and three columns)
    and both sampling periods are non-zero, [main] runs from line 110 to
    the end of its generation loop on all ranks: no access leaves a
    buffer, every receive is matched and every reduction is joined by all
    ranks.  The ranks then hold, spread over their owned rows, the
    initial distributed grid advanced by [generations] steps of the rule
    on the [n x n] torus, and what was printed and written on the way are
    the sums and the cells of the grids in between at the sampled
    steps. *)
Theorem whole_run (bit : Z -> Z -> Z) (sd : SimulationData) (p : Z) :
  (forall s k, is_u8 (bit s k)) ->
  1 <= p <= ring_max -> grid_size sd <= int_max ->
  stats_every sd <> 0 -> data_every sd <> 0 ->
  255 * (grid_size sd * grid_size sd) <= long_max ->
  match id_type sd with
  | random_id => p <= grid_size sd
  | glider_id => 2 * p <= grid_size sd /\ 3 <= grid_size sd
  end ->
  exists world0 world',
    start_world bit sd p = Some world0
    /\ ring_ok sd p world0
    /\ simulate bit sd p
       = Some (world',
               observations sd p (global_cell sd p world0) 0
                 (Z.to_nat (generations sd)))
    /\ ring_ok sd p world'
    /\ forall g c, 0 <= g < grid_size sd -> 0 <= c < grid_size sd ->
         global_cell sd p world' g c
         = torus_iter (grid_size sd) (Z.to_nat (generations sd))
             (global_cell sd p world0) g c.
Proof.
  intros Hbit Hp Hnmax Hsv Hdv Hbound Hpat.
  assert (Hpn : p <= grid_size sd) by (destruct (id_type sd); lia).
  assert (Hn : 1 <= grid_size sd <= int_max) by lia.
  assert (Hpi : p <= int_max) by (unfold ring_max, int_max in *; lia).
  assert (Hus : is_usize (grid_size sd))
    by (unfold is_usize, usize_max, int_max in *; lia).
  assert (Hstart : forall r, 0 <= r < p ->
            exists w,
              start bit sd r p = Some (Running w)
              /\ part w = compute_partition sd r p
              /\ buffer_ok sd (part w) (grid_buf w) /\ Forall is_u8 (grid_buf w)
              /\ buffer_ok sd (part w) (next_buf w) /\ Forall is_u8 (next_buf w)).
  { intros r Hr. apply start_ok; try assumption.
    destruct (compute_partition_closed sd r p Hus Hr Hpi) as [HL _].
    assert (Hdiv : forall k, 0 <= k -> k * p <= grid_size sd -> k <= grid_size sd / p)
      by (intros k Hk Hkp; apply Z.div_le_lower_bound; lia).
    destruct (id_type sd).
    - split; [|lia]. rewrite HL. pose proof (Hdiv 2 ltac:(lia) ltac:(lia)).
      destruct (r <? _); lia.
    - rewrite HL. pose proof (Hdiv 1 ltac:(lia) ltac:(lia)).
      destruct (r <? _); lia. }
  destruct (start_all_some bit sd p (Z.to_nat p) 0) as (world0 & Hw0).
  { intros k Hk. destruct (Hstart (0 + Z.of_nat k) ltac:(lia)) as (w & Hw & _).
    eexists. exact Hw. }
  destruct (start_all_lookup bit sd p _ _ _ Hw0) as [Hlen Hk].
  assert (Hring : ring_ok sd p world0).
  { unfold ring_ok. split; [exact Hn|]. split; [lia|]. split; [lia|].
    split; [lia|]. intros i Hi.
    destruct (Hk (Z.to_nat i) ltac:(lia)) as (pr & Hpr & Hs).
    replace (0 + Z.of_nat (Z.to_nat i)) with i in Hs by lia.
    destruct (Hstart i Hi) as (w & Hw & Hrest).
    rewrite Hw in Hs. injection Hs as <-. exists w. split; [exact Hpr | exact Hrest]. }
  assert (Hworld : start_world bit sd p = Some world0).
  { destruct (ring_worker sd p world0 Hring 0 ltac:(lia)) as (w0 & Hw & _).
    unfold start_world. rewrite Hw0.
    now rewrite (barrier_running world0 (Z.to_nat 0) w0 Hw). }
  destruct (ring_passes sd p (Z.to_nat (generations sd)) 0 world0 [] Hring Hsv Hdv Hbound)
    as (world' & _ & Hring' & Hcells & Hpasses).
  exists world0, world'. split; [exact Hworld|]. split; [exact Hring|].
  split; [unfold simulate; rewrite Hworld; exact Hpasses|].
  split; [exact Hring' | exact Hcells].
Qed.

Lemma whole_run_witness :
  exists world0 world',
    start_world (fun _ _ => 0) sd4 2 = Some world0
    /\ simulate (fun _ _ => 0) sd4 2
       = Some (world',
               observations sd4 2 (global_cell sd4 2 world0) 0
                 (Z.to_nat (generations sd4))).
Proof.
  destruct (whole_run (fun _ _ => 0) sd4 2) as (world0 & world' & H0 & _ & H1 & _).
  - intros s k. unfold is_u8. lia.
  - unfold ring_max. lia.
  - unfold int_max. simpl. lia.
  - simpl. lia.
  - simpl. lia.
  - unfold long_max. simpl. lia.
  - simpl. lia.
  - exists world0, world'. split; [exact H0 | exact H1].
Defined.



